(** * The repository code-search / indexing engine

    A shallow embedding of [src/lib/advanced-codebase-index.ts]
    ([AdvancedCodebaseIndex]) and [src/lib/codebase-index.ts]
    ([CodebaseIndexService]), and the properties of the chunker, the
    similarity measure, the fusion stage and the indexing life cycle that
    the specification states about them.

    Conventions.
    - JavaScript numbers are an interface [JsNum] with two instances: IEEE
      binary64 (Rocq's primitive floats, the arithmetic the program runs
      on) and exact rationals (the same operations without rounding and
      without NaN, for comparison).
    - JavaScript strings are [string], the UTF-8 bytes of the text;
      [jsLength] is [.length], the number of UTF-16 code units;
      [toLowerCase] folds the ASCII letters.
    - The SQLite database is a record of tables, each a list of rows in
      insertion order; a statement is a function on that record.
    - [async] code is sequential here: one call runs alone, start to end. *)

From Stdlib Require Import Floats ZArith QArith Qminmax Qabs List String Ascii Bool Arith Lia Lqa.
From Stdlib Require Import DecimalString Sorting.Sorted Sorting.Permutation.
From Stdlib Require DecimalNat.
Import ListNotations.

Set Implicit Arguments.
Set Warnings "-inexact-float,-abstract-large-number".

Local Open Scope string_scope.
Local Open Scope list_scope.
Local Open Scope nat_scope.

(* ================================================================== *)
(** * JavaScript strings *)
(* ================================================================== *)

Module JsString.

Definition newline : ascii := "010"%char.
Definition nl : string := String newline EmptyString.

Definition isUpper (c : ascii) : bool :=
  let n := nat_of_ascii c in (65 <=? n) && (n <=? 90).

Definition lowerChar (c : ascii) : ascii :=
  if isUpper c then ascii_of_nat (nat_of_ascii c + 32) else c.

(** [String.prototype.toLowerCase], on the ASCII range. *)
Fixpoint toLowerCase (s : string) : string :=
  match s with
  | EmptyString => EmptyString
  | String c s' => String (lowerChar c) (toLowerCase s')
  end.

(** The UTF-16 code units a byte of UTF-8 text stands for: none for a byte
    that continues a character (10xxxxxx), two (a surrogate pair) for the
    byte that leads a four-byte character (11110xxx), one otherwise. *)
Definition codeUnits (c : ascii) : nat :=
  let n := nat_of_ascii c in
  if (128 <=? n) && (n <? 192) then 0
  else if 240 <=? n then 2
  else 1.

(** [s.length]: JavaScript counts UTF-16 code units.  A character of one,
    two or three bytes is one unit, a character of four bytes is two. *)
Fixpoint jsLength (s : string) : nat :=
  match s with
  | EmptyString => 0
  | String c s' => codeUnits c + jsLength s'
  end.

(** [s.startsWith(p)]. *)
Fixpoint startsWith (p s : string) : bool :=
  match p, s with
  | EmptyString, _ => true
  | String a p', String b s' => Ascii.eqb a b && startsWith p' s'
  | String _ _, EmptyString => false
  end.

(** [hay.includes(needle)]: [needle] occurs in [hay] at some offset. *)
Fixpoint includes (hay needle : string) : bool :=
  startsWith needle hay
  || match hay with
     | EmptyString => false
     | String _ hay' => includes hay' needle
     end.

(** [s.endsWith(p)]. *)
Definition endsWith (s p : string) : bool :=
  let n := String.length s in
  let m := String.length p in
  (m <=? n) && String.eqb (String.substring (n - m) m s) p.

(** [s.substring(a, b)] for [a <= b]. *)
Definition substring (s : string) (a b : nat) : string :=
  String.substring a (b - a) s.

(** [s.split('\n')]: the lines of [s]; never the empty array. *)
Fixpoint splitLines (s : string) : list string :=
  match s with
  | EmptyString => [EmptyString]
  | String c s' =>
      if Ascii.eqb c newline then EmptyString :: splitLines s'
      else match splitLines s' with
           | l :: ls => String c l :: ls
           | [] => [String c EmptyString]
           end
  end.

(** [lines.join('\n')]. *)
Definition joinLines (ls : list string) : string := String.concat nl ls.

(** [lines.slice(a, b)]. *)
Definition slice {A} (l : list A) (a b : nat) : list A :=
  firstn (b - a) (skipn a l).

(** Template-literal rendering of a non-negative integer. *)
Definition ofNat (n : nat) : string := NilEmpty.string_of_uint (Nat.to_uint n).

Definition dquote : ascii := "034"%char.
(** The single and the double quote. *)
Definition quotes : string := String "'"%char (String dquote EmptyString).

Definition isSpace (c : ascii) : bool :=
  let n := nat_of_ascii c in
  (n =? 32) || ((9 <=? n) && (n <=? 13)).

Fixpoint trimStart (s : string) : string :=
  match s with
  | String c s' => if isSpace c then trimStart s' else s
  | EmptyString => EmptyString
  end.

Definition rev (s : string) : string :=
  string_of_list_ascii (List.rev (list_ascii_of_string s)).

(** [s.trim()]. *)
Definition trim (s : string) : string := rev (trimStart (rev (trimStart s))).

(** [s.split('/').pop()]: what follows the last slash. *)
Fixpoint afterLastSlash (s : string) : string :=
  match s with
  | EmptyString => EmptyString
  | String c s' =>
      if Ascii.eqb c "/"%char
      then afterLastSlash s'
      else if includes s' "/" then afterLastSlash s' else s
  end.

(** The suffix of [s] from its last dot, when it has one. *)
Fixpoint fromLastDot (s : string) : option string :=
  match s with
  | EmptyString => None
  | String c s' =>
      match fromLastDot s' with
      | Some e => Some e
      | None => if Ascii.eqb c "."%char then Some s else None
      end
  end.

(** Node's [path.extname]: the extension of the last path component, from
    its last dot; empty when there is no dot or the only dot leads the name. *)
Definition extname (p : string) : string :=
  let base := afterLastSlash p in
  match base with
  | EmptyString => EmptyString
  | String _ tail =>
      if String.eqb base ".." then EmptyString
      else match fromLastDot tail with
           | Some e => e
           | None => EmptyString
           end
  end.

End JsString.

(* ================================================================== *)
(** * JavaScript numbers *)
(* ================================================================== *)

(** The arithmetic the two services use.  [nlit n d] is the decimal literal
    [n/d]; [ntruthy] is [ToBoolean] (false on [0], [-0] and [NaN]). *)
Class JsNum (num : Type) : Type := {
  nlit : Z -> positive -> num;
  nadd : num -> num -> num;
  nsub : num -> num -> num;
  nmul : num -> num -> num;
  ndiv : num -> num -> num;
  ngtb : num -> num -> bool;
  ntruthy : num -> bool;
  nabs : num -> num;
  nmin : num -> num -> num;
  nmax : num -> num -> num
}.

(** [Math.sqrt]. *)
Class JsMath (num : Type) : Type := {
  nsqrt : num -> num
}.

Declare Scope js_scope.
Delimit Scope js_scope with js.
Infix ".+" := nadd (at level 50, left associativity) : js_scope.
Infix ".-" := nsub (at level 50, left associativity) : js_scope.
Infix ".*" := nmul (at level 40, left associativity) : js_scope.
Infix "./" := ndiv (at level 40, left associativity) : js_scope.
Infix ".>" := ngtb (at level 65, no associativity) : js_scope.

(** [x || 0] on numbers. *)
Definition orZero {num} `{JsNum num} (x : num) : num :=
  if ntruthy x then x else nlit 0 1.

(** ** IEEE binary64 *)

Module Float64.

Local Open Scope float_scope.

Definition ofZ (z : Z) : float :=
  match z with
  | Z0 => 0
  | Zpos p => PrimFloat.of_uint63 (Uint63.of_Z (Zpos p))
  | Zneg p => - PrimFloat.of_uint63 (Uint63.of_Z (Zpos p))
  end.

(** A decimal literal denotes the double nearest to its value, which is what
    the correctly rounded quotient of two exactly represented integers is. *)
Definition literal (n : Z) (d : positive) : float := ofZ n / ofZ (Zpos d).

Definition isNegZero (x : float) : bool :=
  match PrimFloat.classify x with NZero => true | _ => false end.

(** [Math.min]: NaN when an argument is, and [-0] below [+0]. *)
Definition mathMin (a b : float) : float :=
  if PrimFloat.is_nan a || PrimFloat.is_nan b then nan
  else if a <? b then a
  else if b <? a then b
  else if isNegZero a then a else b.

(** [Math.max]: NaN when an argument is, and [+0] above [-0]. *)
Definition mathMax (a b : float) : float :=
  if PrimFloat.is_nan a || PrimFloat.is_nan b then nan
  else if a <? b then b
  else if b <? a then a
  else if isNegZero a then b else a.

Definition toBoolean (x : float) : bool :=
  negb (PrimFloat.is_nan x || (x =? 0)).

#[export] Instance num : JsNum float := {
  nlit := literal;
  nadd := PrimFloat.add;
  nsub := PrimFloat.sub;
  nmul := PrimFloat.mul;
  ndiv := PrimFloat.div;
  ngtb := fun a b => b <? a;
  ntruthy := toBoolean;
  nabs := PrimFloat.abs;
  nmin := mathMin;
  nmax := mathMax
}.

#[export] Instance math : JsMath float := {
  nsqrt := PrimFloat.sqrt
}.

End Float64.

(** ** Exact rationals: the same operations without rounding or NaN *)

Module Exact.

#[export] Instance num : JsNum Q := {
  nlit := fun n d => Qmake n d;
  nadd := Qplus;
  nsub := Qminus;
  nmul := Qmult;
  ndiv := Qdiv;
  ngtb := fun a b => negb (Qle_bool a b);
  ntruthy := fun x => negb (Qeq_bool x 0);
  nabs := Qabs;
  nmin := Qmin;
  nmax := Qmax
}.

End Exact.

(** The order laws the ranking needs of the numbers it compares, those in
    [ok]: the sign of a difference agrees with the comparison, and the
    comparison is a strict weak order.  Exact rationals obey them
    throughout; doubles obey them above a positive number, and not on
    NaN. *)
Class OrderedOn {num : Type} `{JsNum num} (ok : num -> Prop) : Prop := {
  sub_positive : forall a b : num,
    ok a -> ok b -> ngtb (nsub b a) (nlit 0 1) = ngtb b a;
  gt_asym : forall a b : num,
    ok a -> ok b -> ngtb a b = true -> ngtb b a = false;
  le_trans : forall a b c : num,
    ok a -> ok b -> ok c -> ngtb a b = false -> ngtb b c = false -> ngtb a c = false
}.

(* ================================================================== *)
(** * Cosine similarity *)
(* ================================================================== *)

Section Cosine.
Context {num : Type} `{JsNum num} `{JsMath num}.
Local Open Scope js_scope.

(** The accumulators of the [for] loop: [dotProduct], [normA], [normB]. *)
Definition cosineStep (acc : num * num * num) (ab : num * num) : num * num * num :=
  let '(dotProduct, normA, normB) := acc in
  let '(ai, bi) := ab in
  (dotProduct .+ ai .* bi, normA .+ ai .* ai, normB .+ bi .* bi).

(** [cosineSimilarity(a, b)], the same text in both services. *)
Definition cosineSimilarity (a b : list num) : num :=
  if negb (List.length a =? List.length b)%nat then nlit 0 1
  else
    let '(dotProduct, normA, normB) :=
      fold_left cosineStep (combine a b) (nlit 0 1, nlit 0 1, nlit 0 1) in
    dotProduct ./ (nsqrt normA .* nsqrt normB).

(** The specification's words: [dot(a, b)] and the norm of [a]. *)
Definition dot (a b : list num) : num :=
  fold_left (fun s (ab : num * num) => s .+ fst ab .* snd ab) (combine a b) (nlit 0 1).

Definition norm (a : list num) : num := nsqrt (dot a a).

End Cosine.

(* ================================================================== *)
(** * Regular expressions *)
(* ================================================================== *)

(** A backtracking matcher with JavaScript's priorities (leftmost start,
    alternatives in order, greedy or lazy repetition), enough for the
    patterns of the two services.  Flags are folded into the pattern: [i]
    into the character tests, [s] into the test of [.], [m] into [Bol] and
    [Eol]. *)
Module Regex.

Inductive regex : Type :=
| Eps
| Chr (p : ascii -> bool)
| Seq (r1 r2 : regex)
| Alt (r1 r2 : regex)
| Star (greedy : bool) (r : regex)
| Group (n : nat) (r : regex)
| Bol
| Eol.

(** Where the matcher stands: offset, the character before it, the input
    that is left, and the spans captured so far. *)
Record cursor : Type := {
  pos : nat;
  prev : option ascii;
  rest : list ascii;
  caps : list (nat * (nat * nat))
}.

Definition isLineTerminator (c : ascii) : bool :=
  let n := nat_of_ascii c in (n =? 10) || (n =? 13).

Definition advance (c : ascii) (tl : list ascii) (st : cursor) : cursor :=
  {| pos := S (pos st); prev := Some c; rest := tl; caps := caps st |}.

Definition capture (n from : nat) (st : cursor) : cursor :=
  {| pos := pos st; prev := prev st; rest := rest st;
     caps := (n, (from, pos st)) :: caps st |}.

(** [run r st k]: match [r] at [st], then continue with [k]; the first
    success in priority order wins.  An iteration of a repetition that
    consumes nothing is rejected, as in ECMAScript. *)
Fixpoint run (r : regex) (st : cursor) (k : cursor -> option cursor) {struct r}
  : option cursor :=
  match r with
  | Eps => k st
  | Chr p =>
      match rest st with
      | c :: tl => if p c then k (advance c tl st) else None
      | [] => None
      end
  | Seq r1 r2 => run r1 st (fun st1 => run r2 st1 k)
  | Alt r1 r2 =>
      match run r1 st k with
      | Some e => Some e
      | None => run r2 st k
      end
  | Star greedy r1 =>
      (fix loop (fuel : nat) (st0 : cursor) {struct fuel} : option cursor :=
         match fuel with
         | 0 => k st0
         | S fuel' =>
             let again := fun _ : unit =>
               run r1 st0 (fun st1 =>
                 if pos st1 =? pos st0 then None else loop fuel' st1) in
             if greedy then
               match again tt with
               | Some e => Some e
               | None => k st0
               end
             else
               match k st0 with
               | Some e => Some e
               | None => again tt
               end
         end) (S (List.length (rest st))) st
  | Group n r1 => run r1 st (fun st1 => k (capture n (pos st) st1))
  | Bol =>
      match prev st with
      | None => k st
      | Some c => if isLineTerminator c then k st else None
      end
  | Eol =>
      match rest st with
      | [] => k st
      | c :: _ => if isLineTerminator c then k st else None
      end
  end.

(** What [exec] returns: [index], the offset after the match (the new
    [lastIndex]) and the captured spans. *)
Record result : Type := {
  index : nat;
  stop : nat;
  spans : list (nat * (nat * nat))
}.

Fixpoint scanFrom (r : regex) (lastIndex at_ : nat) (before : option ascii)
  (input : list ascii) : option result :=
  let here :=
    if lastIndex <=? at_
    then run r {| pos := at_; prev := before; rest := input; caps := [] |} Some
    else None in
  match here with
  | Some e => Some {| index := at_; stop := pos e; spans := caps e |}
  | None =>
      match input with
      | [] => None
      | c :: tl => scanFrom r lastIndex (S at_) (Some c) tl
      end
  end.

(** [pattern.exec(s)] of a global pattern whose [lastIndex] is [lastIndex]. *)
Definition exec (r : regex) (s : string) (lastIndex : nat) : option result :=
  scanFrom r lastIndex 0 None (list_ascii_of_string s).

(** [match[0]]. *)
Definition matched (s : string) (m : result) : string :=
  JsString.substring s (index m) (stop m).

Fixpoint lookupSpan (n : nat) (l : list (nat * (nat * nat))) : option (nat * nat) :=
  match l with
  | [] => None
  | (g, sp) :: tl => if g =? n then Some sp else lookupSpan n tl
  end.

(** [match[n]]: the last span group [n] captured, [undefined] when none. *)
Definition group (s : string) (m : result) (n : nat) : option string :=
  match lookupSpan n (spans m) with
  | Some (a, b) => Some (JsString.substring s a b)
  | None => None
  end.

(** The matches a [while ((match = pattern.exec(s)) !== null)] loop visits.
    No pattern below matches the empty string, so every round advances
    [lastIndex] and the loop ends within [length s] rounds. *)
Fixpoint execLoop (fuel : nat) (r : regex) (s : string) (lastIndex : nat) : list result :=
  match fuel with
  | 0 => []
  | S fuel' =>
      match exec r s lastIndex with
      | None => []
      | Some m => m :: execLoop fuel' r s (stop m)
      end
  end.

Definition execAll (r : regex) (s : string) : list result :=
  execLoop (S (String.length s)) r s 0.

(** ** Pattern builders *)

Definition chr (c : ascii) : regex := Chr (Ascii.eqb c).
Definition chrCI (c : ascii) : regex :=
  Chr (fun x => Ascii.eqb (JsString.lowerChar x) (JsString.lowerChar c)).

Fixpoint lit (s : string) : regex :=
  match s with
  | EmptyString => Eps
  | String c EmptyString => chr c
  | String c s' => Seq (chr c) (lit s')
  end.

Fixpoint litCI (s : string) : regex :=
  match s with
  | EmptyString => Eps
  | String c EmptyString => chrCI c
  | String c s' => Seq (chrCI c) (litCI s')
  end.

Fixpoint seqs (rs : list regex) : regex :=
  match rs with
  | [] => Eps
  | [r] => r
  | r :: tl => Seq r (seqs tl)
  end.

Fixpoint alts (rs : list regex) : regex :=
  match rs with
  | [] => Chr (fun _ => false)
  | [r] => r
  | r :: tl => Alt r (alts tl)
  end.

Definition star (r : regex) : regex := Star true r.
Definition lazyStar (r : regex) : regex := Star false r.
Definition plus (r : regex) : regex := Seq r (Star true r).
Definition opt (r : regex) : regex := Alt r Eps.

(** [r{1,n}], greedy. *)
Fixpoint upTo (n : nat) (r : regex) : regex :=
  match n with
  | 0 => Eps
  | 1 => r
  | S n' => Seq r (opt (upTo n' r))
  end.

Definition memChar (c : ascii) (s : string) : bool :=
  existsb (Ascii.eqb c) (list_ascii_of_string s).

Definition oneOf (s : string) : regex := Chr (fun c => memChar c s).
Definition noneOf (s : string) : regex := Chr (fun c => negb (memChar c s)).

Definition between (lo hi : nat) (c : ascii) : bool :=
  let n := nat_of_ascii c in (lo <=? n) && (n <=? hi).

Definition isDigit (c : ascii) : bool := between 48 57 c.
Definition isLetter (c : ascii) : bool := between 65 90 c || between 97 122 c.
(** [\w] *)
Definition isWord (c : ascii) : bool := isLetter c || isDigit c || Ascii.eqb c "_"%char.

Definition word : regex := Chr isWord.
Definition space : regex := Chr JsString.isSpace.
(** [.] without the [s] flag, and with it. *)
Definition dot : regex := Chr (fun c => negb (isLineTerminator c)).
Definition dotAll : regex := Chr (fun _ => true).

End Regex.

(* ================================================================== *)
(** * The chunker of [AdvancedCodebaseIndex] *)
(* ================================================================== *)

Module Chunker.
Import JsString.

(** [Symbol.location]. *)
Record SymbolLocation : Type := {
  line : nat;
  column : nat;
  endLine : nat;
  endColumn : nat
}.

(** [interface Symbol].  The kind is the string the code writes. *)
Record Symbol : Type := {
  symName : string;
  symType : string;
  symLocation : SymbolLocation;
  symContext : string;
  symFile : string;
  symLanguage : string
}.

(** [interface Chunk]; the optional [embedding] is never set by a parser. *)
Record Chunk : Type := {
  id : string;
  content : string;
  chunkType : string;
  symbols : list Symbol;
  startLine : nat;
  chunkEndLine : nat;
  file : string;
  language : string
}.

Definition langMap : list (string * string) :=
  [ (".html", "html"); (".htm", "html");
    (".js", "javascript"); (".jsx", "javascript");
    (".ts", "typescript"); (".tsx", "typescript");
    (".css", "css"); (".scss", "css");
    (".md", "markdown"); (".json", "json");
    (".yml", "yaml"); (".yaml", "yaml") ].

Fixpoint assoc {A} (k : string) (l : list (string * A)) : option A :=
  match l with
  | [] => None
  | (k', v) :: tl => if String.eqb k' k then Some v else assoc k tl
  end.

(** [detectLanguage(filePath)] *)
Definition detectLanguage (filePath : string) : string :=
  let ext := toLowerCase (extname filePath) in
  match assoc ext langMap with
  | Some l => l
  | None => "text"
  end.

(** [`${filePath}:${startLine}-${endLine}:${kind}`] *)
Definition chunkId (filePath : string) (s e : nat) (kind : string) : string :=
  filePath ++ ":" ++ ofNat s ++ "-" ++ ofNat e ++ ":" ++ kind.

(** [content.substring(0, index).split('\n').length] *)
Definition lineAt (content : string) (index : nat) : nat :=
  List.length (splitLines (substring content 0 index)).

(** Line [l] (counted from 1) lies in the range of chunk [c]. *)
Definition covers (l : nat) (c : Chunk) : bool :=
  (startLine c <=? l) && (l <=? chunkEndLine c).

(** ** Generic fallback *)

Definition chunkSize : nat := 50.

(** The [for (let i = 0; i < lines.length; i += chunkSize)] loop from [i]
    on; [fuel] bounds the rounds. *)
Fixpoint genericLoop (fuel : nat) (filePath : string) (lines : list string) (i : nat)
  : list Chunk :=
  match fuel with
  | 0 => []
  | S fuel' =>
      if i <? List.length lines then
        let endLine := Nat.min (i + chunkSize) (List.length lines) in
        let chunkContent := joinLines (slice lines i endLine) in
        {| id := chunkId filePath (i + 1) endLine "block";
           content := chunkContent;
           chunkType := "block";
           symbols := [];
           startLine := i + 1;
           chunkEndLine := endLine;
           file := filePath;
           language := detectLanguage filePath |}
        :: genericLoop fuel' filePath lines (i + chunkSize)
      else []
  end.

(** What one window of the fallback chunker looks like, for a file of
    [lines], when the loop stands at index [i]. *)
Definition window (lines : list string) (i : nat) (c : Chunk) : Prop :=
  i < startLine c
  /\ startLine c <= chunkEndLine c <= List.length lines
  /\ chunkEndLine c < startLine c + chunkSize
  /\ (chunkEndLine c = List.length lines \/ chunkEndLine c + 1 = startLine c + chunkSize)
  /\ symbols c = []
  /\ chunkType c = "block"
  /\ content c = joinLines (slice lines (startLine c - 1) (chunkEndLine c)).

(** [parseGenericChunks(content, filePath, lines)] *)
Definition parseGenericChunks (content filePath : string) (lines : list string)
  : list Chunk :=
  genericLoop (List.length lines) filePath lines 0.

(** ** HTML *)

Import Regex.

(** [/<tag[^>]*>(.*?)<\/tag>/gis] *)
Definition element (open close : regex) : regex :=
  seqs [chr "<"; open; star (noneOf ">"); chr ">";
        Group 1 (lazyStar dotAll);
        chr "<"; chr "/"; close; chr ">"].

Definition heading : regex := Seq (chrCI "h") (Chr (between 49 54)).

(** [elementPatterns]: pattern, chunk kind, symbol kind. *)
Definition elementPatterns : list (regex * string * string) :=
  [ (element (litCI "title") (litCI "title"), "element", "element");
    (element heading heading, "element", "element");
    (element (litCI "header") (litCI "header"), "element", "element");
    (element (litCI "nav") (litCI "nav"), "element", "element");
    (element (litCI "script") (litCI "script"), "block", "function") ].

Definition isEmpty (s : string) : bool :=
  match s with EmptyString => true | _ => false end.

Definition htmlChunk (content filePath kind symbolType : string) (m : result) : Chunk :=
  let matchContent := matched content m in
  let innerText := match group content m 1 with
                   | Some g => trim g
                   | None => ""
                   end in
  let startLine := lineAt content (index m) in
  let endLine := startLine + List.length (splitLines matchContent) - 1 in
  let symbols :=
    if isEmpty innerText then []
    else [ {| symName := substring innerText 0 50;
              symType := symbolType;
              symLocation := {| line := startLine; column := 0;
                                endLine := endLine; endColumn := 0 |};
              symContext := matchContent;
              symFile := filePath;
              symLanguage := "html" |} ] in
  {| id := chunkId filePath startLine endLine kind;
     content := matchContent;
     chunkType := kind;
     symbols := symbols;
     startLine := startLine;
     chunkEndLine := endLine;
     file := filePath;
     language := "html" |}.

(** [parseHTMLChunks(content, filePath, lines)] *)
Definition parseHTMLChunks (content filePath : string) (lines : list string)
  : list Chunk :=
  let chunks :=
    flat_map (fun '(pattern, kind, symbolType) =>
                map (htmlChunk content filePath kind symbolType)
                    (execAll pattern content))
             elementPatterns in
  match chunks with
  | [] => parseGenericChunks content filePath lines
  | _ => chunks
  end.

(** ** JavaScript and TypeScript *)

(** [patterns]: pattern and symbol kind. *)
Definition jsPatterns : list (regex * string) :=
  [ (* /function\s+(\w+)\s*\([^)]*\)\s*\{/g *)
    (seqs [lit "function"; plus space; Group 1 (plus word); star space;
           chr "("; star (noneOf ")"); chr ")"; star space; chr "{"],
     "function");
    (* /class\s+(\w+)(?:\s+extends\s+\w+)?\s*\{/g *)
    (seqs [lit "class"; plus space; Group 1 (plus word);
           opt (seqs [plus space; lit "extends"; plus space; plus word]);
           star space; chr "{"],
     "class");
    (* /const\s+(\w+)\s*=/g *)
    (seqs [lit "const"; plus space; Group 1 (plus word); star space; chr "="],
     "variable");
    (* /import.*from\s+[q][^q]+[q]/g, q the two quote characters *)
    (seqs [lit "import"; star dot; lit "from"; plus space;
           oneOf quotes; plus (noneOf quotes); oneOf quotes],
     "import") ].

Definition jsChunk (content filePath : string) (lines : list string)
  (kind : string) (m : result) : Chunk :=
  let startLine := lineAt content (index m) in
  let symbol := match group content m 1 with
                | Some g => if isEmpty g then matched content m else g
                | None => matched content m
                end in
  let endLine := startLine + 10 in
  let chunkContent := joinLines (slice lines (startLine - 1) endLine) in
  {| id := chunkId filePath startLine endLine kind;
     content := chunkContent;
     chunkType := "symbol";
     symbols := [ {| symName := symbol;
                     symType := kind;
                     symLocation := {| line := startLine;
                                       column := jsLength (substring content 0 (index m));
                                       endLine := endLine; endColumn := 0 |};
                     symContext := chunkContent;
                     symFile := filePath;
                     symLanguage := "javascript" |} ];
     startLine := startLine;
     chunkEndLine := endLine;
     file := filePath;
     language := "javascript" |}.

(** [parseJSChunks(content, filePath, lines)] *)
Definition parseJSChunks (content filePath : string) (lines : list string)
  : list Chunk :=
  let chunks :=
    flat_map (fun '(pattern, kind) =>
                map (jsChunk content filePath lines kind) (execAll pattern content))
             jsPatterns in
  match chunks with
  | [] => parseGenericChunks content filePath lines
  | _ => chunks
  end.

(** ** Markdown *)

(** [/^#{1,6}\s+(.+)$/gm] *)
Definition headerPattern : regex :=
  seqs [Bol; upTo 6 (chr "#"); plus space; Group 1 (plus dot); Eol].

Definition markdownChunk (content filePath : string) (m : result) (endPos : nat) : Chunk :=
  let startLine := lineAt content (index m) in
  let headerText := match group content m 1 with Some g => g | None => "" end in
  let sectionContent := substring content (index m) endPos in
  let endLine := startLine + List.length (splitLines sectionContent) - 1 in
  {| id := chunkId filePath startLine endLine "section";
     content := sectionContent;
     chunkType := "block";
     symbols := [ {| symName := headerText;
                     symType := "element";
                     symLocation := {| line := startLine; column := 0;
                                       endLine := startLine;
                                       endColumn := jsLength headerText |};
                     symContext := substring sectionContent 0 200;
                     symFile := filePath;
                     symLanguage := "markdown" |} ];
     startLine := startLine;
     chunkEndLine := endLine;
     file := filePath;
     language := "markdown" |}.

(** The [while] loop of [parseMarkdownChunks] from [lastIndex] on: a match,
    a look-ahead [exec] for where the section ends, then [lastIndex] set
    back to the end of the match. *)
Fixpoint markdownLoop (fuel : nat) (content filePath : string) (lastIndex : nat)
  : list Chunk :=
  match fuel with
  | 0 => []
  | S fuel' =>
      match exec headerPattern content lastIndex with
      | None => []
      | Some m =>
          let endPos := match exec headerPattern content (stop m) with
                        | Some nextMatch => index nextMatch
                        | None => String.length content
                        end in
          markdownChunk content filePath m endPos
          :: markdownLoop fuel' content filePath (stop m)
      end
  end.

(** [parseMarkdownChunks(content, filePath, lines)] *)
Definition parseMarkdownChunks (content filePath : string) (lines : list string)
  : list Chunk :=
  match markdownLoop (S (String.length content)) content filePath 0 with
  | [] => parseGenericChunks content filePath lines
  | chunks => chunks
  end.

(** [parseFileIntoChunks(content, filePath, language)] *)
Definition parseFileIntoChunks (content filePath language : string) : list Chunk :=
  let lines := splitLines content in
  if String.eqb language "html" then
    parseHTMLChunks content filePath lines
  else if String.eqb language "javascript" || String.eqb language "typescript" then
    parseJSChunks content filePath lines
  else if String.eqb language "markdown" then
    parseMarkdownChunks content filePath lines
  else
    parseGenericChunks content filePath lines.

End Chunker.

(* ================================================================== *)
(** * Effects: errors, the database and injected failures *)
(* ================================================================== *)

Module Effects.

(** What a call can throw. *)
Inductive Error : Type :=
| SourceUnavailable   (* git clone, git rev-parse or git log failed *)
| StorageFailure      (* a SQLite statement failed: I/O or a constraint *)
| FileUnreadable      (* readFileSync threw *)
| CleanupFailure.     (* rm -rf of the temporary directory failed *)

(** The state a call runs in: the database, when the next database
    statement is going to fail with an I/O error ([Some n]: after [n] more
    statements; [None]: never), and the temporary directory. *)
Record World (DB : Type) : Type := {
  db : DB;
  faultIn : option nat;
  tempDir : bool   (* the temporary clone directory exists *)
}.

(** A computation that reads and writes the world and may throw.  What was
    written before a throw stays written. *)
Definition M (DB A : Type) : Type := World DB -> (Error + A) * World DB.

Section Ops.
Context {DB : Type}.

Definition ret {A} (a : A) : M DB A := fun w => (inr a, w).

Definition bind {A B} (m : M DB A) (k : A -> M DB B) : M DB B :=
  fun w =>
    match m w with
    | (inr a, w') => k a w'
    | (inl e, w') => (inl e, w')
    end.

Definition throw {A} (e : Error) : M DB A := fun w => (inl e, w).

(** [try { m } catch (error) { h error }] *)
Definition tryCatch {A} (m : M DB A) (h : Error -> M DB A) : M DB A :=
  fun w =>
    match m w with
    | (inr a, w') => (inr a, w')
    | (inl e, w') => h e w'
    end.

(** One database statement: [f] is its effect on the tables, [None] when
    the statement violates a constraint.  A failed statement changes
    nothing. *)
Definition stmt {A} (f : DB -> option (A * DB)) : M DB A :=
  fun w =>
    match faultIn w with
    | Some 0 =>
        (inl StorageFailure, {| db := db w; faultIn := None; tempDir := tempDir w |})
    | pending =>
        let later := match pending with Some (S n) => Some n | _ => None end in
        match f (db w) with
        | Some (a, d) =>
            (inr a, {| db := d; faultIn := later; tempDir := tempDir w |})
        | None =>
            (inl StorageFailure, {| db := db w; faultIn := later; tempDir := tempDir w |})
        end
    end.

(** A statement that only reads. *)
Definition query {A} (f : DB -> A) : M DB A := stmt (fun d => Some (f d, d)).

(** A statement that only writes and cannot violate a constraint. *)
Definition update (f : DB -> DB) : M DB unit := stmt (fun d => Some (tt, f d)).

(** An operation outside the database that succeeds with [a] or throws [e]. *)
Definition attempt {A} (e : Error) (r : option A) : M DB A :=
  match r with
  | Some a => ret a
  | None => throw e
  end.

(** [existsSync(tempDir)] *)
Definition existsTempDir : M DB bool := fun w => (inr (tempDir w), w).

Definition setTempDir (b : bool) : M DB unit :=
  fun w => (inr tt, {| db := db w; faultIn := faultIn w; tempDir := b |}).

(** [execSync(`rm -rf "${tempDir}"`)]; [fails] when the command exits
    with an error. *)
Definition removeTempDir (fails : bool) : M DB unit :=
  if fails then throw CleanupFailure else setTempDir false.

(** [if (existsSync(tempDir)) execSync(`rm -rf "${tempDir}"`)] *)
Definition removeTempDirIfThere (fails : bool) : M DB unit :=
  bind existsTempDir (fun there => if there then removeTempDir fails else ret tt).

(** [for (const x of l) { body x }] *)
Fixpoint forEach {A} (l : list A) (body : A -> M DB unit) : M DB unit :=
  match l with
  | [] => ret tt
  | x :: tl => bind (body x) (fun _ => forEach tl body)
  end.

(** ** Computations that keep an observation of the database

    [Keeps obs m]: whatever [m] does and however it ends, [obs] reads the
    same before and after. *)
Definition Keeps {X A} (obs : DB -> X) (m : M DB A) : Prop :=
  forall w r w', m w = (r, w') -> obs (db w') = obs (db w).

(** [KeepsOnFailure obs m]: when [m] throws anything but a cleanup
    failure, [obs] reads the same before and after. *)
Definition KeepsOnFailure {X A} (obs : DB -> X) (m : M DB A) : Prop :=
  forall w e w', m w = (inl e, w') -> e <> CleanupFailure -> obs (db w') = obs (db w).

End Ops.

Declare Scope effect_scope.
Delimit Scope effect_scope with effect.
Notation "x <- m ;; k" := (bind m (fun x => k))
  (at level 61, m at next level, right associativity) : effect_scope.
Notation "m ;; k" := (bind m (fun _ => k))
  (at level 61, right associativity) : effect_scope.

End Effects.

(* ================================================================== *)
(** * What both services share *)
(* ================================================================== *)

Module Common.
Import JsString.

(** A shallow clone of a repository at a branch: the commit [git] reports
    for [HEAD] ([None] when it reports none) and the files of the work
    tree, by path relative to the clone; a file's content is the text
    [readFileSync(path, 'utf-8')] returns, and [None] when reading it
    throws. *)
Record Checkout : Type := {
  head : option string;
  tree : list (string * option string)
}.

(** The embedding pipeline: [None] when the model did not load; the
    function gives [None] when the call throws. *)
Definition EmbeddingModel (num : Type) : Type := option (string -> option (list num)).

(** [! -path "*/dir/*"] under the clone's root. *)
Definition underDirectory (dir path : string) : bool :=
  includes ("/" ++ path) ("/" ++ dir ++ "/").

(** [find ... -type f ( -name "*.e1" -o ... ) ! -path ...]: the files whose
    name ends in one of [extensions], outside the [excluded] directories. *)
Definition findFiles (extensions excluded : list string)
  (files : list (string * option string)) : list (string * option string) :=
  filter (fun f =>
            existsb (endsWith (afterLastSlash (fst f))) extensions
            && negb (existsb (fun d => underDirectory d (fst f)) excluded))
         files.

(** [s.split(/\s+/)]: the pieces between maximal runs of white space,
    empty pieces at the ends included. *)
Fixpoint splitSpaces (skipping : bool) (s : string) : list string :=
  match s with
  | EmptyString => [EmptyString]
  | String c tl =>
      if isSpace c then
        if skipping then splitSpaces true tl
        else EmptyString :: splitSpaces true tl
      else
        match splitSpaces false tl with
        | t :: ts => String c t :: ts
        | [] => [String c EmptyString]
        end
  end.

Definition words (s : string) : list string := splitSpaces false s.

(** [l.join(sep)] *)
Definition join (sep : string) (l : list string) : string := String.concat sep l.

(** A JavaScript [Map] with string keys: entries in insertion order. *)
Definition JsMap (V : Type) : Type := list (string * V).

Fixpoint mapGet {V} (m : JsMap V) (k : string) : option V :=
  match m with
  | [] => None
  | (k', v) :: tl => if String.eqb k' k then Some v else mapGet tl k
  end.

(** [m.set(k, v)]: a known key keeps its place, a new key goes last. *)
Fixpoint mapSet {V} (m : JsMap V) (k : string) (v : V) : JsMap V :=
  match m with
  | [] => [(k, v)]
  | (k', v') :: tl =>
      if String.eqb k' k then (k', v) :: tl else (k', v') :: mapSet tl k v
  end.

Definition mapKeys {V} (m : JsMap V) : list string := map fst m.

Definition memString (k : string) (l : list string) : bool :=
  existsb (String.eqb k) l.

(** [new Set(l)]: the elements of [l] in order of first occurrence. *)
Definition setOf (l : list string) : list string :=
  fold_left (fun seen k => if memString k seen then seen else seen ++ [k]) l [].

(** ** [Array.prototype.sort] *)

Section Sort.
Context {A num : Type} `{JsNum num}.
Variable compareFn : A -> A -> num.

(** [a] goes after [b] when [compareFn(a, b) > 0]. *)
Definition after (a b : A) : bool := ngtb (compareFn a b) (nlit 0 1).

Fixpoint insert (x : A) (l : list A) : list A :=
  match l with
  | [] => [x]
  | y :: tl => if after x y then y :: insert x tl else x :: y :: tl
  end.

(** The sort is stable (ECMAScript 2019): with a consistent comparator its
    result is the one of stable insertion, whatever algorithm the engine
    runs. *)
Fixpoint sort (l : list A) : list A :=
  match l with
  | [] => []
  | x :: tl => insert x (sort tl)
  end.

End Sort.

(** ** Sorting by a descending key *)

Section Keys.
Context {A num : Type} `{JsNum num}.
Variable key : A -> num.

(** [(a, b) => key(b) - key(a)] *)
Definition descending (a b : A) : num := nsub (key b) (key a).

(** [x] may stand before [y]: the key of [y] is not greater. *)
Definition notBelow (x y : A) : Prop := ngtb (key y) (key x) = false.

(** [x] ties with the key value [v]. *)
Definition tiedWith (v : num) (x : A) : bool :=
  negb (ngtb (key x) v) && negb (ngtb v (key x)).

End Keys.

End Common.

(* ================================================================== *)
(** * [AdvancedCodebaseIndex] *)
(* ================================================================== *)

Module Advanced.
Import JsString Common Effects.

(** ** The tables of [advanced-codebase-index.db] *)

Record RepositoryRow : Type := {
  r_id : nat;
  r_name : string;
  r_lastCommitHash : option string;
  r_lastIndexed : option string;
  r_totalChunks : nat
}.

(** What a property of the [termFreq] object holds: a count, or the text
    that [+ 1] makes of the function every object inherits as
    [constructor]. *)
Inductive TermValue : Type :=
| Count (n : nat)
| Text (s : string).

(** [chunks]; [c_embedding] and [c_termFreq] stand for the JSON text of
    the array and of the object. *)
Record ChunkRow (num : Type) : Type := {
  c_id : string;
  c_repositoryId : nat;
  c_filePath : string;
  c_content : string;
  c_chunkType : string;
  c_language : string;
  c_startLine : nat;
  c_endLine : nat;
  c_embedding : list num;
  c_termFreq : JsMap TermValue
}.

Record SymbolRow : Type := {
  s_id : nat;
  s_chunkId : string;
  s_name : string;
  s_symbolType : string;
  s_line : nat;
  s_column : nat;
  s_endLine : nat;
  s_endColumn : nat;
  s_context : string
}.

Record FtsRow : Type := {
  f_id : string;
  f_content : string;
  f_filePath : string;
  f_symbolNames : string
}.

(** The database: rows in insertion order, and the two AUTOINCREMENT
    counters. *)
Record Store (num : Type) : Type := {
  repositories : list RepositoryRow;
  repositorySeq : nat;
  chunks : list (ChunkRow num);
  symbols : list SymbolRow;
  symbolSeq : nat;
  chunks_fts : list FtsRow
}.

(** What the service reaches outside itself. *)
Record Env (num : Type) : Type := {
  (** [git clone --depth 1 --branch b https://github.com/r.git], [None]
      when it fails *)
  clone : string -> string -> option Checkout;
  embeddingModel : EmbeddingModel num;
  (** SQLite FTS5: the rows of [chunks_fts] that [MATCH] the query, each
      with its [bm25] rank, best first; [None] when the query is not a
      match expression *)
  fts5 : list FtsRow -> string -> option (list (FtsRow * num));
  (** [new Date().toISOString()] *)
  now : string;
  (** [execSync] of [find] throws: the command fails, or prints more than
      the buffer holds *)
  findFails : bool;
  (** [rm -rf] fails *)
  rmFails : bool
}.

(** ** SQL [LIKE]: [%] any run, [_] any character, ASCII case folded *)

Fixpoint likeChars (p t : list ascii) {struct p} : bool :=
  match p with
  | [] => match t with [] => true | _ => false end
  | c :: p' =>
      if Ascii.eqb c "%"%char then
        (fix anywhere (u : list ascii) : bool :=
           likeChars p' u
           || match u with
              | [] => false
              | _ :: u' => anywhere u'
              end) t
      else
        match t with
        | [] => false
        | d :: t' =>
            (Ascii.eqb c "_"%char || Ascii.eqb (lowerChar c) (lowerChar d))
            && likeChars p' t'
        end
  end.

Definition like (text pattern : string) : bool :=
  likeChars (list_ascii_of_string pattern) (list_ascii_of_string text).

Section Service.
Context {num : Type} `{JsNum num} `{JsMath num}.
Variable env : Env num.
Local Open Scope effect_scope.
Local Open Scope js_scope.

Local Notation "'Store'" := (Advanced.Store num).
Local Notation "'M'" := (Effects.M (Advanced.Store num)).

(** ** Statements *)

Definition setRepositories (d : Store) (rs : list RepositoryRow) (seq : nat) : Store :=
  {| repositories := rs; repositorySeq := seq; chunks := chunks d;
     symbols := symbols d; symbolSeq := symbolSeq d; chunks_fts := chunks_fts d |}.

Definition setChunks (d : Store) (cs : list (ChunkRow num)) : Store :=
  {| repositories := repositories d; repositorySeq := repositorySeq d; chunks := cs;
     symbols := symbols d; symbolSeq := symbolSeq d; chunks_fts := chunks_fts d |}.

Definition setSymbols (d : Store) (ss : list SymbolRow) (seq : nat) : Store :=
  {| repositories := repositories d; repositorySeq := repositorySeq d; chunks := chunks d;
     symbols := ss; symbolSeq := seq; chunks_fts := chunks_fts d |}.

Definition setFts (d : Store) (fs : list FtsRow) : Store :=
  {| repositories := repositories d; repositorySeq := repositorySeq d; chunks := chunks d;
     symbols := symbols d; symbolSeq := symbolSeq d; chunks_fts := fs |}.

(** [SELECT id FROM repositories WHERE name = ?] *)
Definition selectRepository (name : string) (d : Store) : option RepositoryRow :=
  find (fun r => String.eqb (r_name r) name) (repositories d).

(** The commit identifier the repository record of [name] holds, if any. *)
Definition storedCommit (name : string) (d : Store) : option string :=
  match selectRepository name d with
  | Some r => r_lastCommitHash r
  | None => None
  end.

(** [INSERT INTO repositories (name) VALUES (?)]; [name] is UNIQUE. *)
Definition insertRepository (name : string) (d : Store) : option (nat * Store) :=
  match selectRepository name d with
  | Some _ => None
  | None =>
      let newId := S (repositorySeq d) in
      Some (newId,
            setRepositories d
              (repositories d ++
                 [ {| r_id := newId; r_name := name; r_lastCommitHash := None;
                      r_lastIndexed := None; r_totalChunks := 0 |} ])
              newId)
  end.

(** [DELETE FROM chunks WHERE repositoryId = ?] *)
Definition deleteChunks (repoId : nat) (d : Store) : Store :=
  setChunks d (filter (fun c => negb (c_repositoryId c =? repoId)) (chunks d)).

(** [SELECT id FROM chunks WHERE repositoryId = ?] *)
Definition chunkIdsOf (repoId : nat) (d : Store) : list string :=
  map (@c_id num) (filter (fun c => c_repositoryId c =? repoId) (chunks d)).

(** [DELETE FROM symbols WHERE chunkId IN
     (SELECT id FROM chunks WHERE repositoryId = ?)] *)
Definition deleteSymbols (repoId : nat) (d : Store) : Store :=
  setSymbols d
    (filter (fun s => negb (memString (s_chunkId s) (chunkIdsOf repoId d))) (symbols d))
    (symbolSeq d).

(** [DELETE FROM chunks_fts WHERE rowid IN
     (SELECT rowid FROM chunks_fts WHERE id LIKE ?)] *)
Definition deleteFts (pattern : string) (d : Store) : Store :=
  setFts d (filter (fun f => negb (like (f_id f) pattern)) (chunks_fts d)).

(** [INSERT INTO chunks (...)]; [id] is the PRIMARY KEY. *)
Definition insertChunk (row : ChunkRow num) (d : Store) : option (unit * Store) :=
  if memString (c_id row) (map (@c_id num) (chunks d)) then None
  else Some (tt, setChunks d (chunks d ++ [row])).

(** [INSERT INTO symbols (...)] *)
Definition insertSymbol (chunkId : string) (s : Chunker.Symbol) (d : Store) : Store :=
  let newId := S (symbolSeq d) in
  setSymbols d
    (symbols d ++
       [ {| s_id := newId; s_chunkId := chunkId;
            s_name := Chunker.symName s; s_symbolType := Chunker.symType s;
            s_line := Chunker.line (Chunker.symLocation s);
            s_column := Chunker.column (Chunker.symLocation s);
            s_endLine := Chunker.endLine (Chunker.symLocation s);
            s_endColumn := Chunker.endColumn (Chunker.symLocation s);
            s_context := Chunker.symContext s |} ])
    newId.

(** [INSERT INTO chunks_fts (...)] *)
Definition insertFts (row : FtsRow) (d : Store) : Store :=
  setFts d (chunks_fts d ++ [row]).

(** [UPDATE repositories SET lastCommitHash = ?, lastIndexed = ?,
     totalChunks = ? WHERE id = ?] *)
Definition updateRepository (repoId : nat) (hash stamp : string) (total : nat)
  (d : Store) : Store :=
  setRepositories d
    (map (fun r =>
            if r_id r =? repoId
            then {| r_id := r_id r; r_name := r_name r;
                    r_lastCommitHash := Some hash; r_lastIndexed := Some stamp;
                    r_totalChunks := total |}
            else r)
         (repositories d))
    (repositorySeq d).

(** ** Helpers *)

(** [initialize()]: opens the database and creates the tables that do not
    exist yet; with the schema in place no table changes. *)
Definition initialize : M unit := query (fun _ => tt).

(** [getOrCreateRepository(name)] *)
Definition getOrCreateRepository (name : string) : M nat :=
  existing <- query (selectRepository name) ;;
  match existing with
  | Some r => ret (r_id r)
  | None => stmt (insertRepository name)
  end.

(** The record [getOrCreateRepository] inserts for a name it does not find. *)
Definition created (repoName : string) (d : Store) : Store :=
  setRepositories d
    (repositories d ++
       [ {| r_id := S (repositorySeq d); r_name := repoName; r_lastCommitHash := None;
            r_lastIndexed := None; r_totalChunks := 0 |} ])
    (S (repositorySeq d)).

(** [findRelevantFiles(repoPath)]: the files [find] prints, and the empty
    array when it throws. *)
Definition findRelevantFiles (files : list (string * option string))
  : list (string * option string) :=
  if findFails env then []
  else
    findFiles [".html"; ".htm"; ".css"; ".scss"; ".js"; ".jsx"; ".ts"; ".tsx";
               ".json"; ".md"; ".yml"; ".yaml"]
              ["node_modules"; ".next"; "dist"; "build"; ".git"]
              files.

(** [generateEmbedding(text)] *)
Definition generateEmbedding (text : string) : list num :=
  match embeddingModel env with
  | None => []
  | Some model =>
      match model (substring text 0 512) with
      | Some v => v
      | None => []
      end
  end.

(** [.replace(/[^\w\s]/g, ' ')] *)
Fixpoint blankPunctuation (s : string) : string :=
  match s with
  | EmptyString => EmptyString
  | String c tl =>
      String (if Regex.isWord c || isSpace c then c else " "%char) (blankPunctuation tl)
  end.

(** An array index: the decimal numeral, without a leading zero, of an
    integer below [2^32 - 1]. *)
Definition arrayIndex (k : string) : option N :=
  let digits := list_ascii_of_string k in
  match digits with
  | [] => None
  | c :: tl =>
      if negb (forallb Regex.isDigit digits) then None
      else if Ascii.eqb c "0"%char && negb (Chunker.isEmpty (string_of_list_ascii tl))
      then None
      else
        let n := fold_left (fun n d => (n * 10 + N.of_nat (nat_of_ascii d - 48))%N)
                           digits 0%N in
        if (n <? 4294967295)%N then Some n else None
  end.

(** A new property whose key is the array index [i]: the array indices
    come first among the own properties of an object, in ascending
    order. *)
Fixpoint addIndexed (i : N) (k : string) (v : TermValue) (o : JsMap TermValue)
  : JsMap TermValue :=
  match o with
  | [] => [(k, v)]
  | (k', v') :: tl =>
      match arrayIndex k' with
      | Some j => if (j <? i)%N then (k', v') :: addIndexed i k v tl else (k, v) :: o
      | None => (k, v) :: o
      end
  end.

(** [o[k] = v] on a plain object, kept as its own properties in the order
    [JSON.stringify] lists them: a known key keeps its place, a new array
    index goes among the array indices, any other new key goes last. *)
Definition objectSet (o : JsMap TermValue) (k : string) (v : TermValue)
  : JsMap TermValue :=
  match arrayIndex k, mapGet o k with
  | Some i, None => addIndexed i k v o
  | _, _ => mapSet o k v
  end.

(** What [String(Object)] is in V8. *)
Definition constructorText : string := "function Object() { [native code] }".

(** [freq[term] = (freq[term] || 0) + 1].  A term that is not yet a
    property is read from [Object.prototype]: [constructor] is a function
    there, and [+ 1] appends to its text; [__proto__] is the prototype
    itself, and assigning the text to it is ignored. *)
Definition countTerm (freq : JsMap TermValue) (term : string) : JsMap TermValue :=
  match mapGet freq term with
  | Some (Count n) => objectSet freq term (Count (n + 1))
  | Some (Text s) => objectSet freq term (Text (s ++ "1"))
  | None =>
      if String.eqb term "constructor"
      then objectSet freq term (Text (constructorText ++ "1"))
      else if String.eqb term "__proto__" then freq
      else objectSet freq term (Count 1)
  end.

(** [calculateTermFrequencies(content)] *)
Definition calculateTermFrequencies (content : string) : JsMap TermValue :=
  let terms := filter (fun term => 2 <? jsLength term)
                      (words (blankPunctuation (toLowerCase content))) in
  fold_left countTerm terms [].

(** ** [indexRepository] *)

(** The body of [for (const chunk of chunks)]. *)
Definition storeChunk (repoId : nat) (relativePath language : string)
  (chunk : Chunker.Chunk) : M unit :=
  let embedding := generateEmbedding (Chunker.content chunk) in
  let termFreq := calculateTermFrequencies (Chunker.content chunk) in
  stmt (insertChunk
          {| c_id := Chunker.id chunk; c_repositoryId := repoId;
             c_filePath := relativePath; c_content := Chunker.content chunk;
             c_chunkType := Chunker.chunkType chunk; c_language := language;
             c_startLine := Chunker.startLine chunk;
             c_endLine := Chunker.chunkEndLine chunk;
             c_embedding := embedding; c_termFreq := termFreq |}) ;;
  forEach (Chunker.symbols chunk)
          (fun symbol => update (insertSymbol (Chunker.id chunk) symbol)) ;;
  let symbolNames := join " " (map Chunker.symName (Chunker.symbols chunk)) in
  update (insertFts {| f_id := Chunker.id chunk; f_content := Chunker.content chunk;
                       f_filePath := relativePath; f_symbolNames := symbolNames |}).

(** The body of [for (const filePath of files)]; the result is how many
    chunks it stored ([totalChunks++]). *)
Definition indexFile (repoId : nat) (file : string * option string) : M nat :=
  let relativePath := fst file in
  let language := Chunker.detectLanguage relativePath in
  content <- attempt FileUnreadable (snd file) ;;
  let chunks := Chunker.parseFileIntoChunks content relativePath language in
  forEach chunks (storeChunk repoId relativePath language) ;;
  ret (List.length chunks).

Fixpoint indexFiles (repoId : nat) (files : list (string * option string))
  (totalChunks : nat) : M nat :=
  match files with
  | [] => ret totalChunks
  | file :: tl =>
      n <- indexFile repoId file ;;
      indexFiles repoId tl (totalChunks + n)
  end.

(** The [try] block of [indexRepository]. *)
Definition indexPass (repoName branch : string) : M unit :=
  removeTempDirIfThere (rmFails env) ;;
  checkout <- attempt SourceUnavailable (clone env repoName branch) ;;
  setTempDir true ;;
  currentHash <- attempt SourceUnavailable (option_map trim (head checkout)) ;;
  repoId <- getOrCreateRepository repoName ;;
  update (deleteChunks repoId) ;;
  update (deleteSymbols repoId) ;;
  update (deleteFts (repoName ++ ":%")) ;;
  let files := findRelevantFiles (tree checkout) in
  totalChunks <- indexFiles repoId files 0 ;;
  update (updateRepository repoId currentHash (now env) totalChunks) ;;
  removeTempDir (rmFails env).

(** [indexRepository(repoName, branch)] *)
Definition indexRepository (repoName branch : string) : M unit :=
  initialize ;;
  tryCatch (indexPass repoName branch)
           (fun error => removeTempDirIfThere (rmFails env) ;; throw error).

(** ** The read path *)

(** [interface BM25Score] *)
Record BM25Score : Type := {
  score : num;
  termMatches : list string
}.

(** An object typed [Chunk] as it is at run time: each property of the
    interface is there or not. *)
Record ChunkObject : Type := {
  o_id : option string;
  o_content : option string;
  o_type : option string;
  o_symbols : option (list Chunker.Symbol);
  o_location : option (nat * nat);
  o_file : option string;
  o_language : option string;
  o_embedding : option (list num)
}.

(** [{}] *)
Definition emptyObject : ChunkObject :=
  {| o_id := None; o_content := None; o_type := None; o_symbols := None;
     o_location := None; o_file := None; o_language := None; o_embedding := None |}.

(** [interface SearchResult] *)
Record SearchResult : Type := {
  chunk : ChunkObject;
  lexicalScore : num;
  vectorScore : num;
  structuralScore : num;
  fusedScore : num;
  reason : string
}.

(** The rows of the [SELECT ... FROM chunks_fts JOIN chunks ... WHERE
    chunks.repositoryId = ? AND chunks_fts MATCH ? ORDER BY bm25(chunks_fts)
    LIMIT 50] of [lexicalSearch]. *)
Definition selectLexical (repoId : nat) (query : string) (d : Store)
  : option (list (ChunkRow num * num)) :=
  match fts5 env (chunks_fts d) query with
  | None => None
  | Some hits =>
      Some (firstn 50
              (flat_map (fun hit : FtsRow * num =>
                           map (fun c => (c, snd hit))
                               (filter (fun c => String.eqb (c_id c) (f_id (fst hit))
                                                 && (c_repositoryId c =? repoId))
                                       (chunks d)))
                        hits))
  end.

(** [lexicalSearch(repoId, query)] *)
Definition lexicalSearch (repoId : nat) (query : string) : M (JsMap BM25Score) :=
  ftsResults <- stmt (fun d => option_map (fun rows => (rows, d))
                                          (selectLexical repoId query d)) ;;
  ret (fold_left
         (fun results (row : ChunkRow num * num) =>
            let terms := words (toLowerCase query) in
            let termMatches :=
              filter (fun term => includes (toLowerCase (c_content (fst row))) term)
                     terms in
            mapSet results (c_id (fst row))
                   {| score := nabs (snd row); termMatches := termMatches |})
         ftsResults []).

(** [vectorSearch(repoId, query)] *)
Definition vectorSearch (repoId : nat) (query : string) : M (JsMap num) :=
  match embeddingModel env with
  | None => ret []
  | Some _ =>
      let queryEmbedding := generateEmbedding query in
      rows <- Effects.query
                (fun d => filter (fun c => c_repositoryId c =? repoId) (chunks d)) ;;
      ret (fold_left
             (fun results (row : ChunkRow num) =>
                let similarity := cosineSimilarity queryEmbedding (c_embedding row) in
                if similarity .> nlit 1 10
                then mapSet results (c_id row) similarity
                else results)
             rows [])
  end.

(** The rows of the [SELECT ... FROM symbols JOIN chunks ...] of
    [structuralSearch]: chunk id and symbol kind. *)
Definition selectSymbols (repoId : nat) (query : string) (d : Store)
  : list (string * string) :=
  flat_map (fun s : SymbolRow =>
              if like (s_name s) ("%" ++ query ++ "%")
                 || like (s_context s) ("%" ++ query ++ "%")
                 || String.eqb (s_symbolType s) query
              then map (fun c => (c_id c, s_symbolType s))
                       (filter (fun c => String.eqb (c_id c) (s_chunkId s)
                                         && (c_repositoryId c =? repoId))
                               (chunks d))
              else [])
           (symbols d).

Definition getOr0 (m : JsMap num) (k : string) : num :=
  match mapGet m k with
  | Some v => orZero v
  | None => nlit 0 1
  end.

(** [structuralSearch(repoId, query)] *)
Definition structuralSearch (repoId : nat) (query : string) : M (JsMap num) :=
  symbolMatches <- Effects.query (selectSymbols repoId query) ;;
  ret (fold_left
         (fun results (m : string * string) =>
            let existingScore := getOr0 results (fst m) in
            let boost :=
              if includes (toLowerCase query) "header" && String.eqb (snd m) "element"
              then nlit 1 1
              else if includes (toLowerCase query) "function"
                      && String.eqb (snd m) "function"
              then nlit 8 10
              else nlit 5 10 in
            mapSet results (fst m) (existingScore .+ boost))
         symbolMatches []).

(** [normalizeScore(score, min, max)] *)
Definition normalizeScore (score min max : num) : num :=
  nmax (nlit 0 1) (nmin (nlit 1 1) ((score .- min) ./ (max .- min))).

(** [explainScore(lexical, vector, structural)] *)
Definition explainScore (lexical : option BM25Score) (vector structural : num) : string :=
  let explanations :=
    (match lexical with
     | Some l => if score l .> nlit 0 1
                 then [("text match (" ++ join ", " (termMatches l) ++ ")")%string]
                 else []
     | None => []
     end)
    ++ (if ntruthy vector && (vector .> nlit 3 10) then ["semantic similarity"] else [])
    ++ (if ntruthy structural && (structural .> nlit 0 1) then ["structural match"] else []) in
  let text := join ", " explanations in
  if Chunker.isEmpty text then "general relevance" else text.

(** The body of [for (const chunkId of allChunkIds)] up to the test of the
    fused score: the object the loop pushes for [chunkId]. *)
Definition fuse (lexical : JsMap BM25Score) (vector structural : JsMap num)
  (chunkId : string) : SearchResult :=
  let lexicalScore := match mapGet lexical chunkId with
                      | Some l => orZero (score l)
                      | None => nlit 0 1
                      end in
  let vectorScore := getOr0 vector chunkId in
  let structuralScore := getOr0 structural chunkId in
  let fusedScore :=
    nlit 3 10 .* normalizeScore lexicalScore (nlit 0 1) (nlit 10 1)
    .+ nlit 4 10 .* vectorScore
    .+ nlit 3 10 .* structuralScore in
  {| chunk := emptyObject;
     lexicalScore := lexicalScore;
     vectorScore := vectorScore;
     structuralScore := structuralScore;
     fusedScore := fusedScore;
     reason := explainScore (mapGet lexical chunkId) vectorScore structuralScore |}.

(** [new Set([...lexical.keys(), ...vector.keys(), ...structural.keys()])] *)
Definition allChunkIds (lexical : JsMap BM25Score) (vector structural : JsMap num)
  : list string :=
  setOf (mapKeys lexical ++ mapKeys vector ++ mapKeys structural).

(** [(a, b) => b.fusedScore - a.fusedScore] *)
Definition byFusedScore (a b : SearchResult) : num := fusedScore b .- fusedScore a.

(** [fuseAndRerank(lexical, vector, structural, query)] *)
Definition fuseAndRerank (lexical : JsMap BM25Score) (vector structural : JsMap num)
  (query : string) : list SearchResult :=
  let results :=
    filter (fun r => fusedScore r .> nlit 1 10)
           (map (fuse lexical vector structural)
                (allChunkIds lexical vector structural)) in
  sort byFusedScore results.

(** Ghost trace of the loop of [fuseAndRerank]: what it pushes, in order,
    every result paired with the chunk id it was computed for (the results
    themselves do not record it). *)
Definition pushedResults (lexical : JsMap BM25Score) (vector structural : JsMap num)
  : list (string * SearchResult) :=
  filter (fun r : string * SearchResult => fusedScore (snd r) .> nlit 1 10)
         (map (fun chunkId => (chunkId, fuse lexical vector structural chunkId))
              (allChunkIds lexical vector structural)).

(** Ghost trace of [fuseAndRerank]: the returned array, every result paired
    with its chunk id. *)
Definition fuseAndRerankTraced (lexical : JsMap BM25Score) (vector structural : JsMap num)
  (query : string) : list (string * SearchResult) :=
  sort (fun a b => byFusedScore (snd a) (snd b))
       (pushedResults lexical vector structural).

(** The specification's order between a result and a later one: the fused
    score does not go up, and where it stays the chunk id does not go
    down. *)
Definition specifiedOrder (x y : string * SearchResult) : Prop :=
  fusedScore (snd y) .> fusedScore (snd x) = false
  /\ (fusedScore (snd x) .> fusedScore (snd y) = false ->
      String.leb (fst x) (fst y) = true).

(** [searchRelevantChunks(repoName, query, limit)] *)
Definition searchRelevantChunks (repoName query : string) (limit : nat)
  : M (list SearchResult) :=
  initialize ;;
  repoId <- getOrCreateRepository repoName ;;
  lexicalResults <- lexicalSearch repoId query ;;
  vectorResults <- vectorSearch repoId query ;;
  structuralResults <- structuralSearch repoId query ;;
  let fusedResults := fuseAndRerank lexicalResults vectorResults structuralResults query in
  ret (slice fusedResults 0 limit).

End Service.
End Advanced.

(* ================================================================== *)
(** * [CodebaseIndexService] *)
(* ================================================================== *)

Module Basic.
Import JsString Common Effects.

(** ** The tables of [codebase-index.db] *)

Record RepositoryRow : Type := {
  r_id : nat;
  r_name : string;
  r_lastCommitHash : option string;
  r_lastIndexed : option string;
  r_totalFiles : nat
}.

(** [files]; the three JSON columns hold the values they encode. *)
Record FileRow (num : Type) : Type := {
  f_id : nat;
  f_repositoryId : nat;
  f_path : string;
  f_content : string;
  f_contentHash : string;
  f_size : nat;
  f_lastModified : string;
  f_fileType : string;
  f_embedding : list num;
  f_imports : list string;
  f_exports : list string
}.

Record Store (num : Type) : Type := {
  repositories : list RepositoryRow;
  files : list (FileRow num)
}.

(** The answer of [GET https://api.github.com/repos/r/commits/b]. *)
Inductive ApiResponse : Type :=
| Unreachable                 (* fetch threw *)
| NotOk                       (* a status outside 200..299 *)
| Commit (sha : option string). (* the body, with or without a [sha] *)

(** What the service reaches outside itself. *)
Record Env (num : Type) : Type := {
  (** [git clone --depth 1 --branch b --single-branch], [None] when it fails *)
  clone : string -> string -> option Checkout;
  commits : string -> string -> ApiResponse;
  embedder : EmbeddingModel num;
  (** [crypto.createHash('md5').update(content).digest('hex')] *)
  md5 : string -> string;
  (** [new Date().toISOString()] *)
  now : string;
  (** [execSync] of [find] throws: the command fails, or prints more than
      the buffer holds *)
  findFails : bool;
  (** [rm -rf] fails *)
  rmFails : bool
}.

Section Service.
Context {num : Type} `{JsNum num} `{JsMath num}.
Variable env : Env num.
Local Open Scope effect_scope.
Local Open Scope js_scope.

Local Notation "'Store'" := (Basic.Store num).
Local Notation "'M'" := (Effects.M (Basic.Store num)).

(** ** Statements *)

(** [SELECT ... FROM repositories WHERE name = ?] *)
Definition selectRepository (name : string) (d : Store) : option RepositoryRow :=
  find (fun r => String.eqb (r_name r) name) (repositories d).

(** The commit identifier the repository record of [name] holds, if any. *)
Definition storedCommit (name : string) (d : Store) : option string :=
  match selectRepository name d with
  | Some r => r_lastCommitHash r
  | None => None
  end.

(** The rowid SQLite gives a new row of an [INTEGER PRIMARY KEY] table:
    one more than the largest in use. *)
Definition nextRowid (ids : list nat) : nat := S (fold_right Nat.max 0 ids).

(** [INSERT INTO repositories (name, lastIndexed) VALUES (?, ?)] *)
Definition insertRepository (name stamp : string) (d : Store) : option (nat * Store) :=
  match selectRepository name d with
  | Some _ => None
  | None =>
      let newId := nextRowid (map r_id (repositories d)) in
      Some (newId,
            {| repositories :=
                 repositories d ++
                   [ {| r_id := newId; r_name := name; r_lastCommitHash := None;
                        r_lastIndexed := Some stamp; r_totalFiles := 0 |} ];
               files := files d |})
  end.

(** [DELETE FROM files WHERE repositoryId = ?] *)
Definition deleteFiles (repoId : nat) (d : Store) : Store :=
  {| repositories := repositories d;
     files := filter (fun f => negb (f_repositoryId f =? repoId)) (files d) |}.

(** [INSERT OR REPLACE INTO files (...)]: a row that holds the same
    [(repositoryId, path)] is removed first. *)
Definition insertOrReplaceFile (row : nat -> FileRow num) (d : Store) : Store :=
  let probe := row 0 in
  let kept := filter (fun f => negb ((f_repositoryId f =? f_repositoryId probe)
                                     && String.eqb (f_path f) (f_path probe)))
                     (files d) in
  {| repositories := repositories d;
     files := kept ++ [row (nextRowid (map (@f_id num) kept))] |}.

(** [UPDATE repositories SET lastCommitHash = ?, lastIndexed = ?,
     totalFiles = ? WHERE id = ?] *)
Definition updateRepository (repoId : nat) (hash : option string) (stamp : string)
  (total : nat) (d : Store) : Store :=
  {| repositories :=
       map (fun r =>
              if r_id r =? repoId
              then {| r_id := r_id r; r_name := r_name r;
                      r_lastCommitHash := hash; r_lastIndexed := Some stamp;
                      r_totalFiles := total |}
              else r)
           (repositories d);
     files := files d |}.

(** [SELECT * FROM files WHERE repositoryId = ?] *)
Definition selectFiles (repoId : nat) (d : Store) : list (FileRow num) :=
  filter (fun f => f_repositoryId f =? repoId) (files d).

(** ** Helpers *)

(** [initialize()]: with the schema in place no table changes. *)
Definition initialize : M unit := query (fun _ => tt).

(** [getOrCreateRepository(repoName)] *)
Definition getOrCreateRepository (repoName : string) : M nat :=
  repo <- query (selectRepository repoName) ;;
  match repo with
  | None => stmt (insertRepository repoName (now env))
  | Some r => ret (r_id r)
  end.

(** [needsUpdate(repoName, branch)] *)
Definition needsUpdate (repoName branch : string) : M bool :=
  initialize ;;
  repo <- query (selectRepository repoName) ;;
  match repo with
  | None => ret true
  | Some r =>
      match r_lastCommitHash r with
      | None => ret true
      | Some stored =>
          if Chunker.isEmpty stored then ret true
          else
            match commits env repoName branch with
            | Unreachable => ret true
            | NotOk => ret true
            | Commit None => ret true
            | Commit (Some currentHash) => ret (negb (String.eqb stored currentHash))
            end
      end
  end.

(** [findRelevantFiles(repoPath)]: the files [find] prints, and the empty
    array when it throws. *)
Definition findRelevantFiles (files : list (string * option string))
  : list (string * option string) :=
  if findFails env then []
  else
    findFiles [".html"; ".htm"; ".css"; ".scss"; ".sass"; ".js"; ".jsx"; ".ts";
               ".tsx"; ".json"; ".md"; ".yml"; ".yaml"; ".xml"; ".php"; ".py";
               ".rb"; ".go"; ".rs"; ".java"; ".c"; ".cpp"; ".h"]
              ["node_modules"; ".next"; "dist"; "build"; ".git"; "vendor";
               "__pycache__"; "target"]
              files.

(** [getFileType(path)] *)
Definition getFileType (path : string) : string :=
  let ext := extname path in
  let name := afterLastSlash path in
  let ext_is := String.eqb ext in
  if ext_is ".html" || ext_is ".htm" then "page"
  else if ext_is ".css" || ext_is ".scss" || ext_is ".sass" then "style"
  else if ext_is ".tsx" || ext_is ".jsx" then "component"
  else if ext_is ".ts" || ext_is ".js" then
    if includes path "/api/" || includes name "route" then "api"
    else if includes path "/lib/" || includes path "/utils/" then "utility"
    else if String.eqb name "layout.tsx" || String.eqb name "page.tsx" then "page"
    else "script"
  else if ext_is ".json" then
    if String.eqb name "package.json" then "config" else "data"
  else if ext_is ".yml" || ext_is ".yaml" then "config"
  else if ext_is ".xml" then "data"
  else if ext_is ".md" then "documentation"
  else if ext_is ".php" || ext_is ".py" || ext_is ".rb" || ext_is ".go" || ext_is ".rs" || ext_is ".java"
          || ext_is ".c" || ext_is ".cpp" || ext_is ".h" then "script"
  else "other".

Import Regex.

(** [/import\s+(?:[^q]*from\s+)?[q]([^q]+)[q]/g], q the two quote characters *)
Definition importRegex : regex :=
  seqs [lit "import"; plus space;
        opt (seqs [star (noneOf quotes); lit "from"; plus space]);
        oneOf quotes; Group 1 (plus (noneOf quotes)); oneOf quotes].

Definition isIdentStart (c : ascii) : bool :=
  isLetter c || Ascii.eqb c "_"%char || Ascii.eqb c "$"%char.

(** [export], white space, an optional [default], one of [function],
    [class], [const], [let], [var], white space, and group 1: an identifier
    (a letter, [_] or [$], then letters, digits, [_] and [$]). *)
Definition exportRegex : regex :=
  seqs [lit "export"; plus space;
        opt (seqs [lit "default"; plus space]);
        alts [lit "function"; lit "class"; lit "const"; lit "let"; lit "var"];
        plus space;
        Group 1 (Seq (Chr isIdentStart)
                     (star (Chr (fun c => isIdentStart c || isDigit c))))].

Definition firstGroups (r : regex) (content : string) : list string :=
  map (fun m => match group content m 1 with Some g => g | None => "" end)
      (execAll r content).

(** [extractImportsExports(content, fileType)] *)
Definition extractImportsExports (content fileType : string)
  : list string * list string :=
  if String.eqb fileType "component" || String.eqb fileType "script"
     || String.eqb fileType "utility"
  then (firstGroups importRegex content, firstGroups exportRegex content)
  else ([], []).

(** [generateEmbedding(path, content)] *)
Definition generateEmbedding (path content : string) : list num :=
  let summary := (path ++ nl ++ substring content 0 1000)%string in
  let zeros := repeat (nlit 0 1) 384 in
  match embedder env with
  | None => zeros
  | Some model =>
      match model summary with
      | Some v => v
      | None => zeros
      end
  end.

(** ** [indexRepository] *)

(** [indexFile(repoId, fullPath, repoRoot)] *)
Definition indexFile (repoId : nat) (file : string * option string) : M unit :=
  let relativePath := fst file in
  content <- attempt FileUnreadable (snd file) ;;
  if 50000 <? jsLength content then ret tt
  else
    let contentHash := md5 env content in
    let fileType := getFileType relativePath in
    let ie := extractImportsExports content fileType in
    let embedding := generateEmbedding relativePath content in
    update (insertOrReplaceFile
              (fun rowid =>
                 {| f_id := rowid; f_repositoryId := repoId; f_path := relativePath;
                    f_content := content; f_contentHash := contentHash;
                    f_size := jsLength content; f_lastModified := now env;
                    f_fileType := fileType; f_embedding := embedding;
                    f_imports := fst ie; f_exports := snd ie |})).

(** The [for (const filePath of files)] loop: a file that throws is
    skipped; the result is [indexed]. *)
Fixpoint indexFiles (repoId : nat) (files : list (string * option string))
  (indexed : nat) : M nat :=
  match files with
  | [] => ret indexed
  | file :: tl =>
      n <- tryCatch (indexFile repoId file ;; ret (indexed + 1))
                    (fun _ => ret indexed) ;;
      indexFiles repoId tl n
  end.

(** The [try] block of [indexRepository]. *)
Definition indexPass (repoId : nat) (repoName branch : string) : M unit :=
  removeTempDirIfThere (rmFails env) ;;
  checkout <- attempt SourceUnavailable (clone env repoName branch) ;;
  setTempDir true ;;
  let currentHash := head checkout in
  update (deleteFiles repoId) ;;
  let files := findRelevantFiles (tree checkout) in
  indexed <- indexFiles repoId files 0 ;;
  update (updateRepository repoId currentHash (now env) indexed) ;;
  removeTempDir (rmFails env).

(** [indexRepository(repoName, branch)] *)
Definition indexRepository (repoName branch : string) : M unit :=
  initialize ;;
  repoId <- getOrCreateRepository repoName ;;
  tryCatch (indexPass repoId repoName branch)
           (fun error => removeTempDirIfThere (rmFails env) ;; throw error).

(** ** [searchRelevantFiles] *)

(** [interface IndexedFile], as the search builds it. *)
Record IndexedFile : Type := {
  path : string;
  content : string;
  contentHash : string;
  size : nat;
  lastModified : string;
  fileType : string;
  imports : list string;
  exports : list string
}.

(** [interface SearchResult] *)
Record SearchResult : Type := {
  file : IndexedFile;
  score : num;
  reason : string
}.

(** The loop's two accumulators, [score] and [reason]. *)
Definition Tally : Type := (num * string)%type.

(** [score += amount; reason += why] *)
Definition boost (amount : num) (why : string) (t : Tally) : Tally :=
  (fst t .+ amount, (snd t ++ why)%string).

Definition boostIf (b : bool) (amount : num) (why : string) (t : Tally) : Tally :=
  if b then boost amount why t else t.

(** [s] between double quotes. *)
Definition inQuotes (s : string) : string :=
  String dquote (s ++ String dquote EmptyString).

Definition isChangeTask (taskLower : string) : bool :=
  includes taskLower "change" || includes taskLower "replace"
  || includes taskLower "update".

Definition isMainHtml (p : string) : bool :=
  String.eqb p "index.html" || includes p "index.html".

(** The semantic base of the score. *)
Definition semanticScore (taskEmbedding fileEmbedding : list num) : Tally :=
  if 0 <? List.length fileEmbedding
  then (cosineSimilarity taskEmbedding fileEmbedding, "semantic similarity")
  else (nlit 0 1, "").

(** The boosts for header, navigation, title and menu tasks. *)
Definition uiBoost (taskLower : string) (f : FileRow num) (t : Tally) : Tally :=
  let isUITask :=
    includes taskLower "header" || includes taskLower "topbar"
    || includes taskLower "navigation" || includes taskLower "nav"
    || includes taskLower "title" || includes taskLower "menu" in
  if isUITask then
    if isMainHtml (f_path f) then boost (nlit 3 1) ", main HTML file for UI change" t
    else if endsWith (f_path f) ".html" then boost (nlit 15 10) ", HTML file for UI change" t
    else if String.eqb (f_fileType f) "page" then boost (nlit 8 10) ", page content for UI change" t
    else t
  else t.

Definition styleBoost (taskLower : string) (f : FileRow num) (t : Tally) : Tally :=
  boostIf ((includes taskLower "style" || includes taskLower "css"
            || includes taskLower "color")
           && String.eqb (f_fileType f) "style")
          (nlit 4 10) ", styling task" t.

Definition htmlBoost (f : FileRow num) (t : Tally) : Tally :=
  boostIf (isMainHtml (f_path f) || endsWith (f_path f) ".html")
          (nlit 5 10) ", HTML file" t.

(** [/'([^']+)'/g] and its double-quote twin. *)
Definition quotedBy (q : ascii) : regex :=
  seqs [chr q; Group 1 (plus (Chr (fun c => negb (Ascii.eqb c q)))); chr q].

(** [s.match(r)] of a global pattern: the matched texts, [null] when there
    is none. *)
Definition matchAll (r : regex) (s : string) : option (list string) :=
  match execAll r s with
  | [] => None
  | ms => Some (map (matched s) ms)
  end.

(** [taskDescription.match(single) || taskDescription.match(double) || []] *)
Definition quotedMatches (taskDescription : string) : list string :=
  match matchAll (quotedBy "'") taskDescription with
  | Some ms => ms
  | None =>
      match matchAll (quotedBy dquote) taskDescription with
      | Some ms => ms
      | None => []
      end
  end.

(** [isChangeTask ? [quotedMatches[0]] : quotedMatches] *)
Definition quotesToCheck (taskDescription : string) : list string :=
  let found := quotedMatches taskDescription in
  if isChangeTask (toLowerCase taskDescription) then firstn 1 found else found.

(** [quotedMatch.replace(/[q]/g, '')], q the two quote characters: both
    are dropped wherever they stand. *)
Fixpoint dropQuotes (s : string) : string :=
  match s with
  | EmptyString => EmptyString
  | String c tl =>
      if Regex.memChar c quotes then dropQuotes tl else String c (dropQuotes tl)
  end.

Definition cleanQuote (quotedMatch : string) : string :=
  toLowerCase (dropQuotes quotedMatch).

(** The body of [for (const quotedMatch of quotesToCheck)]. *)
Definition quotedStep (fileContentLower : string) (t : Tally) (quotedMatch : string)
  : Tally :=
  let clean := cleanQuote quotedMatch in
  boostIf (includes fileContentLower clean)
          (nlit 2 1) (", contains exact text " ++ inQuotes clean) t.

(** The exact-quoted-text bonus. *)
Definition quotedTextBoost (taskDescription : string) (f : FileRow num) (t : Tally)
  : Tally :=
  fold_left (quotedStep (toLowerCase (f_content f))) (quotesToCheck taskDescription) t.

(** The per-word bonus of change, replace and update tasks. *)
Definition wordBoost (taskDescription : string) (f : FileRow num) (t : Tally) : Tally :=
  let taskLower := toLowerCase taskDescription in
  if isChangeTask taskLower then
    fold_left (fun acc word =>
                 boostIf ((3 <? jsLength word)
                          && includes (toLowerCase (f_content f)) word)
                         (nlit 3 10) (", contains " ++ inQuotes word) acc)
              (words taskLower) t
  else t.

Definition kindBoost (taskLower : string) (f : FileRow num) (t : Tally) : Tally :=
  let t1 := boostIf (includes taskLower "component" && String.eqb (f_fileType f) "component")
                    (nlit 3 10) ", component task" t in
  let t2 := boostIf (includes taskLower "api" && String.eqb (f_fileType f) "api")
                    (nlit 3 10) ", API task" t1 in
  boostIf (includes taskLower "page" && String.eqb (f_fileType f) "page")
          (nlit 3 10) ", page task" t2.

Definition configBoost (f : FileRow num) (t : Tally) : Tally :=
  boostIf (String.eqb (f_path f) "package.json") (nlit 2 10) ", essential config" t.

(** The body of [for (const file of files)] down to the threshold test:
    the final [score] and [reason] of [f]. *)
Definition scoreFile (taskDescription : string) (taskEmbedding : list num)
  (f : FileRow num) : Tally :=
  let taskLower := toLowerCase taskDescription in
  configBoost f
    (kindBoost taskLower f
       (wordBoost taskDescription f
          (quotedTextBoost taskDescription f
             (htmlBoost f
                (styleBoost taskLower f
                   (uiBoost taskLower f
                      (semanticScore taskEmbedding (f_embedding f)))))))).

(** [reason.replace(/^, /, '')] *)
Definition trimReason (r : string) : string :=
  if startsWith ", " r then substring r 2 (String.length r) else r.

Definition toResult (f : FileRow num) (t : Tally) : SearchResult :=
  {| file := {| path := f_path f; content := f_content f;
                contentHash := f_contentHash f; size := f_size f;
                lastModified := f_lastModified f; fileType := f_fileType f;
                imports := f_imports f; exports := f_exports f |};
     score := fst t;
     reason := trimReason (snd t) |}.

(** [searchRelevantFiles(repoName, taskDescription, limit)] *)
Definition searchRelevantFiles (repoName taskDescription : string) (limit : nat)
  : M (list SearchResult) :=
  initialize ;;
  repoId <- getOrCreateRepository repoName ;;
  let taskEmbedding := generateEmbedding "task" taskDescription in
  rows <- query (selectFiles repoId) ;;
  let results :=
    flat_map (fun f =>
                let t := scoreFile taskDescription taskEmbedding f in
                if fst t .> nlit 1 10 then [toResult f t] else [])
             rows in
  ret (slice (sort (fun a b => score b .- score a) results) 0 limit).

(** ** The other read paths *)

(** [getAllFiles(repoName)]: path, content and file type of every row. *)
Definition getAllFiles (repoName : string) : M (list (string * string * string)) :=
  initialize ;;
  repoId <- getOrCreateRepository repoName ;;
  query (fun d => map (fun f => (f_path f, f_content f, f_fileType f))
                      (selectFiles repoId d)).

(** One more row of kind [k] in the groups of a [GROUP BY], which SQLite
    keeps in ascending order of the key. *)
Fixpoint tally (k : string) (groups : list (string * nat)) : list (string * nat) :=
  match groups with
  | [] => [(k, 1)]
  | (k', n) :: tl =>
      if String.eqb k' k then (k', n + 1) :: tl
      else if String.ltb k k' then (k, 1) :: groups
      else (k', n) :: tally k tl
  end.

(** [SELECT fileType, COUNT( * ) as count FROM files WHERE repositoryId = ?
     GROUP BY fileType] *)
Definition countByFileType (repoId : nat) (d : Store) : list (string * nat) :=
  fold_left (fun groups f => tally (f_fileType f) groups) (selectFiles repoId d) [].

(** What [getRepositoryStats] returns: the repository record and
    [fileBreakdown]. *)
Record RepositoryStats : Type := {
  repository : RepositoryRow;
  fileBreakdown : list (string * nat)
}.

(** [getRepositoryStats(repoName)]; [None] is [null]. *)
Definition getRepositoryStats (repoName : string) : M (option RepositoryStats) :=
  initialize ;;
  repo <- query (selectRepository repoName) ;;
  match repo with
  | None => ret None
  | Some r =>
      fileStats <- query (countByFileType (r_id r)) ;;
      ret (Some {| repository := r; fileBreakdown := fileStats |})
  end.

End Service.
End Basic.

(* ================================================================== *)
(** * A small repository, indexed and queried on IEEE doubles *)
(* ================================================================== *)

Module Scenario.
Import JsString Common Effects Advanced.
Import Float64.

(** The site at its first commit. *)
Definition site1 : Checkout :=
  {| head := Some "1111111";
     tree := [ ("index.html", Some "<title>Ben Tossell</title>");
               ("old.md", Some "# Old notes") ] |}.

(** The site at its second commit, with [old.md] gone. *)
Definition site2 : Checkout :=
  {| head := Some "2222222";
     tree := [ ("index.html", Some "<title>Ben Tossell</title>") ] |}.

(** A stand-in for FTS5: the rows whose content contains the query, each
    with rank [-8]. *)
Definition containing (rows : list FtsRow) (query : string)
  : option (list (FtsRow * float)) :=
  Some (map (fun r => (r, (-8)%float))
            (filter (fun r => includes (toLowerCase (f_content r)) (toLowerCase query))
                    rows)).

Definition envAt (checkout : option Checkout) : Env float :=
  {| clone := fun _ _ => checkout;
     embeddingModel := None;
     fts5 := containing;
     now := "2025-01-01T00:00:00.000Z";
     findFails := false;
     rmFails := false |}.

Definition emptyStore : Store float :=
  {| repositories := []; repositorySeq := 0; chunks := [];
     symbols := []; symbolSeq := 0; chunks_fts := [] |}.

Definition freshWorld : World (Store float) :=
  {| db := emptyStore; faultIn := None; tempDir := false |}.

Definition indexedOnce : World (Store float) :=
  snd (indexRepository (envAt (Some site1)) "octo/site" "main" freshWorld).

Definition indexedTwice : World (Store float) :=
  snd (indexRepository (envAt (Some site2)) "octo/site" "main" indexedOnce).

(** The site at its third commit, whose page puts two elements on one
    line: both chunks get the id [index.html:1-1:element], and the second
    [INSERT INTO chunks] violates the primary key. *)
Definition site3 : Checkout :=
  {| head := Some "3333333";
     tree := [ ("index.html", Some "<title>Ben Tossell</title><h1>Hello</h1>") ] |}.

(** Three lexical hits with the same score, in the order the full-text
    search returned them. *)
Definition tiedLexical : JsMap (BM25Score (num := float)) :=
  [ ("b.md:1-9:section", {| score := 5%float; termMatches := ["title"] |});
    ("c.md:1-9:section", {| score := 5%float; termMatches := ["title"] |});
    ("a.md:1-9:section", {| score := 5%float; termMatches := ["title"] |}) ].

(** Lexical hits with different scores. *)
Definition rankedLexical : JsMap (BM25Score (num := float)) :=
  [ ("b.md:1-9:section", {| score := 5%float; termMatches := ["title"] |});
    ("c.md:1-9:section", {| score := 9%float; termMatches := ["title"] |});
    ("a.md:1-9:section", {| score := 5%float; termMatches := ["title"] |});
    ("d.md:1-9:section", {| score := 0.25%float; termMatches := [] |}) ].

End Scenario.

Module BasicScenario.
Import JsString Common Effects Basic Scenario.
Import Float64.

(** The service with no embedding model loaded, a repository whose clone is
    [checkout] and whose branch head GitHub reports as [sha]. *)
Definition envWith (checkout : option Checkout) (sha : string) : Env float :=
  {| clone := fun _ _ => checkout;
     commits := fun _ _ => Commit (Some sha);
     embedder := None;
     md5 := fun _ => "d41d8cd98f00b204e9800998ecf8427e";
     now := "2025-01-01T00:00:00.000Z";
     findFails := false;
     rmFails := false |}.

Definition emptyStore : Store float := {| repositories := []; files := [] |}.

Definition freshWorld : World (Store float) :=
  {| db := emptyStore; faultIn := None; tempDir := false |}.

Definition indexed : World (Store float) :=
  snd (indexRepository (envWith (Some site1) "1111111") "octo/site" "main" freshWorld).

(** The row of [index.html], with an embedding of its own. *)
Definition page : FileRow float :=
  {| f_id := 1; f_repositoryId := 1; f_path := "index.html";
     f_content := "<title>Ben Tossell</title>";
     f_contentHash := "d41d8cd98f00b204e9800998ecf8427e"; f_size := 26;
     f_lastModified := "2025-01-01T00:00:00.000Z"; f_fileType := "page";
     f_embedding := [1; 0]%float; f_imports := []; f_exports := [] |}.

End BasicScenario.

(* ================================================================== *)
(** * How far a pattern moves *)
(* ================================================================== *)

Module RegexMeasure.
Import Regex.


End RegexMeasure.

(* ================================================================== *)
(** * Tables that only grow *)
(* ================================================================== *)

Module Growth.
Import Effects.

(** [Grows obs m]: whatever [m] does and however it ends, the rows [obs]
    reads before are still there after, in place, with the new ones behind
    them. *)
Definition Grows {DB X A} (obs : DB -> list X) (m : M DB A) : Prop :=
  forall w r w', m w = (r, w') -> exists added, obs (db w') = obs (db w) ++ added.

End Growth.

(* ================================================================== *)
(** * What a pass of [AdvancedCodebaseIndex] takes from a clone *)
(* ================================================================== *)

Module AdvancedSnapshot.
Import JsString Common.

(** The identifiers of the chunks of [files], file after file; a file that
    cannot be read has none. *)
Definition chunkIdsOfFiles (files : list (string * option string)) : list string :=
  flat_map (fun file =>
              match snd file with
              | Some content =>
                  map Chunker.id
                      (Chunker.parseFileIntoChunks content (fst file)
                         (Chunker.detectLanguage (fst file)))
              | None => []
              end)
           files.

End AdvancedSnapshot.

(* ================================================================== *)
(** * What a pass of [CodebaseIndexService] takes from a clone *)
(* ================================================================== *)

Module BasicSnapshot.
Import JsString Common.

(** [readFileSync] returns for this file. *)
Definition readable (file : string * option string) : bool :=
  match snd file with
  | Some _ => true
  | None => false
  end.

(** Path, content and file type of the files [indexFile] writes a row for:
    those that can be read and are not longer than 50000 UTF-16 code units. *)
Definition storedFiles (files : list (string * option string))
  : list (string * string * string) :=
  flat_map (fun file =>
              match snd file with
              | Some content =>
                  if 50000 <? jsLength content then []
                  else [(fst file, content, Basic.getFileType (fst file))]
              | None => []
              end)
           files.

End BasicSnapshot.

(* ================================================================== *)
(** * The helpers of [git-service.ts] that consume search results *)
(* ================================================================== *)

Module GitService.
Import JsString Common.

(** What reading a key off an object literal gives: a text of its own, or,
    for a key the literal does not hold, what [Object.prototype] holds
    under that name. *)
Inductive Member : Type :=
| Text (s : string)
| Inherited (name : string).

(** The names [Object.prototype] answers to; every one holds a truthy
    value. *)
Definition objectPrototype : list string :=
  [ "constructor"; "__proto__"; "hasOwnProperty"; "isPrototypeOf";
    "propertyIsEnumerable"; "toLocaleString"; "toString"; "valueOf";
    "__defineGetter__"; "__defineSetter__"; "__lookupGetter__"; "__lookupSetter__" ].

Definition mapping : list (string * string) :=
  [ ("html", "page"); ("javascript", "script"); ("typescript", "script");
    ("css", "style"); ("markdown", "documentation"); ("json", "config") ].

(** [mapLanguageToFileType(language)]: [mapping[language] || 'unknown'];
    [None] is [undefined]. *)
Definition mapLanguageToFileType (language : option string) : Member :=
  match language with
  | None => Text "unknown"
  | Some l =>
      match Chunker.assoc l mapping with
      | Some fileType => Text fileType
      | None => if memString l objectPrototype then Inherited l else Text "unknown"
      end
  end.

Section Convert.
Context {num : Type} `{JsNum num}.

(** The [file] of a converted result. *)
Record ConvertedFile : Type := {
  path : string;
  content : string;
  contentHash : string;
  size : nat;
  lastModified : string;
  fileType : Member;
  imports : list string;
  exports : list string
}.

Record Converted : Type := {
  file : ConvertedFile;
  score : num;
  reason : string
}.

(** The body of [for (const result of advancedResults)]: what it pushes,
    [None] when it throws a [TypeError] (the length of a content that is
    [undefined]).  [fileResults] is a new [Map] in every round. *)
Definition convertResult (stamp : string) (result : Advanced.SearchResult (num := num))
  : option (list Converted) :=
  let fileResults : JsMap Converted := [] in
  let chunk := Advanced.chunk result in
  match Advanced.o_file chunk with
  | None => Some (map snd fileResults)
  | Some filePath =>
      if Chunker.isEmpty filePath then Some (map snd fileResults)
      else
        match mapGet fileResults filePath with
        | None =>
            match Advanced.o_content chunk with
            | None => None
            | Some text =>
                Some (map snd
                        (mapSet fileResults filePath
                           {| file := {| path := filePath; content := text;
                                         contentHash := ""; size := jsLength text;
                                         lastModified := stamp;
                                         fileType :=
                                           mapLanguageToFileType (Advanced.o_language chunk);
                                         imports := []; exports := [] |};
                              score := Advanced.fusedScore result;
                              reason := Advanced.reason result |}))
            end
        | Some existing =>
            let more := match Advanced.o_content chunk with
                        | Some text => text
                        | None => "undefined"
                        end in
            Some (map snd
                    (mapSet fileResults filePath
                       {| file := {| path := path (file existing);
                                     content := (content (file existing) ++ nl ++ more)%string;
                                     contentHash := contentHash (file existing);
                                     size := size (file existing);
                                     lastModified := lastModified (file existing);
                                     fileType := fileType (file existing);
                                     imports := imports (file existing);
                                     exports := exports (file existing) |};
                          score := nmax (score existing) (Advanced.fusedScore result);
                          reason := reason existing |}))
        end
  end.

(** The [for] loop from round [round] on; [clock round] is what
    [new Date().toISOString()] gives in that round. *)
Fixpoint convertLoop (clock : nat -> string) (round : nat)
  (advancedResults : list (Advanced.SearchResult (num := num)))
  : option (list Converted) :=
  match advancedResults with
  | [] => Some []
  | result :: tl =>
      match convertResult (clock round) result with
      | None => None
      | Some pushed =>
          match convertLoop clock (S round) tl with
          | None => None
          | Some convertedResults => Some (pushed ++ convertedResults)
          end
      end
  end.

(** [convertAdvancedResults(advancedResults, repository)] *)
Definition convertAdvancedResults (clock : nat -> string)
  (advancedResults : list (Advanced.SearchResult (num := num))) (repository : string)
  : option (list Converted) :=
  convertLoop clock 0 advancedResults.

End Convert.
End GitService.

(* ================================================================== *)
(** * More runs of the small repository *)
(* ================================================================== *)

Module MoreScenarios.
Import JsString Common Effects Scenario.
Import Float64.

(** The site with a file the indexer is not allowed to read. *)
Definition site4 : Checkout :=
  {| head := Some "4444444";
     tree := [ ("index.html", Some "<title>Ben Tossell</title>");
               ("locked.md", None) ] |}.

(** The advanced service with an embedding model that throws on every
    text, and a full-text engine that rejects every query. *)
Definition brokenEnv : Advanced.Env float :=
  {| Advanced.clone := fun _ _ => Some site1;
     Advanced.embeddingModel := Some (fun _ => None);
     Advanced.fts5 := fun _ _ => None;
     Advanced.now := "2025-01-01T00:00:00.000Z";
     Advanced.findFails := false;
     Advanced.rmFails := false |}.

(** Two results of a chunk search as they would be with their chunks
    filled in, both of the same file. *)
Definition resultOf (filePath text : string) (fused : float)
  : Advanced.SearchResult (num := float) :=
  {| Advanced.chunk :=
       {| Advanced.o_id := Some (filePath ++ ":1-11:function")%string;
          Advanced.o_content := Some text;
          Advanced.o_type := Some "symbol";
          Advanced.o_symbols := Some [];
          Advanced.o_location := Some (1, 11);
          Advanced.o_file := Some filePath;
          Advanced.o_language := Some "javascript";
          Advanced.o_embedding := None |};
     Advanced.lexicalScore := 0%float;
     Advanced.vectorScore := 0%float;
     Advanced.structuralScore := fused;
     Advanced.fusedScore := fused;
     Advanced.reason := "structural match" |}.

Definition twoChunksOfOneFile : list (Advanced.SearchResult (num := float)) :=
  [ resultOf "app.js" "function a() {}" 0.5%float;
    resultOf "app.js" "function b() {}" 0.25%float ].

(** A text of 50010 characters. *)
Definition bigText : string := String.concat "" (repeat "0123456789" 5001).

(** The letter e with an acute accent: two bytes of UTF-8, one UTF-16
    code unit. *)
Definition eAcute : string := String "195" (String "169" EmptyString).

(** A text of 30000 characters in 60000 bytes. *)
Definition accents : string := String.concat "" (repeat eAcute 30000).

(** The site with a file that cannot be read, a style sheet beyond the
    size the basic indexer stores, and a page of accented letters within
    it. *)
Definition site5 : Checkout :=
  {| head := Some "5555555";
     tree := [ ("index.html", Some "<title>Ben Tossell</title>");
               ("locked.md", None);
               ("big.css", Some bigText);
               ("accents.md", Some accents) ] |}.


(** The basic service on such a machine. *)
Definition basicFindlessEnv (checkout : Checkout) : Basic.Env float :=
  {| Basic.clone := fun _ _ => Some checkout;
     Basic.commits := fun _ _ => Basic.Commit (head checkout);
     Basic.embedder := None;
     Basic.md5 := fun _ => "d41d8cd98f00b204e9800998ecf8427e";
     Basic.now := "2025-01-01T00:00:00.000Z";
     Basic.findFails := true;
     Basic.rmFails := false |}.

End MoreScenarios.

(* ================================================================== *)
(** * Facts about lists and strings *)
(* ================================================================== *)

Lemma filter_none {A} (p : A -> bool) (l : list A) :
  Forall (fun x => p x = false) l -> filter p l = [].
Proof.
  induction 1 as [|x l Hx _ IH]; simpl; [reflexivity|].
  now rewrite Hx.
Qed.

Lemma flat_map_none {A B} (f : A -> list B) (l : list A) :
  Forall (fun x => f x = []) l -> flat_map f l = [].
Proof.
  induction 1 as [|x l Hx _ IH]; simpl; [reflexivity|].
  now rewrite Hx, IH.
Qed.

Lemma find_app_none {A} (p : A -> bool) (l l' : list A) :
  find p l = None -> find p (l ++ l') = find p l'.
Proof.
  induction l as [|x l IH]; simpl; [reflexivity|].
  destruct (p x); [discriminate | exact IH].
Qed.

Lemma splitLines_nonempty (s : string) : 1 <= List.length (JsString.splitLines s).
Proof.
  induction s as [|c s IH]; simpl; [lia|].
  destruct (Ascii.eqb c JsString.newline); simpl; [lia|].
  destruct (JsString.splitLines s); simpl in *; lia.
Qed.

(* ================================================================== *)
(** * The chunker *)
(* ================================================================== *)

Module ChunkerFacts.
Import JsString Chunker.

Lemma window_weaken lines i j c : i <= j -> window lines j c -> window lines i c.
Proof. unfold window; intuition lia. Qed.

Lemma window_not_below lines i l c : l <= i -> window lines i c -> covers l c = false.
Proof.
  unfold window, covers; intros Hl (Hs & _).
  apply andb_false_iff; left; apply Nat.leb_gt; lia.
Qed.

(** The loop from index [i], given fuel for the lines that remain: its
    chunks are windows above [i], and each remaining line is in one. *)
Lemma genericLoop_spec filePath lines :
  forall fuel i,
    List.length lines - i <= fuel ->
    Forall (window lines i) (genericLoop fuel filePath lines i)
    /\ forall l, i < l <= List.length lines ->
                 List.length (filter (covers l) (genericLoop fuel filePath lines i)) = 1.
Proof.
  induction fuel as [|fuel IH]; intros i Hfuel; simpl.
  - split; [constructor | intros l Hl; lia].
  - destruct (Nat.ltb_spec i (List.length lines)) as [Hi|Hi];
      [| split; [constructor | intros l Hl; lia]].
    destruct (IH (i + chunkSize)) as [Hwin Hcov]; [unfold chunkSize; lia|].
    split.
    + constructor.
      * unfold window, chunkSize; simpl.
        repeat split; try lia.
        now replace (i + 1 - 1) with i by lia.
      * eapply Forall_impl; [|exact Hwin].
        intros c; apply window_weaken; lia.
    + intros l Hl; simpl.
      unfold covers at 1; simpl.
      destruct (Nat.leb_spec l (Nat.min (i + chunkSize) (List.length lines))) as [Hin|Hout].
      * replace (i + 1 <=? l) with true by (symmetry; apply Nat.leb_le; lia).
        simpl. rewrite filter_none; [reflexivity|].
        eapply Forall_impl; [|exact Hwin].
        intros c; apply window_not_below; lia.
      * rewrite andb_false_r. apply Hcov. lia.
Qed.

(** C8.  The generic fallback chunker on a text of [N] lines: the chunks
    carry no symbols, each spans at most 50 lines (exactly 50 unless it
    ends the file), and their line ranges partition [1..N]: every line of
    the file lies in exactly one chunk, and a chunk covers nothing else. *)
Theorem parseGenericChunks_partitions_lines (text filePath : string) :
  let lines := splitLines text in
  let N := List.length lines in
  let chunks := parseGenericChunks text filePath lines in
  1 <= N
  /\ Forall (fun c => symbols c = []
                     /\ 1 <= startLine c <= chunkEndLine c
                     /\ chunkEndLine c <= N
                     /\ chunkEndLine c - startLine c + 1 <= 50
                     /\ (chunkEndLine c = N \/ chunkEndLine c - startLine c + 1 = 50)
                     /\ content c = joinLines (slice lines (startLine c - 1) (chunkEndLine c)))
            chunks
  /\ (forall l, 1 <= l <= N -> List.length (filter (covers l) chunks) = 1)
  /\ (forall l c, In c chunks -> covers l c = true -> 1 <= l <= N).
Proof.
  intros lines N chunks.
  destruct (@genericLoop_spec filePath lines N 0) as [Hwin Hcov];
    [subst N; lia|].
  fold (parseGenericChunks text filePath lines) in Hwin, Hcov. fold chunks in Hwin, Hcov.
  assert (Hall : Forall (fun c => symbols c = []
                     /\ 1 <= startLine c <= chunkEndLine c
                     /\ chunkEndLine c <= N
                     /\ chunkEndLine c - startLine c + 1 <= 50
                     /\ (chunkEndLine c = N \/ chunkEndLine c - startLine c + 1 = 50)
                     /\ content c = joinLines (slice lines (startLine c - 1) (chunkEndLine c)))
                    chunks).
  { eapply Forall_impl; [|exact Hwin].
    intros c (H1 & H2 & H3 & H4 & H5 & _ & H6). fold N in H2, H4.
    unfold chunkSize in *. repeat split; try assumption; lia. }
  split; [apply splitLines_nonempty|].
  split; [exact Hall|].
  split; [intros l Hl; apply Hcov; lia|].
  intros l c Hin Hc.
  rewrite Forall_forall in Hall. destruct (Hall c Hin) as (_ & H2 & H3 & _).
  unfold covers in Hc. apply andb_true_iff in Hc as [Ha Hb].
  apply Nat.leb_le in Ha, Hb. lia.
Qed.

(** A file of 120 lines falls into three windows. *)
Example parseGenericChunks_three_windows :
  let text := joinLines (repeat "x" 120) in
  map (fun c => (id c, startLine c, chunkEndLine c))
      (parseGenericChunks text "big.css" (splitLines text))
  = [ ("big.css:1-50:block", 1, 50);
      ("big.css:51-100:block", 51, 100);
      ("big.css:101-120:block", 101, 120) ].
Proof. vm_compute; reflexivity. Qed.

(** The patterns of the three structured parsers find nothing in the empty
    text. *)
Lemma elementPatterns_empty :
  Forall (fun p => Regex.execAll (fst (fst p)) "" = []) elementPatterns.
Proof. repeat constructor. Qed.

Lemma jsPatterns_empty :
  Forall (fun p => Regex.execAll (fst p) "" = []) jsPatterns.
Proof. repeat constructor. Qed.

Lemma headerPattern_empty : Regex.exec headerPattern "" 0 = None.
Proof. reflexivity. Qed.

Lemma parseGenericChunks_empty (filePath : string) :
  parseGenericChunks "" filePath (splitLines "")
  = [ {| id := filePath ++ ":1-1:block"; content := ""; chunkType := "block";
         symbols := []; startLine := 1; chunkEndLine := 1; file := filePath;
         language := detectLanguage filePath |} ].
Proof. reflexivity. Qed.

Lemma parseHTMLChunks_empty (filePath : string) :
  parseHTMLChunks "" filePath (splitLines "")
  = parseGenericChunks "" filePath (splitLines "").
Proof.
  unfold parseHTMLChunks.
  rewrite flat_map_none; [reflexivity|].
  eapply Forall_impl; [|exact elementPatterns_empty].
  intros [[pattern kind] symbolType] Hp; simpl in Hp. now rewrite Hp.
Qed.

Lemma parseJSChunks_empty (filePath : string) :
  parseJSChunks "" filePath (splitLines "")
  = parseGenericChunks "" filePath (splitLines "").
Proof.
  unfold parseJSChunks.
  rewrite flat_map_none; [reflexivity|].
  eapply Forall_impl; [|exact jsPatterns_empty].
  intros [pattern kind] Hp; simpl in Hp. now rewrite Hp.
Qed.

Lemma parseMarkdownChunks_empty (filePath : string) :
  parseMarkdownChunks "" filePath (splitLines "")
  = parseGenericChunks "" filePath (splitLines "").
Proof.
  unfold parseMarkdownChunks.
  change (String.length "") with 0.
  cbn [markdownLoop]. now rewrite headerPattern_empty.
Qed.

(** C7, as the code has it.  The empty text splits into one (empty) line,
    so whatever the path and the language, chunking it gives exactly one
    chunk: the block of line 1 to line 1, empty, without symbols. *)
Theorem parseFileIntoChunks_empty_one_chunk (filePath language : string) :
  parseFileIntoChunks "" filePath language
  = [ {| id := filePath ++ ":1-1:block"; content := ""; chunkType := "block";
         symbols := []; startLine := 1; chunkEndLine := 1; file := filePath;
         language := detectLanguage filePath |} ].
Proof.
  unfold parseFileIntoChunks.
  destruct (String.eqb language "html");
    [now rewrite parseHTMLChunks_empty, parseGenericChunks_empty|].
  destruct (String.eqb language "javascript" || String.eqb language "typescript");
    [now rewrite parseJSChunks_empty, parseGenericChunks_empty|].
  destruct (String.eqb language "markdown");
    [now rewrite parseMarkdownChunks_empty, parseGenericChunks_empty|].
  apply parseGenericChunks_empty.
Qed.

(** C7, as stated, fails: an empty text file does not chunk to nothing. *)
Lemma empty_file_is_chunked :
  parseFileIntoChunks "" "notes.txt" (detectLanguage "notes.txt") <> [].
Proof. discriminate. Qed.

End ChunkerFacts.

(* ================================================================== *)
(** * Cosine similarity *)
(* ================================================================== *)

Module CosineFacts.
Import Float64.

Section AnyNumber.
Context {num : Type} `{JsNum num} `{JsMath num}.
Local Open Scope js_scope.

Lemma cosineSimilarity_length_mismatch (a b : list num) :
  List.length a <> List.length b -> cosineSimilarity a b = nlit 0 1.
Proof.
  intros Hne. unfold cosineSimilarity.
  now apply Nat.eqb_neq in Hne as ->.
Qed.

(** The three accumulators of the loop are the three sums of products. *)
Lemma cosine_loop_sums (a b : list num) :
  List.length a = List.length b ->
  forall d x y,
    fold_left cosineStep (combine a b) (d, x, y)
    = (fold_left (fun s (p : num * num) => s .+ fst p .* snd p) (combine a b) d,
       fold_left (fun s (p : num * num) => s .+ fst p .* snd p) (combine a a) x,
       fold_left (fun s (p : num * num) => s .+ fst p .* snd p) (combine b b) y).
Proof.
  revert b. induction a as [|ai a IH]; intros [|bi b] Hlen d x y;
    try discriminate; [reflexivity|].
  simpl. apply IH. now inversion Hlen.
Qed.

Lemma cosineSimilarity_formula (a b : list num) :
  cosineSimilarity a b
  = if List.length a =? List.length b
    then dot a b ./ (norm a .* norm b)
    else nlit 0 1.
Proof.
  unfold cosineSimilarity.
  destruct (Nat.eqb_spec (List.length a) (List.length b)) as [Hlen|Hlen];
    [|reflexivity].
  simpl. now rewrite cosine_loop_sums by exact Hlen.
Qed.

Lemma dot_comm (Hcomm : forall x y : num, x .* y = y .* x) (a b : list num) :
  dot a b = dot b a.
Proof.
  unfold dot. generalize (nlit 0 1) as s.
  revert b. induction a as [|ai a IH]; intros [|bi b] s; try reflexivity.
  simpl. rewrite (Hcomm ai bi). apply IH.
Qed.

Lemma cosineSimilarity_sym (Hcomm : forall x y : num, x .* y = y .* x) (a b : list num) :
  cosineSimilarity a b = cosineSimilarity b a.
Proof.
  rewrite !cosineSimilarity_formula, (Nat.eqb_sym (List.length b)).
  destruct (List.length a =? List.length b); [|reflexivity].
  now rewrite (dot_comm Hcomm a b), (Hcomm (norm a)).
Qed.

End AnyNumber.

(** Multiplication of doubles commutes. *)
Lemma SFmul_comm (prec emax : Z) (x y : spec_float) :
  SFmul prec emax x y = SFmul prec emax y x.
Proof.
  destruct x as [sx|sx| |sx mx ex], y as [sy|sy| |sy my ey]; simpl; try reflexivity;
    try (now rewrite xorb_comm).
  now rewrite xorb_comm, Pos.mul_comm, Z.add_comm.
Qed.

Lemma float_mul_comm (x y : float) : PrimFloat.mul x y = PrimFloat.mul y x.
Proof. apply Prim2SF_inj. rewrite !mul_spec. apply SFmul_comm. Qed.

(** C1, as the code has it, on IEEE doubles.  For vectors of one length
    [cosineSimilarity(a, b)] is [dot(a, b) / (norm(a) * norm(b))], each
    operation rounded; for vectors of different lengths it is exactly [0];
    and it is symmetric.  (No bound on the result is asserted: see the
    counterexample.) *)
Theorem cosineSimilarity_is_the_rounded_quotient_and_symmetric (a b : list float) :
  cosineSimilarity a b
  = (if List.length a =? List.length b
     then PrimFloat.div (dot a b) (PrimFloat.mul (norm a) (norm b))
     else 0%float)
  /\ cosineSimilarity a b = cosineSimilarity b a.
Proof.
  split.
  - rewrite cosineSimilarity_formula. reflexivity.
  - apply cosineSimilarity_sym. exact float_mul_comm.
Qed.

(** C1, as stated, fails twice on IEEE doubles.  The similarity of the
    non-zero vector [(2, 3)] with itself is [13 / (sqrt 13 * sqrt 13)],
    which rounds to a number above [1].  And with equal lengths and a zero
    norm the division is [0 / 0]: the result is NaN, not [0] -- for a zero
    vector against a unit vector, either way round, and for two empty
    vectors. *)
Lemma cosineSimilarity_exceeds_one_and_is_NaN_on_zero_norm :
  PrimFloat.ltb 1 (cosineSimilarity [2; 3] [2; 3])%float = true
  /\ PrimFloat.is_nan (cosineSimilarity [0; 0] [1; 0])%float = true
  /\ PrimFloat.is_nan (cosineSimilarity [1; 0] [0; 0])%float = true
  /\ PrimFloat.is_nan (cosineSimilarity (num := float) [] []) = true.
Proof. repeat split; vm_compute; reflexivity. Qed.

End CosineFacts.

(* ================================================================== *)
(** * Reasoning about effects *)
(* ================================================================== *)

Module EffectsFacts.
Import Effects.

Section Rules.
Context {DB : Type}.
Local Open Scope effect_scope.

Lemma bind_inr {A B} (m : M DB A) (k : A -> M DB B) w b w' :
  bind m k w = (inr b, w') ->
  exists a w1, m w = (inr a, w1) /\ k a w1 = (inr b, w').
Proof.
  unfold bind. destruct (m w) as [[e|a] w1]; intros Heq; [discriminate|eauto].
Qed.

Lemma bind_inl {A B} (m : M DB A) (k : A -> M DB B) w e w' :
  bind m k w = (inl e, w') ->
  m w = (inl e, w') \/ exists a w1, m w = (inr a, w1) /\ k a w1 = (inl e, w').
Proof.
  unfold bind. destruct (m w) as [[e0|a] w1]; intros Heq; [left|right; eauto].
  now inversion Heq.
Qed.

(** A failed statement leaves the tables as they were. *)
Lemma stmt_inl {A} (f : DB -> option (A * DB)) w e w' :
  stmt f w = (inl e, w') -> e = StorageFailure /\ db w' = db w.
Proof.
  unfold stmt. destruct (faultIn w) as [[|n]|];
    try destruct (f (db w)) as [[a d]|]; intros Heq; inversion Heq; auto.
Qed.

Lemma stmt_inr {A} (f : DB -> option (A * DB)) w a w' :
  stmt f w = (inr a, w') -> f (db w) = Some (a, db w') /\ tempDir w' = tempDir w.
Proof.
  unfold stmt. destruct (faultIn w) as [[|n]|];
    try destruct (f (db w)) as [[a0 d]|]; intros Heq; inversion Heq; auto.
Qed.

(** With no failure pending a statement is its effect on the tables. *)
Lemma stmt_no_fault {A} (f : DB -> option (A * DB)) w :
  faultIn w = None ->
  stmt f w = match f (db w) with
             | Some (a, d) => (inr a, {| db := d; faultIn := None; tempDir := tempDir w |})
             | None => (inl StorageFailure,
                        {| db := db w; faultIn := None; tempDir := tempDir w |})
             end.
Proof. unfold stmt. now intros ->. Qed.

Variable X : Type.
Variable obs : DB -> X.

Lemma keeps_ret {A} (a : A) : Keeps obs (ret a).
Proof. intros w r w' Heq; now inversion Heq. Qed.

Lemma keeps_throw {A} (e : Error) : Keeps obs (throw (A := A) e).
Proof. intros w r w' Heq; now inversion Heq. Qed.

Lemma keeps_bind {A B} (m : M DB A) (k : A -> M DB B) :
  Keeps obs m -> (forall a, Keeps obs (k a)) -> Keeps obs (bind m k).
Proof.
  intros Hm Hk w r w'. unfold bind.
  destruct (m w) as [[e|a] w1] eqn:Em; intros Heq.
  - inversion Heq; subst. eapply Hm; eauto.
  - rewrite (Hk a _ _ _ Heq). eapply Hm; eauto.
Qed.

Lemma keeps_tryCatch {A} (m : M DB A) (h : Error -> M DB A) :
  Keeps obs m -> (forall e, Keeps obs (h e)) -> Keeps obs (tryCatch m h).
Proof.
  intros Hm Hh w r w'. unfold tryCatch.
  destruct (m w) as [[e|a] w1] eqn:Em; intros Heq.
  - rewrite (Hh e _ _ _ Heq). eapply Hm; eauto.
  - inversion Heq; subst. eapply Hm; eauto.
Qed.

Lemma keeps_stmt {A} (f : DB -> option (A * DB)) :
  (forall d a d', f d = Some (a, d') -> obs d' = obs d) -> Keeps obs (stmt f).
Proof.
  intros Hf w [e|a] w' Heq.
  - apply stmt_inl in Heq as [_ ->]. reflexivity.
  - apply stmt_inr in Heq as [Heq _]. eauto.
Qed.

Lemma keeps_query {A} (f : DB -> A) : Keeps obs (query f).
Proof. apply keeps_stmt. intros d a d' Heq; now inversion Heq. Qed.

Lemma keeps_update (f : DB -> DB) :
  (forall d, obs (f d) = obs d) -> Keeps obs (update f).
Proof. intros Hf. apply keeps_stmt. intros d a d' Heq; inversion Heq; auto. Qed.

Lemma keeps_attempt {A} (e : Error) (r : option A) : Keeps obs (attempt e r).
Proof. destruct r; [apply keeps_ret | apply keeps_throw]. Qed.

Lemma keeps_existsTempDir : Keeps obs existsTempDir.
Proof. intros w r w' Heq; now inversion Heq. Qed.

Lemma keeps_setTempDir (b : bool) : Keeps obs (setTempDir b).
Proof. intros w r w' Heq; now inversion Heq. Qed.

Lemma keeps_removeTempDir (fails : bool) : Keeps obs (removeTempDir fails).
Proof. destruct fails; [apply keeps_throw | apply keeps_setTempDir]. Qed.

Lemma keeps_removeTempDirIfThere (fails : bool) : Keeps obs (removeTempDirIfThere fails).
Proof.
  apply keeps_bind; [apply keeps_existsTempDir|].
  intros []; [apply keeps_removeTempDir | apply keeps_ret].
Qed.

Lemma keeps_forEach {A} (l : list A) (body : A -> M DB unit) :
  (forall x, Keeps obs (body x)) -> Keeps obs (forEach l body).
Proof.
  intros Hb. induction l as [|x l IH]; simpl; [apply keeps_ret|].
  apply keeps_bind; auto.
Qed.

Lemma keeps_on_failure {A} (m : M DB A) : Keeps obs m -> KeepsOnFailure obs m.
Proof. intros Hm w e w' Heq _. eapply Hm; eauto. Qed.

Lemma keepsOnFailure_bind {A B} (m : M DB A) (k : A -> M DB B) :
  Keeps obs m -> (forall a, KeepsOnFailure obs (k a)) -> KeepsOnFailure obs (bind m k).
Proof.
  intros Hm Hk w e w' Heq Hne.
  apply bind_inl in Heq as [Heq | (a & w1 & Hma & Hka)].
  - eapply Hm; eauto.
  - rewrite (Hk a _ _ _ Hka Hne). eapply Hm; eauto.
Qed.

(** The commit point: a write, then the cleanup.  If this throws anything
    but a cleanup failure, the write did not happen. *)
Lemma keepsOnFailure_commit (f : DB -> DB) (fails : bool) :
  KeepsOnFailure obs (update f ;; removeTempDir fails).
Proof.
  intros w e w' Heq Hne.
  apply bind_inl in Heq as [Heq | (a & w1 & _ & Hrm)].
  - apply stmt_inl in Heq as [_ ->]. reflexivity.
  - destruct fails; simpl in Hrm; inversion Hrm; subst. congruence.
Qed.

(** [try { m } catch (error) { cleanup; throw error }] *)
Lemma keepsOnFailure_rethrow {A} (m : M DB A) (fails : bool) :
  KeepsOnFailure obs m ->
  KeepsOnFailure obs
    (tryCatch m (fun error => removeTempDirIfThere fails ;; throw error)).
Proof.
  intros Hm w e w' Heq Hne. unfold tryCatch in Heq.
  destruct (m w) as [[e0|a] w1] eqn:Em; [|discriminate].
  apply bind_inl in Heq as [Heq | (u & w2 & Hrm & Hthrow)].
  - unfold removeTempDirIfThere, bind, existsTempDir in Heq.
    destruct (tempDir w1); [|discriminate].
    destruct fails; simpl in Heq; inversion Heq; subst. congruence.
  - inversion Hthrow; subst.
    rewrite (keeps_removeTempDirIfThere fails _ Hrm).
    eapply Hm; eauto.
Qed.

(** A [try] whose handler rethrows returns only when its body does. *)
Lemma rethrow_inr {A} (m : M DB A) (fails : bool) w a w' :
  tryCatch m (fun error => removeTempDirIfThere fails ;; throw error) w = (inr a, w') ->
  m w = (inr a, w').
Proof.
  unfold tryCatch. destruct (m w) as [[e|a0] w1]; [|auto].
  intros Heq. apply bind_inr in Heq as (u & w2 & _ & Hthrow). discriminate.
Qed.

End Rules.

Create HintDb keeps.
#[export] Hint Resolve keeps_ret keeps_throw keeps_query keeps_attempt
  keeps_existsTempDir keeps_setTempDir keeps_removeTempDir
  keeps_removeTempDirIfThere : keeps.

(** Splits a goal [Keeps obs m] along the binds of [m]. *)
Ltac keeps_step :=
  first [ solve [auto with keeps]
        | apply keeps_bind; [|intros ?]
        | apply keeps_forEach; intros ?
        | apply keeps_update; intros ? ].

End EffectsFacts.

(* ================================================================== *)
(** * Sorting *)
(* ================================================================== *)

Module SortFacts.
Import Common.

Section Any.
Context {A num : Type} `{JsNum num}.
Variable compareFn : A -> A -> num.

Lemma insert_perm (x : A) (l : list A) : Permutation (insert compareFn x l) (x :: l).
Proof.
  induction l as [|y l IH]; simpl; [reflexivity|].
  destruct (after compareFn x y); [|reflexivity].
  rewrite IH. apply perm_swap.
Qed.

Lemma sort_perm (l : list A) : Permutation (sort compareFn l) l.
Proof.
  induction l as [|x l IH]; simpl; [reflexivity|].
  rewrite insert_perm. now constructor.
Qed.

Lemma sort_Forall (P : A -> Prop) (l : list A) :
  Forall P l -> Forall P (sort compareFn l).
Proof.
  intros Hl. eapply Permutation_Forall; [|exact Hl].
  symmetry; apply sort_perm.
Qed.

Lemma sort_In (x : A) (l : list A) : In x (sort compareFn l) <-> In x l.
Proof.
  split; apply Permutation_in; [|symmetry]; apply sort_perm.
Qed.

End Any.

(** Sorting pairs by their second component and forgetting the first is
    sorting the second components. *)
Lemma sort_map_snd {K A num} `{JsNum num} (compareFn : A -> A -> num) (l : list (K * A)) :
  map snd (sort (fun a b => compareFn (snd a) (snd b)) l) = sort compareFn (map snd l).
Proof.
  induction l as [|x l IH]; simpl; [reflexivity|].
  rewrite <- IH. generalize (sort (fun a b => compareFn (snd a) (snd b)) l) as s.
  induction s as [|y s IHs]; simpl; [reflexivity|].
  unfold after. destruct (ngtb _ _); simpl; [now rewrite IHs | reflexivity].
Qed.

(** ** Sorting by a descending key *)

Section Descending.
Context {A num : Type} `{JsNum num} (ok : num -> Prop) `{!OrderedOn ok}.
Variable key : A -> num.

Lemma after_descending (x y : A) :
  ok (key x) -> ok (key y) -> after (descending key) x y = ngtb (key y) (key x).
Proof. intros Hx Hy. unfold after, descending. now apply sub_positive. Qed.

Lemma insert_sorted (x : A) (l : list A) :
  ok (key x) -> Forall (fun y => ok (key y)) l ->
  StronglySorted (notBelow key) l ->
  StronglySorted (notBelow key) (insert (descending key) x l).
Proof.
  intros Hx Hok Hs. induction Hs as [|y l Hs IH Hy]; simpl; [repeat constructor|].
  inversion Hok as [|y' l' Hoky Hokl]; subst.
  rewrite after_descending by assumption.
  destruct (ngtb (key y) (key x)) eqn:Eyx.
  - constructor; [now apply IH|].
    eapply Permutation_Forall; [symmetry; apply insert_perm|].
    constructor; [|exact Hy].
    unfold notBelow. now apply gt_asym.
  - constructor; [now constructor|].
    constructor; [exact Eyx|].
    rewrite Forall_forall in *. intros z Hz.
    unfold notBelow. apply le_trans with (b := key y); auto.
    now apply Hy.
Qed.

Lemma sort_sorted (l : list A) :
  Forall (fun y => ok (key y)) l ->
  StronglySorted (notBelow key) (sort (descending key) l).
Proof.
  induction 1 as [|x l Hx Hl IH]; simpl; [constructor|].
  apply insert_sorted; [exact Hx | now apply sort_Forall | exact IH].
Qed.

Lemma tiedWith_not_greater (v : num) (x y : A) :
  ok v -> ok (key x) -> ok (key y) ->
  tiedWith key v x = true -> tiedWith key v y = true -> ngtb (key y) (key x) = false.
Proof.
  unfold tiedWith. intros Hv Hokx Hoky Hx Hy.
  apply andb_true_iff in Hx as [Hx1 Hx2], Hy as [Hy1 Hy2].
  apply negb_true_iff in Hx1, Hx2, Hy1, Hy2.
  apply le_trans with (b := v); auto.
Qed.

Lemma insert_stable (v : num) (x : A) (l : list A) :
  ok v -> ok (key x) -> Forall (fun y => ok (key y)) l ->
  filter (tiedWith key v) (insert (descending key) x l)
  = filter (tiedWith key v) (x :: l).
Proof.
  intros Hv Hx Hok. induction Hok as [|y l Hy Hl IH]; [reflexivity|].
  cbn [insert]. rewrite after_descending by assumption.
  destruct (ngtb (key y) (key x)) eqn:Eyx; [|reflexivity].
  cbn [filter] in *. rewrite IH.
  destruct (tiedWith key v x) eqn:Ex, (tiedWith key v y) eqn:Ey; try reflexivity.
  rewrite (tiedWith_not_greater Hv Hx Hy Ex Ey) in Eyx. discriminate.
Qed.

(** Stability: the results that tie keep the order they were pushed in. *)
Lemma sort_stable (v : num) (l : list A) :
  ok v -> Forall (fun y => ok (key y)) l ->
  filter (tiedWith key v) (sort (descending key) l) = filter (tiedWith key v) l.
Proof.
  intros Hv. induction 1 as [|x l Hx Hl IH]; [reflexivity|].
  cbn [sort]. rewrite insert_stable by (auto; now apply sort_Forall).
  cbn [filter]. now rewrite IH.
Qed.

End Descending.
End SortFacts.

Import Exact.

(** Exact rationals obey the order laws throughout. *)
Lemma Exact_ordered (ok : Q -> Prop) : OrderedOn ok.
Proof.
  assert (Hgt : forall a b : Q, ngtb a b = true <-> (b < a)%Q).
  { intros a b. cbn. rewrite negb_true_iff, <- not_true_iff_false, Qle_bool_iff.
    split; [apply Qnot_le_lt | apply Qlt_not_le]. }
  assert (Hle : forall a b : Q, ngtb a b = false <-> (a <= b)%Q).
  { intros a b. cbn. rewrite negb_false_iff. apply Qle_bool_iff. }
  constructor.
  - intros a b _ _. destruct (ngtb b a) eqn:E.
    + apply Hgt in E. apply Hgt. cbn. lra.
    + apply Hle in E. apply Hle. cbn. lra.
  - intros a b _ _ Hab. apply Hgt in Hab. apply Hle. lra.
  - intros a b c _ _ _ Hab Hbc. apply Hle in Hab, Hbc. apply Hle. lra.
Qed.

(* ================================================================== *)
(** * The order of the doubles the ranking compares *)
(* ================================================================== *)

(** The comparator of the ranking is a difference, [b.fusedScore -
    a.fusedScore], and the order it induces is the order of the scores
    only if the sign of the rounded difference is the sign of the exact
    one.  For the doubles above a positive double it is: none of them is
    NaN, their difference is never rounded to zero, and the order by
    exponent and mantissa is the order of the values. *)
Module FloatOrder.
Local Open Scope Z_scope.

(** ** Mantissas and exponents *)

Lemma digits2_pos_bounds (m : positive) :
  2 ^ (Zpos (digits2_pos m) - 1) <= Zpos m < 2 ^ Zpos (digits2_pos m).
Proof.
  induction m as [m IH|m IH|]; cbn [digits2_pos].
  - rewrite Pos2Z.inj_succ, Pos2Z.inj_xI.
    replace (Z.succ (Zpos (digits2_pos m)) - 1) with (Z.succ (Zpos (digits2_pos m) - 1))
      by lia.
    rewrite !Z.pow_succ_r by lia.
    generalize dependent (2 ^ (Zpos (digits2_pos m) - 1)).
    generalize (2 ^ Zpos (digits2_pos m)). intros; lia.
  - rewrite Pos2Z.inj_succ. change (Zpos m~0) with (2 * Zpos m).
    replace (Z.succ (Zpos (digits2_pos m)) - 1) with (Z.succ (Zpos (digits2_pos m) - 1))
      by lia.
    rewrite !Z.pow_succ_r by lia.
    generalize dependent (2 ^ (Zpos (digits2_pos m) - 1)).
    generalize (2 ^ Zpos (digits2_pos m)). intros; lia.
  - simpl. lia.
Qed.

Lemma iter_xO_value (m d : positive) : Zpos (Pos.iter xO m d) = Zpos m * 2 ^ Zpos d.
Proof.
  induction d as [|d IH] using Pos.peano_ind.
  - simpl. lia.
  - rewrite Pos.iter_succ. change (Zpos (Pos.iter xO m d)~0) with (2 * Zpos (Pos.iter xO m d)).
    rewrite IH, Pos2Z.inj_succ, Z.pow_succ_r by lia. lia.
Qed.

Lemma shl_align_value (m : positive) (e e' : Z) :
  e' <= e -> Zpos (fst (shl_align m e e')) = Zpos m * 2 ^ (e - e').
Proof.
  intros He. unfold shl_align. destruct (e' - e) as [|d|d] eqn:E.
  - replace (e - e') with 0 by lia. simpl. lia.
  - lia.
  - cbn [fst]. rewrite iter_xO_value. f_equal. f_equal. lia.
Qed.

Lemma shl_align_exponent (m : positive) (e e' : Z) :
  Z.min e e' <= snd (shl_align m e e') .
Proof.
  unfold shl_align. destruct (e' - e) as [|d|d] eqn:E; cbn [snd]; lia.
Qed.

Lemma canonical_digits (m : positive) (e : Z) :
  bounded prec emax m e = true ->
  Zpos (digits2_pos m) <= prec
  /\ emin <= e
  /\ (emin < e -> Zpos (digits2_pos m) = prec).
Proof.
  unfold bounded, canonical_mantissa, fexp. intros H.
  apply andb_true_iff in H as [H _]. apply Z.eqb_eq in H. lia.
Qed.

(** On canonical mantissas the order by exponent, then mantissa, is the
    order of the values. *)
Lemma compare_values (ma : positive) (ea : Z) (mb : positive) (eb : Z) :
  bounded prec emax ma ea = true -> bounded prec emax mb eb = true ->
  match ea ?= eb with
  | Lt => Lt
  | Gt => Gt
  | Eq => Pos.compare_cont Eq ma mb
  end
  = (Zpos ma * 2 ^ (ea - Z.min eb ea) ?= Zpos mb * 2 ^ (eb - Z.min eb ea)).
Proof.
  intros Ha Hb.
  apply canonical_digits in Ha as (Hda & Hea & Hna).
  apply canonical_digits in Hb as (Hdb & Heb & Hnb).
  pose proof (digits2_pos_bounds ma) as [Hla Hua].
  pose proof (digits2_pos_bounds mb) as [Hlb Hub].
  assert (Hprec : 0 < prec) by reflexivity.
  assert (Hpow : 2 ^ prec = 2 ^ (prec - 1) * 2).
  { replace prec with (Z.succ (prec - 1)) at 1 by lia. rewrite Z.pow_succ_r by lia. lia. }
  destruct (Z.compare_spec ea eb) as [Heq|Hlt|Hgt].
  - subst eb. rewrite Z.min_id, Z.sub_diag, Z.pow_0_r, !Z.mul_1_r. reflexivity.
  - rewrite Z.min_r by lia. rewrite Z.sub_diag, Z.pow_0_r, Z.mul_1_r.
    symmetry. apply Z.compare_lt_iff.
    assert (H2 : 2 ^ 1 <= 2 ^ (eb - ea)) by (apply Z.pow_le_mono_r; lia).
    assert (Hua' : 2 ^ Zpos (digits2_pos ma) <= 2 ^ prec) by (apply Z.pow_le_mono_r; lia).
    rewrite Hnb in Hlb by lia. change (2 ^ 1) with 2 in H2. nia.
  - rewrite Z.min_l by lia. rewrite Z.sub_diag, Z.pow_0_r, Z.mul_1_r.
    symmetry. apply Z.compare_gt_iff.
    assert (H2 : 2 ^ 1 <= 2 ^ (ea - eb)) by (apply Z.pow_le_mono_r; lia).
    assert (Hub' : 2 ^ Zpos (digits2_pos mb) <= 2 ^ prec) by (apply Z.pow_le_mono_r; lia).
    rewrite Hna in Hla by lia. change (2 ^ 1) with 2 in H2. nia.
Qed.

(** ** Rounding keeps the sign *)

Lemma shr_1_half (mrs : shr_record) :
  0 <= shr_m mrs -> shr_m (shr_1 mrs) = shr_m mrs / 2.
Proof.
  destruct mrs as [m r s]. cbn [shr_m]. intros Hm.
  destruct m as [|[p|p|]|p]; cbn [shr_1 shr_m]; try reflexivity.
  - apply Z.div_unique with (r := 1); lia.
  - apply Z.div_unique with (r := 0); lia.
  - lia.
Qed.

Lemma iter_shr_1 (p : positive) :
  forall mrs : shr_record,
    0 <= shr_m mrs -> shr_m (SpecFloat.iter_pos shr_1 p mrs) = shr_m mrs / 2 ^ Zpos p.
Proof.
  assert (Hhalf : forall m q, 0 <= m -> 0 <= m / 2 ^ Zpos q)
    by (intros m q Hm; apply Z.div_pos; [exact Hm | apply Z.pow_pos_nonneg; lia]).
  induction p as [p IH|p IH|]; intros mrs Hm; cbn [SpecFloat.iter_pos].
  - assert (H1 : 0 <= shr_m (shr_1 mrs)) by (rewrite shr_1_half by exact Hm; apply Z.div_pos; lia).
    rewrite IH, IH, shr_1_half by (try rewrite IH; auto).
    rewrite !Z.div_div by (try apply Z.pow_pos_nonneg; lia).
    f_equal. change (Zpos p~1) with (2 * Zpos p + 1).
    replace (2 * Zpos p + 1) with (Z.succ (Zpos p + Zpos p)) by lia.
    rewrite Z.pow_succ_r, Z.pow_add_r by lia. lia.
  - rewrite IH, IH by (try rewrite IH; auto).
    rewrite !Z.div_div by (try apply Z.pow_pos_nonneg; lia).
    f_equal. change (Zpos p~0) with (2 * Zpos p).
    replace (2 * Zpos p) with (Zpos p + Zpos p) by lia.
    rewrite Z.pow_add_r by lia. lia.
  - rewrite shr_1_half by exact Hm. reflexivity.
Qed.

Lemma shr_record_of_loc_m (m : Z) (l : location) : shr_m (shr_record_of_loc m l) = m.
Proof. destruct l as [|[]]; reflexivity. Qed.

Lemma shr_fexp_positive (m e : Z) (l : location) :
  0 < m -> emin <= e ->
  0 < shr_m (fst (shr_fexp prec emax m e l))
  /\ emin <= snd (shr_fexp prec emax m e l).
Proof.
  intros Hm He. unfold shr_fexp, shr.
  destruct m as [|p|p]; try lia. cbn [Zdigits2].
  pose proof (digits2_pos_bounds p) as [Hl Hu].
  assert (Hprec : 0 < prec) by reflexivity.
  unfold fexp.
  destruct (Z.max (Zpos (digits2_pos p) + e - prec) (emin) - e) as [|q|q] eqn:En;
    cbn [fst snd]; rewrite ?shr_record_of_loc_m; try lia.
  rewrite iter_shr_1 by (rewrite shr_record_of_loc_m; lia).
  rewrite shr_record_of_loc_m. split; [|lia].
  apply Z.div_str_pos. split; [apply Z.pow_pos_nonneg; lia|].
  apply Z.le_trans with (2 ^ (Zpos (digits2_pos p) - 1)); [|exact Hl].
  apply Z.pow_le_mono_r; lia.
Qed.

Lemma round_nearest_even_positive (m : Z) (l : location) :
  0 < m -> 0 < round_nearest_even m l.
Proof.
  intros Hm. unfold round_nearest_even.
  destruct l as [|[]]; try destruct (Z.even m); lia.
Qed.

Lemma binary_round_aux_sign (sx : bool) (mx ex : Z) (lx : location) :
  0 < mx -> emin <= ex ->
  SFcompare (S754_zero false) (binary_round_aux prec emax sx mx ex lx)
  = Some (if sx then Gt else Lt).
Proof.
  intros Hm He. unfold binary_round_aux.
  pose proof (@shr_fexp_positive mx ex lx Hm He) as [Hm1 He1].
  destruct (shr_fexp prec emax mx ex lx) as [mrs1 e1]. cbn [fst snd] in Hm1, He1.
  pose proof (@round_nearest_even_positive _ (loc_of_shr_record mrs1) Hm1) as Hr.
  pose proof (@shr_fexp_positive _ _ loc_Exact Hr He1) as [Hm2 _].
  destruct (shr_fexp prec emax _ e1 loc_Exact) as [mrs2 e2]. cbn [fst] in Hm2.
  destruct (shr_m mrs2) as [|m2|m2]; try lia.
  destruct (e2 <=? emax - prec); reflexivity.
Qed.

Lemma binary_round_sign (sx : bool) (mx : positive) (ex : Z) :
  emin <= ex ->
  SFcompare (S754_zero false) (binary_round prec emax sx mx ex)
  = Some (if sx then Gt else Lt).
Proof.
  intros He. unfold binary_round.
  pose proof (shl_align_exponent mx ex (fexp prec emax (Zpos (digits2_pos mx) + ex))) as Hz.
  destruct (shl_align mx ex _) as [mz ez]. cbn [snd] in Hz.
  apply binary_round_aux_sign; [lia|].
  unfold fexp in Hz. lia.
Qed.

(** The sign of a difference of two positive numbers is their order. *)
Lemma SFsub_sign (ma : positive) (ea : Z) (mb : positive) (eb : Z) :
  bounded prec emax ma ea = true -> bounded prec emax mb eb = true ->
  SFltb (S754_zero false)
        (SFsub prec emax (S754_finite false mb eb) (S754_finite false ma ea))
  = SFltb (S754_finite false ma ea) (S754_finite false mb eb).
Proof.
  intros Ha Hb. unfold SFltb at 2. cbn [SFcompare].
  rewrite (@compare_values ma ea mb eb Ha Hb).
  pose proof (@canonical_digits ma ea Ha) as (_ & Hea & _).
  pose proof (@canonical_digits mb eb Hb) as (_ & Heb & _).
  unfold SFsub, SFltb. cbn [cond_Zopp].
  rewrite !shl_align_value by lia.
  set (va := Zpos ma * 2 ^ (ea - Z.min eb ea)).
  set (vb := Zpos mb * 2 ^ (eb - Z.min eb ea)).
  unfold binary_normalize.
  destruct (vb - va) as [|d|d] eqn:Ed.
  - replace (va ?= vb) with Eq by (symmetry; apply Z.compare_eq_iff; lia). reflexivity.
  - rewrite binary_round_sign by lia.
    replace (va ?= vb) with Lt by (symmetry; apply Z.compare_lt_iff; lia). reflexivity.
  - rewrite binary_round_sign by lia.
    replace (va ?= vb) with Gt by (symmetry; apply Z.compare_gt_iff; lia). reflexivity.
Qed.

(** ** The order of the doubles above a positive one *)

Lemma finite_ltb (m1 : positive) (e1 : Z) (m2 : positive) (e2 : Z) :
  SFltb (S754_finite false m1 e1) (S754_finite false m2 e2) = true
  <-> e1 < e2 \/ (e1 = e2 /\ (m1 < m2)%positive).
Proof.
  unfold SFltb. cbn [SFcompare].
  destruct (Z.compare_spec e1 e2) as [Heq|Hlt|Hgt].
  - change (Pos.compare_cont Eq m1 m2) with (Pos.compare m1 m2).
    destruct (Pos.compare_spec m1 m2); split; intros; try discriminate; try lia; auto.
  - split; intros; auto.
  - split; intros; try discriminate; lia.
Qed.

Lemma finite_ltb_false (m1 : positive) (e1 : Z) (m2 : positive) (e2 : Z) :
  SFltb (S754_finite false m1 e1) (S754_finite false m2 e2) = false
  <-> e2 < e1 \/ (e1 = e2 /\ (m2 <= m1)%positive).
Proof.
  pose proof (finite_ltb m1 e1 m2 e2) as Hlt.
  destruct (SFltb _ _); split; intros H; try discriminate; try reflexivity.
  - exfalso. assert (Hl : e1 < e2 \/ e1 = e2 /\ (m1 < m2)%positive) by now apply Hlt.
    lia.
  - lia.
Qed.

(** What lies above a positive double is a positive finite double or
    [+Infinity]: never NaN, zero or a negative number. *)
Lemma above_positive (t x : float) (mt : positive) (et : Z) :
  Prim2SF t = S754_finite false mt et ->
  (t <? x)%float = true ->
  (exists m e, Prim2SF x = S754_finite false m e /\ bounded prec emax m e = true)
  \/ Prim2SF x = S754_infinity false.
Proof.
  intros Ht Hlt. rewrite ltb_spec, Ht in Hlt.
  pose proof (Prim2SF_valid x) as Hv.
  destruct (Prim2SF x) as [s|s| |s m e]; unfold SFltb in Hlt; cbn [SFcompare] in Hlt.
  - discriminate.
  - destruct s; [discriminate | now right].
  - discriminate.
  - destruct s; [discriminate|]. left. exists m, e. split; [reflexivity | exact Hv].
Qed.

Section Above.
Variable t : float.
Variable mt : positive.
Variable et : Z.
Hypothesis Ht : Prim2SF t = S754_finite false mt et.

Lemma sub_sign_above (a b : float) :
  (t <? a)%float = true -> (t <? b)%float = true ->
  (0 <? b - a)%float = (a <? b)%float.
Proof.
  intros Ha Hb. rewrite !ltb_spec, sub_spec.
  change (Prim2SF 0) with (S754_zero false).
  destruct (@above_positive t a mt et Ht Ha) as [(ma & ea & Ea & Va)|Ea],
           (@above_positive t b mt et Ht Hb) as [(mb & eb & Eb & Vb)|Eb];
    rewrite Ea, Eb; try reflexivity.
  now apply SFsub_sign.
Qed.

Lemma ltb_asym_above (a b : float) :
  (t <? a)%float = true -> (t <? b)%float = true ->
  (b <? a)%float = true -> (a <? b)%float = false.
Proof.
  intros Ha Hb. rewrite !ltb_spec.
  destruct (@above_positive t a mt et Ht Ha) as [(ma & ea & Ea & _)|Ea],
           (@above_positive t b mt et Ht Hb) as [(mb & eb & Eb & _)|Eb];
    rewrite Ea, Eb; try reflexivity; try discriminate.
  rewrite finite_ltb, finite_ltb_false. lia.
Qed.

Lemma not_ltb_trans_above (a b c : float) :
  (t <? a)%float = true -> (t <? b)%float = true -> (t <? c)%float = true ->
  (b <? a)%float = false -> (c <? b)%float = false -> (c <? a)%float = false.
Proof.
  intros Ha Hb Hc. rewrite !ltb_spec.
  destruct (@above_positive t a mt et Ht Ha) as [(ma & ea & Ea & _)|Ea],
           (@above_positive t b mt et Ht Hb) as [(mb & eb & Eb & _)|Eb],
           (@above_positive t c mt et Ht Hc) as [(mc & ec & Ec & _)|Ec];
    rewrite Ea, Eb, Ec; try reflexivity; try discriminate.
  rewrite !finite_ltb_false. lia.
Qed.

End Above.

End FloatOrder.


(* ================================================================== *)
(** * [AdvancedCodebaseIndex] *)
(* ================================================================== *)

Module AdvancedFacts.
Import JsString Common Effects EffectsFacts Advanced.

Section Service.
Context {num : Type} `{JsNum num} `{JsMath num}.
Variable env : Env num.
Local Open Scope effect_scope.

(** ** The clearing statements *)

Lemma chunkIdsOf_deleteChunks (repoId : nat) (d : Store num) :
  chunkIdsOf repoId (deleteChunks repoId d) = [].
Proof.
  unfold chunkIdsOf, deleteChunks; simpl.
  rewrite filter_none; [reflexivity|].
  apply Forall_forall. intros c Hc. apply filter_In in Hc as [_ Hc].
  now apply negb_true_iff in Hc.
Qed.

(** Run after [DELETE FROM chunks], the [DELETE FROM symbols] finds no chunk
    id to select on and removes no row. *)
Lemma deleteSymbols_after_deleteChunks (repoId : nat) (d : Store num) :
  symbols (deleteSymbols repoId (deleteChunks repoId d)) = symbols d.
Proof.
  unfold deleteSymbols. rewrite chunkIdsOf_deleteChunks. simpl.
  induction (symbols d) as [|s l IH]; simpl; [reflexivity | now rewrite IH].
Qed.

(** ** The stored commit identifier *)

Lemma storedCommit_ext (name : string) (d d' : Store num) :
  repositories d' = repositories d -> storedCommit name d' = storedCommit name d.
Proof. unfold storedCommit, selectRepository. now intros ->. Qed.

Lemma insertRepository_storedCommit (name : string) (d d' : Store num) (newId : nat) :
  insertRepository name d = Some (newId, d') ->
  storedCommit name d' = storedCommit name d.
Proof.
  unfold insertRepository, storedCommit.
  destruct (selectRepository name d) eqn:Esel; [discriminate|].
  intros Heq; inversion Heq; subst; clear Heq.
  unfold selectRepository in *; simpl.
  rewrite find_app_none by exact Esel. simpl.
  now rewrite String.eqb_refl.
Qed.

Lemma getOrCreateRepository_keeps_commit (name : string) :
  Keeps (storedCommit name) (getOrCreateRepository (num := num) name).
Proof.
  unfold getOrCreateRepository. keeps_step; [keeps_step|].
  destruct a; [keeps_step|].
  apply keeps_stmt. intros d newId d'. apply insertRepository_storedCommit.
Qed.

Lemma storeChunk_keeps_repositories (repoId : nat) (relativePath language : string)
  (chunk : Chunker.Chunk) :
  Keeps (@repositories num) (storeChunk env repoId relativePath language chunk).
Proof.
  unfold storeChunk. keeps_step.
  - apply keeps_stmt. intros d a d'. unfold insertChunk.
    destruct (memString _ _); intros Heq; inversion Heq; reflexivity.
  - keeps_step; [keeps_step; keeps_step; reflexivity|].
    keeps_step. reflexivity.
Qed.

Lemma indexFile_keeps_repositories (repoId : nat) (file : string * option string) :
  Keeps (@repositories num) (indexFile env repoId file).
Proof.
  unfold indexFile. keeps_step; [keeps_step|].
  keeps_step; [|keeps_step].
  keeps_step. apply storeChunk_keeps_repositories.
Qed.

Lemma indexFiles_keeps_repositories (repoId : nat) (files : list (string * option string)) :
  forall total, Keeps (@repositories num) (indexFiles env repoId files total).
Proof.
  induction files as [|file files IH]; intros total; simpl; [keeps_step|].
  keeps_step; [apply indexFile_keeps_repositories | apply IH].
Qed.

Lemma keeps_repositories_commit {A} (name : string) (m : M (Store num) A) :
  Keeps (@repositories num) m -> Keeps (storedCommit name) m.
Proof.
  intros Hm w r w' Heq. apply storedCommit_ext. eapply Hm; eauto.
Qed.

(** Whatever makes [indexRepository] throw, short of a failed cleanup, the
    stored commit identifier is the one from before the call. *)
Lemma indexRepository_failure_keeps_commit (repoName branch : string) :
  KeepsOnFailure (storedCommit repoName) (indexRepository env repoName branch).
Proof.
  unfold indexRepository.
  apply keepsOnFailure_bind; [unfold initialize; keeps_step|]. intros _.
  apply keepsOnFailure_rethrow. unfold indexPass.
  apply keepsOnFailure_bind; [keeps_step|]. intros _.
  apply keepsOnFailure_bind; [keeps_step|]. intros checkout.
  apply keepsOnFailure_bind; [keeps_step|]. intros _.
  apply keepsOnFailure_bind; [keeps_step|]. intros currentHash.
  apply keepsOnFailure_bind; [apply getOrCreateRepository_keeps_commit|]. intros repoId.
  apply keepsOnFailure_bind; [keeps_step; reflexivity|]. intros _.
  apply keepsOnFailure_bind; [keeps_step; reflexivity|]. intros _.
  apply keepsOnFailure_bind; [keeps_step; reflexivity|]. intros _.
  apply keepsOnFailure_bind;
    [apply keeps_repositories_commit, indexFiles_keeps_repositories|]. intros totalChunks.
  apply keepsOnFailure_commit.
Qed.

(** ** The read path *)

Lemma lexicalSearch_readonly (repoId : nat) (query : string) :
  Keeps (fun d => d) (lexicalSearch env repoId query).
Proof.
  unfold lexicalSearch. keeps_step; [|keeps_step].
  apply keeps_stmt. intros d a d'.
  destruct (selectLexical env repoId query d); intros Heq; now inversion Heq.
Qed.

Lemma vectorSearch_readonly (repoId : nat) (query : string) :
  Keeps (fun d => d) (vectorSearch env repoId query).
Proof.
  unfold vectorSearch. destruct (embeddingModel env); repeat keeps_step.
Qed.

Lemma structuralSearch_readonly (repoId : nat) (query : string) :
  Keeps (fun d => d) (structuralSearch repoId query).
Proof. unfold structuralSearch. repeat keeps_step. Qed.

Lemma keeps_snd {X A} (obs : Store num -> X) (m : M (Store num) A) w :
  Keeps obs m -> obs (db (snd (m w))) = obs (db w).
Proof. intros Hm. destruct (m w) as [r w'] eqn:Em. eapply Hm; eauto. Qed.

Lemma bind_keeps_snd {A B} (m : M (Store num) A) (k : A -> M (Store num) B) w :
  (forall a, Keeps (fun d => d) (k a)) -> db (snd (bind m k w)) = db (snd (m w)).
Proof.
  intros Hk. unfold bind. destruct (m w) as [[e|a] w1]; [reflexivity|].
  apply (@keeps_snd _ _ (fun d => d) (k a) w1), Hk.
Qed.

Lemma getOrCreateRepository_db (repoName : string) (w : World (Store num)) :
  db (snd (getOrCreateRepository repoName w))
  = match selectRepository repoName (db w), faultIn w with
    | Some _, _ => db w
    | None, Some 0 => db w
    | None, Some 1 => db w
    | None, _ => created repoName (db w)
    end.
Proof.
  unfold getOrCreateRepository, bind, query, stmt, insertRepository.
  destruct (faultIn w) as [[|[|n]]|];
    destruct (selectRepository repoName (db w)) eqn:Esel; simpl;
    rewrite ?Esel; reflexivity.
Qed.

Lemma searchRelevantChunks_db (repoName query : string) (limit : nat)
  (w : World (Store num)) :
  db (snd (searchRelevantChunks env repoName query limit w))
  = match selectRepository repoName (db w), faultIn w with
    | Some _, _ => db w
    | None, Some 0 => db w
    | None, Some 1 => db w
    | None, Some 2 => db w
    | None, _ => created repoName (db w)
    end.
Proof.
  unfold searchRelevantChunks.
  assert (Hrest : forall repoId,
             Keeps (fun d : Store num => d)
               (lexicalResults <- lexicalSearch env repoId query ;;
                vectorResults <- vectorSearch env repoId query ;;
                structuralResults <- structuralSearch repoId query ;;
                ret (slice (fuseAndRerank lexicalResults vectorResults
                                          structuralResults query) 0 limit))).
  { intros repoId.
    apply keeps_bind; [apply lexicalSearch_readonly|]. intros lexicalResults.
    apply keeps_bind; [apply vectorSearch_readonly|]. intros vectorResults.
    apply keeps_bind; [apply structuralSearch_readonly|]. intros structuralResults.
    apply keeps_ret. }
  unfold bind at 1, initialize, Effects.query, stmt at 1.
  destruct (faultIn w) as [[|[|[|n]]]|] eqn:Ef; simpl;
    try (destruct (selectRepository repoName (db w)); reflexivity);
    rewrite (bind_keeps_snd _ _ _ Hrest), getOrCreateRepository_db; reflexivity.
Qed.

(** C9, as the code has it.  [searchRelevantChunks] never changes the
    chunks, the symbols or the full-text table, and leaves the repositories
    table alone when the repository has a record.  For a name without a
    record it appends one (no commit, no timestamp, zero chunks), unless
    one of the first three database statements of the call fails. *)
Theorem searchRelevantChunks_writes_only_a_new_repository
  (repoName query : string) (limit : nat) (w : World (Store num)) :
  let after := db (snd (searchRelevantChunks env repoName query limit w)) in
  chunks after = chunks (db w)
  /\ symbols after = symbols (db w)
  /\ chunks_fts after = chunks_fts (db w)
  /\ repositories after
     = match selectRepository repoName (db w), faultIn w with
       | Some _, _ => repositories (db w)
       | None, Some 0 => repositories (db w)
       | None, Some 1 => repositories (db w)
       | None, Some 2 => repositories (db w)
       | None, _ =>
           repositories (db w) ++
             [ {| r_id := S (repositorySeq (db w)); r_name := repoName;
                  r_lastCommitHash := None; r_lastIndexed := None;
                  r_totalChunks := 0 |} ]
       end.
Proof.
  intros after. subst after. rewrite searchRelevantChunks_db.
  destruct (selectRepository repoName (db w)); [auto|].
  destruct (faultIn w) as [[|[|[|n]]]|]; auto.
Qed.

Lemma Forall_slice {A} (P : A -> Prop) (l : list A) (a b : nat) :
  Forall P l -> Forall P (slice l a b).
Proof.
  intros Hl. unfold slice. apply Forall_forall. intros x Hx.
  rewrite Forall_forall in Hl. apply Hl.
  rewrite <- (firstn_skipn a l). apply in_or_app; right.
  rewrite <- (firstn_skipn (b - a) (skipn a l)). apply in_or_app; now left.
Qed.

Lemma fuseAndRerank_empty_chunks (lexical : JsMap BM25Score)
  (vector structural : JsMap num) (query : string) :
  Forall (fun r => chunk r = emptyObject)
         (fuseAndRerank lexical vector structural query).
Proof.
  unfold fuseAndRerank. apply SortFacts.sort_Forall.
  apply Forall_forall. intros r Hr.
  apply filter_In in Hr as [Hr _]. apply in_map_iff in Hr as (chunkId & <- & _).
  reflexivity.
Qed.

(** C10.  Every result [searchRelevantChunks] returns carries the empty
    object as its [chunk]: no id, content, kind, symbols, location, file,
    language or embedding. *)
Theorem searchRelevantChunks_returns_empty_chunks
  (repoName query : string) (limit : nat) (w w' : World (Store num))
  (results : list SearchResult) :
  searchRelevantChunks env repoName query limit w = (inr results, w') ->
  Forall (fun r => chunk r = emptyObject) results.
Proof.
  unfold searchRelevantChunks. intros Hrun.
  apply bind_inr in Hrun as (_ & w1 & _ & Hrun).
  apply bind_inr in Hrun as (repoId & w2 & _ & Hrun).
  apply bind_inr in Hrun as (lexicalResults & w3 & _ & Hrun).
  apply bind_inr in Hrun as (vectorResults & w4 & _ & Hrun).
  apply bind_inr in Hrun as (structuralResults & w5 & _ & Hrun).
  inversion Hrun; subst.
  apply Forall_slice, fuseAndRerank_empty_chunks.
Qed.

End Service.
End AdvancedFacts.


Module RankingFacts.
Import JsString Common Effects Advanced SortFacts.

Lemma memString_In (k : string) (l : list string) : memString k l = true <-> In k l.
Proof.
  unfold memString. rewrite existsb_exists. split.
  - intros (x & Hx & Heq). apply String.eqb_eq in Heq. now subst.
  - intros Hk. exists k. split; [exact Hk | apply String.eqb_refl].
Qed.

Lemma setOf_In (k : string) (l : list string) : In k (setOf l) <-> In k l.
Proof.
  unfold setOf.
  assert (Hgen : forall seen,
             In k (fold_left (fun seen k => if memString k seen then seen else seen ++ [k])
                             l seen)
             <-> In k seen \/ In k l).
  { induction l as [|x l IH]; intros seen; simpl; [tauto|].
    rewrite IH. destruct (memString x seen) eqn:Ex.
    - apply memString_In in Ex. split; [tauto|]. intros [?|[<-|?]]; auto.
    - rewrite in_app_iff; simpl. tauto. }
  rewrite Hgen. simpl. tauto.
Qed.

Lemma map_snd_filter {K A} (p : A -> bool) (l : list (K * A)) :
  map snd (filter (fun r => p (snd r)) l) = filter p (map snd l).
Proof.
  induction l as [|x l IH]; simpl; [reflexivity|].
  destruct (p (snd x)); simpl; now rewrite IH.
Qed.

Section Ranking.
Context {num : Type} `{JsNum num}.
Local Open Scope js_scope.

Lemma fuseAndRerank_traced (lexical : JsMap BM25Score) (vector structural : JsMap num)
  (query : string) :
  map snd (fuseAndRerankTraced lexical vector structural query)
  = fuseAndRerank lexical vector structural query.
Proof.
  unfold fuseAndRerankTraced, fuseAndRerank, pushedResults.
  rewrite sort_map_snd.
  rewrite (map_snd_filter (fun r => fusedScore r .> nlit 1 10)).
  now rewrite map_map.
Qed.

Lemma pushedResults_In (lexical : JsMap BM25Score) (vector structural : JsMap num)
  (id : string) (r : SearchResult) :
  In (id, r) (pushedResults lexical vector structural) <->
  In id (allChunkIds lexical vector structural)
  /\ r = fuse lexical vector structural id
  /\ fusedScore r .> nlit 1 10 = true.
Proof.
  unfold pushedResults. rewrite filter_In, in_map_iff. simpl. split.
  - intros [(id' & Heq & Hid) Hkeep]. inversion Heq; subst. auto.
  - intros (Hid & -> & Hkeep). split; [now exists id | exact Hkeep].
Qed.

(** The ranking in any arithmetic whose comparison obeys the order laws on
    the scores that are pushed.  [ranked] is the returned array with the
    chunk id of each result written next to it. *)
Lemma fuseAndRerank_ranked_where_ordered
  (lexical : JsMap BM25Score) (vector structural : JsMap num) (query : string) :
  let ids := allChunkIds lexical vector structural in
  let pushed := pushedResults lexical vector structural in
  let ranked := fuseAndRerankTraced lexical vector structural query in
  let key := fun r : string * SearchResult => fusedScore (snd r) in
  OrderedOn (fun s => In s (map key pushed)) ->
  map snd ranked = fuseAndRerank lexical vector structural query
  /\ (forall id, In id ids <->
                 In id (mapKeys lexical) \/ In id (mapKeys vector)
                 \/ In id (mapKeys structural))
  /\ (forall id,
        let r := fuse lexical vector structural id in
        lexicalScore r = match mapGet lexical id with
                         | Some l => orZero (score l)
                         | None => nlit 0 1
                         end
        /\ vectorScore r = getOr0 vector id
        /\ structuralScore r = getOr0 structural id
        /\ fusedScore r
           = nlit 3 10 .* normalizeScore (lexicalScore r) (nlit 0 1) (nlit 10 1)
             .+ nlit 4 10 .* vectorScore r
             .+ nlit 3 10 .* structuralScore r)
  /\ (forall id r, In (id, r) ranked <->
                   In id ids /\ r = fuse lexical vector structural id
                   /\ fusedScore r .> nlit 1 10 = true)
  /\ StronglySorted (fun x y => key y .> key x = false) ranked
  /\ (forall x, In x pushed ->
                filter (tiedWith key (key x)) ranked
                = filter (tiedWith key (key x)) pushed).
Proof.
  intros ids pushed ranked key Hordered.
  assert (Hranked : ranked = sort (descending key) pushed) by reflexivity.
  assert (Hok : Forall (fun y => In (key y) (map key pushed)) pushed)
    by (apply Forall_forall; intros y Hy; now apply in_map).
  split; [apply fuseAndRerank_traced|].
  split.
  { intros id. subst ids. unfold allChunkIds. rewrite setOf_In, !in_app_iff. tauto. }
  split.
  { intros id r. repeat split. }
  split.
  { intros id r. rewrite Hranked, sort_In. apply pushedResults_In. }
  split.
  { rewrite Hranked. now apply (sort_sorted (ok := fun s => In s (map key pushed))). }
  intros x Hx. rewrite Hranked.
  apply (sort_stable (ok := fun s => In s (map key pushed))); [now apply in_map | exact Hok].
Qed.

End Ranking.

Import Scenario.
Import Float64.

(** C3, as stated, fails on the tie-break: three hits with one fused score
    come back as they went in, [b], [c], [a], which no order on chunk ids
    explains. *)
Lemma tied_results_keep_insertion_order :
  let ranked := fuseAndRerankTraced (H := Float64.num) tiedLexical [] [] "title" in
  map fst ranked = ["b.md:1-9:section"; "c.md:1-9:section"; "a.md:1-9:section"]
  /\ forallb (fun r => PrimFloat.eqb (fusedScore (snd r))
                                     (fusedScore (fuse (H := Float64.num) tiedLexical [] []
                                                       "b.md:1-9:section")))
             ranked = true
  /\ ~ StronglySorted (specifiedOrder (H := Float64.num)) ranked.
Proof.
  intros ranked.
  assert (Hranked : ranked
                    = map (fun id => (id, fuse (H := Float64.num) tiedLexical [] [] id))
                          ["b.md:1-9:section"; "c.md:1-9:section"; "a.md:1-9:section"])
    by (vm_compute; reflexivity).
  split; [now rewrite Hranked|].
  split; [vm_compute; reflexivity|].
  rewrite Hranked. cbn [map]. intros Hsorted.
  inversion Hsorted as [|x l _ Hfirst]; subst.
  inversion Hfirst as [|y l' _ Hrest]; subst.
  inversion Hrest as [|z l'' [_ Hid] _]; subst.
  assert (Habs : String.leb "b.md:1-9:section" "a.md:1-9:section" = true)
    by (apply Hid; vm_compute; reflexivity).
  discriminate.
Qed.

(** The doubles above [0.1] obey the order laws. *)
Lemma Float64_ordered : OrderedOn (fun s : float => ngtb s (nlit 1 10) = true).
Proof.
  assert (Hshape : exists m e, Prim2SF (nlit 1 10) = S754_finite false m e)
    by (eexists; eexists; vm_compute; reflexivity).
  destruct Hshape as (mt & et & Ht).
  assert (Hzero : nlit 0 1 = 0%float) by (vm_compute; reflexivity).
  constructor.
  - intros a b Ha Hb. rewrite Hzero. cbn [ngtb nsub Float64.num] in *.
    exact (@FloatOrder.sub_sign_above _ mt et Ht a b Ha Hb).
  - intros a b Ha Hb. cbn [ngtb Float64.num] in *.
    exact (@FloatOrder.ltb_asym_above _ mt et Ht a b Ha Hb).
  - intros a b c Ha Hb Hc. cbn [ngtb Float64.num] in *.
    exact (@FloatOrder.not_ltb_trans_above _ mt et Ht a b c Ha Hb Hc).
Qed.

(** C3, as the code has it, on the doubles it runs on.  The candidates
    are the keys of the three result maps; the fused score of each is
    [0.3 * normalizeScore(lexicalScore, 0, 10) + 0.4 * vectorScore
     + 0.3 * structuralScore]; exactly the candidates whose fused score is
    above [0.1] are returned; no result is followed by one with a higher
    fused score; and results that tie stand in the order of the candidate
    set (lexical keys, then vector keys, then structural keys, each in
    insertion order) -- not in the order of their chunk ids.  Nothing is
    assumed of the scores that come in: a candidate whose fused score is
    NaN fails the test against [0.1] and is not among those the sort
    compares.  [ranked] is the returned array with the chunk id of each
    result written next to it. *)
Theorem fuseAndRerank_ranks_by_fused_score
  (lexical : JsMap (BM25Score (num := float))) (vector structural : JsMap float)
  (query : string) :
  let ids := allChunkIds lexical vector structural in
  let pushed := pushedResults lexical vector structural in
  let ranked := fuseAndRerankTraced lexical vector structural query in
  let key := fun r : string * SearchResult (num := float) => fusedScore (snd r) in
  map snd ranked = fuseAndRerank lexical vector structural query
  /\ (forall id, In id ids <->
                 In id (mapKeys lexical) \/ In id (mapKeys vector)
                 \/ In id (mapKeys structural))
  /\ (forall id,
        let r := fuse lexical vector structural id in
        lexicalScore r = match mapGet lexical id with
                         | Some l => orZero (score l)
                         | None => nlit 0 1
                         end
        /\ vectorScore r = getOr0 vector id
        /\ structuralScore r = getOr0 structural id
        /\ fusedScore r
           = nadd (nadd (nmul (nlit 3 10)
                              (normalizeScore (lexicalScore r) (nlit 0 1) (nlit 10 1)))
                        (nmul (nlit 4 10) (vectorScore r)))
                  (nmul (nlit 3 10) (structuralScore r)))
  /\ (forall id r, In (id, r) ranked <->
                   In id ids /\ r = fuse lexical vector structural id
                   /\ ngtb (fusedScore r) (nlit 1 10) = true)
  /\ StronglySorted (fun x y => ngtb (key y) (key x) = false) ranked
  /\ (forall x, In x pushed ->
                filter (tiedWith key (key x)) ranked
                = filter (tiedWith key (key x)) pushed).
Proof.
  intros ids pushed ranked key.
  apply fuseAndRerank_ranked_where_ordered.
  destruct Float64_ordered as [Hsub Hasym Htrans].
  assert (Habove : forall s, In s (map key pushed) -> ngtb s (nlit 1 10) = true).
  { intros s Hs. apply in_map_iff in Hs as ([id r] & <- & Hin).
    now apply pushedResults_In in Hin as (_ & _ & Hkeep). }
  constructor.
  - intros a b Ha Hb. apply Hsub; auto.
  - intros a b Ha Hb. apply Hasym; auto.
  - intros a b c Ha Hb Hc. apply Htrans; auto.
Qed.

(** Three hits with different fused scores, pushed lowest first, come
    back highest first. *)
Lemma fuseAndRerank_ranks_by_fused_score_witness :
  let ranked := fuseAndRerankTraced (H := Float64.num) rankedLexical []
                                    [("a.md:1-9:section", 0%float)] "title" in
  map fst ranked = ["c.md:1-9:section"; "b.md:1-9:section"; "a.md:1-9:section"]
  /\ StronglySorted
       (fun x y => ngtb (fusedScore (snd y)) (fusedScore (snd x)) = false) ranked.
Proof.
  split; [vm_compute; reflexivity|].
  apply (fuseAndRerank_ranks_by_fused_score
           rankedLexical [] [("a.md:1-9:section", 0%float)] "title").
Defined.

End RankingFacts.

(* ================================================================== *)
(** * The scenario, run *)
(* ================================================================== *)

Module AdvancedRuns.
Import JsString Common Effects Advanced Scenario.
Import Float64.

(** C2, at the failing input.  The repository is indexed at its first
    commit and again at its second, where [old.md] is gone.  Both passes
    succeed.  The chunks are those of the second commit alone, but the
    symbols table still holds the rows of the first snapshot, among them
    the heading of [old.md], whose chunk no longer exists: the
    [DELETE FROM symbols] selects on the chunks of the repository after
    they have been deleted. *)
Theorem reindexing_keeps_the_symbols_of_the_replaced_snapshot :
  fst (indexRepository (envAt (Some site1)) "octo/site" "main" freshWorld) = inr tt
  /\ fst (indexRepository (envAt (Some site2)) "octo/site" "main" indexedOnce) = inr tt
  /\ map (@c_id float) (chunks (db indexedOnce))
     = ["index.html:1-1:element"; "old.md:1-1:section"]
  /\ map s_chunkId (symbols (db indexedOnce))
     = ["index.html:1-1:element"; "old.md:1-1:section"]
  /\ map (@c_id float) (chunks (db indexedTwice)) = ["index.html:1-1:element"]
  /\ map s_chunkId (symbols (db indexedTwice))
     = ["index.html:1-1:element"; "old.md:1-1:section"; "index.html:1-1:element"].
Proof. repeat split; vm_compute; reflexivity. Qed.

(** C9, as stated, fails: a query on a repository that was never indexed
    leaves a repository record behind. *)
Lemma query_creates_a_repository_record :
  repositories (db freshWorld) = []
  /\ repositories
       (db (snd (searchRelevantChunks (envAt None) "octo/never" "header" 10 freshWorld)))
     = [ {| r_id := 1; r_name := "octo/never"; r_lastCommitHash := None;
            r_lastIndexed := None; r_totalChunks := 0 |} ].
Proof. split; vm_compute; reflexivity. Qed.

Lemma searchRelevantChunks_returns_empty_chunks_witness :
  exists results w',
    searchRelevantChunks (envAt None) "octo/site" "tossell" 10 indexedOnce
    = (inr results, w')
    /\ List.length results = 1
    /\ Forall (fun r => chunk r = emptyObject) results.
Proof.
  eexists; eexists.
  split; [vm_compute; reflexivity|].
  split; [reflexivity|].
  eapply (AdvancedFacts.searchRelevantChunks_returns_empty_chunks
            (envAt None) "octo/site" "tossell" 10 indexedOnce).
  vm_compute; reflexivity.
Defined.

End AdvancedRuns.

(* ================================================================== *)
(** * [CodebaseIndexService] *)
(* ================================================================== *)

Module BasicFacts.
Import JsString Common Effects EffectsFacts Basic.

Section Service.
Context {num : Type} `{JsNum num} `{JsMath num}.
Variable env : Env num.
Local Open Scope effect_scope.

(** ** The stored commit identifier *)

Lemma basic_storedCommit_ext (name : string) (d d' : Store num) :
  repositories d' = repositories d -> storedCommit name d' = storedCommit name d.
Proof. unfold storedCommit, selectRepository. now intros ->. Qed.

Lemma basic_insertRepository_storedCommit (name stamp : string) (d d' : Store num) (newId : nat) :
  insertRepository name stamp d = Some (newId, d') ->
  storedCommit name d' = storedCommit name d.
Proof.
  unfold insertRepository, storedCommit.
  destruct (selectRepository name d) eqn:Esel; [discriminate|].
  intros Heq; inversion Heq; subst; clear Heq.
  unfold selectRepository in *; simpl.
  rewrite find_app_none by exact Esel. simpl.
  now rewrite String.eqb_refl.
Qed.

Lemma basic_getOrCreateRepository_keeps_commit (name : string) :
  Keeps (storedCommit name) (getOrCreateRepository env name).
Proof.
  unfold getOrCreateRepository. keeps_step; [keeps_step|].
  destruct a; [keeps_step|].
  apply keeps_stmt. intros d newId d'. apply basic_insertRepository_storedCommit.
Qed.

Lemma basic_indexFile_keeps_repositories (repoId : nat) (file : string * option string) :
  Keeps (@repositories num) (indexFile env repoId file).
Proof.
  unfold indexFile. keeps_step; [keeps_step|].
  destruct (50000 <? jsLength a); [keeps_step|].
  keeps_step. reflexivity.
Qed.

Lemma basic_indexFiles_keeps_repositories (repoId : nat) (files : list (string * option string)) :
  forall indexed, Keeps (@repositories num) (indexFiles env repoId files indexed).
Proof.
  induction files as [|file files IH]; intros indexed; simpl; [keeps_step|].
  keeps_step; [|apply IH].
  apply keeps_tryCatch; [|intros e; keeps_step].
  keeps_step; [apply basic_indexFile_keeps_repositories | keeps_step].
Qed.

Lemma basic_keeps_repositories_commit {A} (name : string) (m : M (Store num) A) :
  Keeps (@repositories num) m -> Keeps (storedCommit name) m.
Proof.
  intros Hm w r w' Heq. apply basic_storedCommit_ext. eapply Hm; eauto.
Qed.

(** Whatever makes [indexRepository] throw, short of a failed cleanup, the
    stored commit identifier is the one from before the call. *)
Lemma basic_indexRepository_failure_keeps_commit (repoName branch : string) :
  KeepsOnFailure (storedCommit repoName) (indexRepository env repoName branch).
Proof.
  unfold indexRepository.
  apply keepsOnFailure_bind; [unfold initialize; keeps_step|]. intros _.
  apply keepsOnFailure_bind; [apply basic_getOrCreateRepository_keeps_commit|]. intros repoId.
  apply keepsOnFailure_rethrow. unfold indexPass.
  apply keepsOnFailure_bind; [keeps_step|]. intros _.
  apply keepsOnFailure_bind; [keeps_step|]. intros checkout.
  apply keepsOnFailure_bind; [keeps_step|]. intros _.
  apply keepsOnFailure_bind; [keeps_step; reflexivity|]. intros _.
  apply keepsOnFailure_bind;
    [apply basic_keeps_repositories_commit, basic_indexFiles_keeps_repositories|]. intros indexed.
  apply keepsOnFailure_commit.
Qed.

(** ** A pass that succeeds *)

Lemma getOrCreateRepository_inr (name : string) w repoId w' :
  getOrCreateRepository env name w = (inr repoId, w') ->
  exists r, selectRepository name (db w') = Some r /\ r_id r = repoId.
Proof.
  unfold getOrCreateRepository. intros Hrun.
  apply bind_inr in Hrun as (existing & w1 & Hsel & Hrun).
  apply stmt_inr in Hsel as [Hsel _]. inversion Hsel as [[Hex Hdb]]; clear Hsel.
  destruct existing as [r|].
  - inversion Hrun; subst. exists r. rewrite <- Hdb. auto.
  - apply stmt_inr in Hrun as [Hins _]. unfold insertRepository in Hins.
    rewrite <- Hdb, Hex in Hins.
    inversion Hins as [[Hid Hdb']]; clear Hins.
    unfold selectRepository in *; simpl.
    rewrite find_app_none by exact Hex. simpl.
    rewrite String.eqb_refl. eexists. split; reflexivity.
Qed.

Lemma updateRepository_storedCommit (name : string) (repoId : nat)
  (hash : option string) (stamp : string) (total : nat) (d : Store num) r :
  selectRepository name d = Some r -> r_id r = repoId ->
  storedCommit name (updateRepository repoId hash stamp total d) = hash.
Proof.
  unfold storedCommit, selectRepository, updateRepository; simpl.
  induction (repositories d) as [|x l IH]; simpl; [discriminate|].
  intros Hfind Hid.
  destruct (r_id x =? repoId) eqn:Ex; simpl;
    destruct (String.eqb (r_name x) name) eqn:En; auto.
  inversion Hfind; subst. rewrite Nat.eqb_refl in Ex. discriminate.
Qed.

(** After a pass that succeeds the record holds the commit of the clone. *)
Lemma basic_indexRepository_success_commit_of (repoName branch : string) w w' checkout :
  indexRepository env repoName branch w = (inr tt, w') ->
  clone env repoName branch = Some checkout ->
  storedCommit repoName (db w') = head checkout.
Proof.
  unfold indexRepository. intros Hrun Hclone.
  apply bind_inr in Hrun as (_ & w1 & _ & Hrun).
  apply bind_inr in Hrun as (repoId & w2 & Hget & Hrun).
  apply getOrCreateRepository_inr in Hget as (r & Hsel & Hid).
  apply rethrow_inr in Hrun. unfold indexPass in Hrun.
  apply bind_inr in Hrun as (u3 & w3 & H3 & Hrun).
  apply bind_inr in Hrun as (co & w4 & H4 & Hrun).
  rewrite Hclone in H4. inversion H4; subst co w4; clear H4.
  apply bind_inr in Hrun as (u5 & w5 & H5 & Hrun).
  apply bind_inr in Hrun as (u6 & w6 & H6 & Hrun).
  apply bind_inr in Hrun as (indexed & w7 & H7 & Hrun).
  apply bind_inr in Hrun as (u8 & w8 & H8 & Hrun).
  pose proof (basic_indexFiles_keeps_repositories repoId _ 0 _ H7) as R7.
  pose proof (@keeps_setTempDir _ _ (@repositories num) true _ _ _ H5) as R5.
  pose proof (@keeps_removeTempDirIfThere _ _ (@repositories num) (rmFails env) _ _ _ H3)
    as R3.
  pose proof (@keeps_removeTempDir _ _ (storedCommit repoName) (rmFails env) _ _ _ Hrun)
    as R9.
  apply stmt_inr in H6 as [H6 _]. inversion H6 as [[Hu6 Hdb6]].
  apply stmt_inr in H8 as [H8 _]. inversion H8 as [[Hu8 Hdb8]].
  assert (Hrepos : repositories (db w7) = repositories (db w2)).
  { rewrite R7, <- Hdb6. simpl. now rewrite R5, R3. }
  rewrite R9, <- Hdb8.
  apply updateRepository_storedCommit with (r := r); [|exact Hid].
  unfold selectRepository in *. now rewrite Hrepos.
Qed.

(** ** [needsUpdate] *)

Lemma needsUpdate_no_fault (repoName branch : string) (w : World (Store num)) :
  faultIn w = None ->
  needsUpdate env repoName branch w
  = (inr (match storedCommit repoName (db w) with
          | None => true
          | Some stored =>
              if Chunker.isEmpty stored then true
              else match commits env repoName branch with
                   | Commit (Some currentHash) => negb (String.eqb stored currentHash)
                   | _ => true
                   end
          end),
     {| db := db w; faultIn := None; tempDir := tempDir w |}).
Proof.
  intros Hfault.
  unfold needsUpdate, initialize, query, bind, storedCommit.
  rewrite (stmt_no_fault _ _ Hfault).
  rewrite stmt_no_fault by reflexivity. simpl.
  destruct (selectRepository repoName (db w)) as [r|]; [|reflexivity].
  destruct (r_lastCommitHash r) as [stored|]; [|reflexivity].
  destruct (Chunker.isEmpty stored); [reflexivity|].
  destruct (commits env repoName branch) as [| |[currentHash|]]; reflexivity.
Qed.

End Service.

Section Behaviour.
Context {num : Type} `{JsNum num} `{JsMath num}.
Variable env : Env num.

(** C5.  With no database failure pending, [needsUpdate] returns: true
    when the repository has no record or no stored commit identifier;
    true when GitHub cannot be reached, does not answer with success or
    answers without a commit id; and otherwise whether the stored
    identifier differs from the current one.  In particular, run in the
    state [w] that a successful [indexRepository] of a clone at commit [h]
    left (whatever the environment [env0] of that call was), it returns
    false while GitHub reports [h] and true once it reports another id. *)
Theorem needsUpdate_compares_commit_identifiers
  (repoName branch : string) (w : World (Store num)) :
  faultIn w = None ->
  fst (needsUpdate env repoName branch w)
  = inr (match storedCommit repoName (db w) with
         | None => true
         | Some stored =>
             if Chunker.isEmpty stored then true
             else match commits env repoName branch with
                  | Unreachable => true
                  | NotOk => true
                  | Commit None => true
                  | Commit (Some currentHash) => negb (String.eqb stored currentHash)
                  end
         end)
  /\ forall (env0 : Env num) (w0 : World (Store num)) (checkout : Checkout) (h : string),
       indexRepository env0 repoName branch w0 = (inr tt, w) ->
       clone env0 repoName branch = Some checkout ->
       head checkout = Some h ->
       h <> "" ->
       (commits env repoName branch = Commit (Some h) ->
        fst (needsUpdate env repoName branch w) = inr false)
       /\ (forall other, other <> h ->
            commits env repoName branch = Commit (Some other) ->
            fst (needsUpdate env repoName branch w) = inr true).
Proof.
  intros Hfault. rewrite (needsUpdate_no_fault env) by exact Hfault. simpl.
  split.
  - destruct (storedCommit repoName (db w)) as [stored|]; [|reflexivity].
    destruct (Chunker.isEmpty stored); [reflexivity|].
    destruct (commits env repoName branch) as [| |[currentHash|]]; reflexivity.
  - intros env0 w0 checkout h Hrun Hclone Hhead Hne.
    rewrite (basic_indexRepository_success_commit_of env0 _ _ _ Hrun Hclone), Hhead.
    assert (Hfull : Chunker.isEmpty h = false) by (destruct h; [congruence | reflexivity]).
    rewrite Hfull. split.
    + intros ->. now rewrite String.eqb_refl.
    + intros other Hother ->.
      apply String.eqb_neq in Hother. rewrite String.eqb_sym in Hother.
      now rewrite Hother.
Qed.

(** ** The exact-quoted-text bonus *)

Lemma quotedTextBoost_fold (quotesChecked : list string) (contentLower : string) (t : Tally) :
  fold_left (quotedStep contentLower) quotesChecked t
  = fold_left (fun acc q =>
                 boost (nlit 2 1) (", contains exact text " ++ inQuotes (cleanQuote q)) acc)
              (filter (fun q => includes contentLower (cleanQuote q)) quotesChecked) t.
Proof.
  revert t. induction quotesChecked as [|q l IH]; intros t; simpl; [reflexivity|].
  unfold quotedStep at 2, boostIf.
  destruct (includes contentLower (cleanQuote q)); simpl; apply IH.
Qed.

(** C6, as the code has it.  The bonus stage adds [2.0] once for every
    checked quotation whose text the content of the file contains, case
    folded, and nothing else.  The checked quotations are the quoted
    phrases of the task, but only the first of them when the task says
    change, replace or update.  So when ['Ben Tossell'] is among the
    checked quotations, its bonus goes to exactly the files whose content
    contains [ben tossell]; and when it is the only one, a file gets
    [+2.0] from this stage if its content contains [ben tossell] and
    nothing otherwise. *)
Theorem quoted_bonus_goes_to_files_containing_the_checked_text
  (taskDescription : string) (f : FileRow num) (t : Tally) :
  In "'Ben Tossell'" (quotesToCheck taskDescription) ->
  let contentLower := toLowerCase (f_content f) in
  let found := filter (fun q => includes contentLower (cleanQuote q))
                      (quotesToCheck taskDescription) in
  quotesToCheck taskDescription
  = (if isChangeTask (toLowerCase taskDescription)
     then firstn 1 (quotedMatches taskDescription)
     else quotedMatches taskDescription)
  /\ quotedTextBoost taskDescription f t
     = fold_left (fun acc q =>
                    boost (nlit 2 1)
                          (", contains exact text " ++ inQuotes (cleanQuote q)) acc)
                 found t
  /\ (In "'Ben Tossell'" found <-> includes contentLower "ben tossell" = true)
  /\ (quotesToCheck taskDescription = ["'Ben Tossell'"] ->
      quotedTextBoost taskDescription f t
      = if includes contentLower "ben tossell"
        then (nadd (fst t) (nlit 2 1),
              (snd t ++ ", contains exact text " ++ inQuotes "ben tossell")%string)
        else t).
Proof.
  intros Hchecked contentLower found.
  split; [reflexivity|].
  split; [apply quotedTextBoost_fold|].
  split.
  - subst found. rewrite filter_In. change (cleanQuote "'Ben Tossell'") with "ben tossell".
    tauto.
  - intros Honly. unfold quotedTextBoost. rewrite Honly. simpl.
    unfold quotedStep, boostIf. change (cleanQuote "'Ben Tossell'") with "ben tossell".
    fold contentLower. destruct (includes contentLower "ben tossell"); reflexivity.
Qed.

End Behaviour.
End BasicFacts.


(* ================================================================== *)
(** * The commit point of indexing *)
(* ================================================================== *)

Module IndexingFacts.
Import JsString Common Effects.

(** C4.  In both services, when [indexRepository] throws because the
    source could not be cloned or read, or because a database statement
    failed (anything but a failure of the final [rm -rf], which runs after
    the update), the commit identifier stored for the repository is the
    one from before the call: the [UPDATE repositories] is the last
    database statement of the pass, and an error before it skips it. *)
Theorem failed_pass_keeps_the_commit_identifier
  {num : Type} `{JsNum num} `{JsMath num} :
  (forall (env : Advanced.Env num) (repoName branch : string)
          (w w' : World (Advanced.Store num)) (e : Error),
      Advanced.indexRepository env repoName branch w = (inl e, w') ->
      e <> CleanupFailure ->
      Advanced.storedCommit repoName (db w') = Advanced.storedCommit repoName (db w))
  /\ (forall (env : Basic.Env num) (repoName branch : string)
             (w w' : World (Basic.Store num)) (e : Error),
         Basic.indexRepository env repoName branch w = (inl e, w') ->
         e <> CleanupFailure ->
         Basic.storedCommit repoName (db w') = Basic.storedCommit repoName (db w)).
Proof.
  split; intros env repoName branch w w' e Hrun Hne.
  - exact (AdvancedFacts.indexRepository_failure_keeps_commit env repoName branch
             w Hrun Hne).
  - exact (BasicFacts.basic_indexRepository_failure_keeps_commit env repoName branch
             w Hrun Hne).
Qed.

Import Scenario BasicScenario.
Import Float64.


Lemma failed_pass_keeps_the_commit_identifier_witness :
  (let run := Advanced.indexRepository (envAt (Some site3)) "octo/site" "main"
                                       indexedOnce in
   fst run = inl StorageFailure
   /\ Advanced.storedCommit "octo/site" (db indexedOnce) = Some "1111111"
   /\ Advanced.storedCommit "octo/site" (db (snd run)) = Some "1111111")
  /\ (let run := Basic.indexRepository (envWith None "3333333") "octo/site" "main"
                                       indexed in
      fst run = inl SourceUnavailable
      /\ Basic.storedCommit "octo/site" (db indexed) = Some "1111111"
      /\ Basic.storedCommit "octo/site" (db (snd run)) = Some "1111111").
Proof.
  split; intros run.
  - split; [vm_compute; reflexivity|]. split; [vm_compute; reflexivity|].
    rewrite (proj1 (@failed_pass_keeps_the_commit_identifier float _ _)
               (envAt (Some site3)) "octo/site" "main" indexedOnce (snd run)
               StorageFailure);
      [vm_compute; reflexivity | vm_compute; reflexivity | discriminate].
  - split; [vm_compute; reflexivity|]. split; [vm_compute; reflexivity|].
    rewrite (proj2 (@failed_pass_keeps_the_commit_identifier float _ _)
               (envWith None "3333333") "octo/site" "main" indexed (snd run)
               SourceUnavailable);
      [vm_compute; reflexivity | vm_compute; reflexivity | discriminate].
Defined.

Lemma needsUpdate_compares_commit_identifiers_witness :
  fst (Basic.needsUpdate (envWith (Some site1) "1111111") "octo/site" "main" indexed)
  = inr false
  /\ fst (Basic.needsUpdate (envWith (Some site2) "2222222") "octo/site" "main" indexed)
     = inr true.
Proof.
  assert (Hrun : Basic.indexRepository (envWith (Some site1) "1111111") "octo/site" "main"
                                       BasicScenario.freshWorld
                 = (inr tt, indexed)) by (vm_compute; reflexivity).
  assert (Hne : "1111111" <> "") by discriminate.
  split.
  - destruct (proj2 (BasicFacts.needsUpdate_compares_commit_identifiers
                       (envWith (Some site1) "1111111") "octo/site" "main" indexed eq_refl)
                    _ _ site1 "1111111" Hrun eq_refl eq_refl Hne) as [Hsame _].
    apply Hsame. reflexivity.
  - destruct (proj2 (BasicFacts.needsUpdate_compares_commit_identifiers
                       (envWith (Some site2) "2222222") "octo/site" "main" indexed eq_refl)
                    _ _ site1 "1111111" Hrun eq_refl eq_refl Hne) as [_ Hmoved].
    apply (Hmoved "2222222"); [discriminate | reflexivity].
Defined.

End IndexingFacts.

(* ================================================================== *)
(** * The file search, run *)
(* ================================================================== *)

Module SearchRuns.
Import JsString Common Effects Basic Scenario BasicScenario.
Import Float64.

Lemma quoted_bonus_goes_to_files_containing_the_checked_text_witness :
  let task := "change the title to 'Ben Tossell'" in
  let styles := {| f_id := 2; f_repositoryId := 1; f_path := "styles.css";
                   f_content := "body { color: black }";
                   f_contentHash := "d41d8cd98f00b204e9800998ecf8427e"; f_size := 21;
                   f_lastModified := "2025-01-01T00:00:00.000Z"; f_fileType := "style";
                   f_embedding := [0; 1]%float; f_imports := []; f_exports := [] |} in
  quotesToCheck task = ["'Ben Tossell'"]
  /\ quotedTextBoost task page (1%float, "semantic similarity")
     = (3%float, ("semantic similarity, contains exact text "
                  ++ inQuotes "ben tossell")%string)
  /\ quotedTextBoost task styles (1%float, "semantic similarity")
     = (1%float, "semantic similarity").
Proof.
  intros task styles.
  assert (Hchecked : In "'Ben Tossell'" (quotesToCheck task)) by (left; reflexivity).
  split; [reflexivity|]. split.
  - destruct (BasicFacts.quoted_bonus_goes_to_files_containing_the_checked_text
                task page (1%float, "semantic similarity") Hchecked)
      as (_ & _ & _ & Honly).
    rewrite Honly by reflexivity. reflexivity.
  - destruct (BasicFacts.quoted_bonus_goes_to_files_containing_the_checked_text
                task styles (1%float, "semantic similarity") Hchecked)
      as (_ & _ & _ & Honly).
    rewrite Honly by reflexivity. reflexivity.
Defined.

(** C6, as stated, fails: this task contains the quoted phrase and the
    page contains its text, but the task says change, so only its first
    quotation is checked and the page gets no bonus for the second. *)
Lemma later_quotation_of_a_change_task_earns_no_bonus :
  let task := "change 'Hello' to 'Ben Tossell'" in
  includes task "'Ben Tossell'" = true
  /\ includes (toLowerCase (f_content page)) "ben tossell" = true
  /\ quotedMatches task = ["'Hello'"; "'Ben Tossell'"]
  /\ quotesToCheck task = ["'Hello'"]
  /\ quotedTextBoost task page (1%float, "semantic similarity")
     = (1%float, "semantic similarity").
Proof. repeat split. Qed.

(** What the NaN of C1 does downstream.  With no embedding model every
    embedding is the zero vector, every similarity is NaN, NaN survives
    every bonus and fails the threshold test: the search finds nothing,
    not even the page that holds the quoted text. *)
Lemma search_without_embedding_model_finds_nothing :
  let task := "change the title to 'Ben Tossell'" in
  map (@f_path float) (files (db indexed)) = ["index.html"; "old.md"]
  /\ forallb (fun f => PrimFloat.is_nan
                         (fst (scoreFile task (generateEmbedding
                                                 (envWith None "1111111") "task" task) f)))
             (files (db indexed)) = true
  /\ fst (searchRelevantFiles (envWith None "1111111") "octo/site" task 10 indexed)
     = inr [].
Proof. repeat split; vm_compute; reflexivity. Qed.

End SearchRuns.

(* ================================================================== *)
(** * More about the chunker *)
(* ================================================================== *)

Module ChunkerInvariants.
Import JsString Chunker ChunkerFacts.

(** ** Every file gets a chunk *)

Lemma parseGenericChunks_length (content filePath : string) (lines : list string) :
  1 <= List.length lines ->
  1 <= List.length (parseGenericChunks content filePath lines).
Proof.
  unfold parseGenericChunks. destruct lines as [|l lines]; simpl; [lia|].
  intros _. lia.
Qed.

(** X1.  Whatever the text and whatever the language, [parseFileIntoChunks]
    returns at least one chunk: a structured parser that finds nothing
    falls back to the line windows, and a text has at least one line. *)
Theorem parseFileIntoChunks_never_empty (content filePath language : string) :
  1 <= List.length (parseFileIntoChunks content filePath language).
Proof.
  pose proof (@parseGenericChunks_length content filePath _ (splitLines_nonempty content)) as Hg.
  unfold parseFileIntoChunks.
  destruct (String.eqb language "html").
  { unfold parseHTMLChunks.
    destruct (flat_map _ elementPatterns); [exact Hg | simpl; lia]. }
  destruct (String.eqb language "javascript" || String.eqb language "typescript").
  { unfold parseJSChunks.
    destruct (flat_map _ jsPatterns); [exact Hg | simpl; lia]. }
  destruct (String.eqb language "markdown"); [|exact Hg].
  unfold parseMarkdownChunks.
  destruct (markdownLoop _ content filePath 0); [exact Hg | simpl; lia].
Qed.

(** ** The identifiers of the fallback chunks *)

Lemma append_inj_l (p x y : string) : (p ++ x)%string = (p ++ y)%string -> x = y.
Proof. induction p as [|c p IH]; simpl; intros Heq; [exact Heq | inversion Heq; auto]. Qed.

Lemma string_of_uint_dashFree (d : Decimal.uint) :
  Forall (fun c : ascii => c <> "-"%char)
         (list_ascii_of_string (NilEmpty.string_of_uint d)).
Proof.
  induction d; simpl; constructor; try assumption; discriminate.
Qed.

(** Two texts without a dash that agree up to what follows a dash are the
    same text. *)
Lemma dash_split (a b x y : string) :
  Forall (fun c : ascii => c <> "-"%char) (list_ascii_of_string a) ->
  Forall (fun c : ascii => c <> "-"%char) (list_ascii_of_string b) ->
  (a ++ "-" ++ x)%string = (b ++ "-" ++ y)%string -> a = b.
Proof.
  revert b.
  induction a as [|c a IH]; intros [|c' b] Ha Hb Heq; simpl in *.
  - reflexivity.
  - inversion Heq; subst. inversion Hb; subst. congruence.
  - inversion Heq; subst. inversion Ha; subst. congruence.
  - inversion Heq; subst. inversion Ha; subst. inversion Hb; subst.
    f_equal. eapply IH; eauto.
Qed.

Lemma ofNat_inj (a b : nat) : ofNat a = ofNat b -> a = b.
Proof.
  unfold ofNat. intros Heq.
  apply (f_equal NilEmpty.uint_of_string) in Heq.
  rewrite !NilEmpty.usu in Heq. inversion Heq as [Hu].
  apply (f_equal Nat.of_uint) in Hu.
  now rewrite !DecimalNat.Unsigned.of_to in Hu.
Qed.

(** A chunk identifier tells the start line of its chunk. *)
Lemma chunkId_startLine (filePath : string) (s e s' e' : nat) (kind kind' : string) :
  chunkId filePath s e kind = chunkId filePath s' e' kind' -> s = s'.
Proof.
  unfold chunkId. intros Heq.
  apply append_inj_l in Heq. simpl in Heq. inversion Heq as [Hrest].
  apply ofNat_inj.
  eapply dash_split; [| |exact Hrest]; apply string_of_uint_dashFree.
Qed.

Lemma genericLoop_ids (filePath : string) (lines : list string) :
  forall fuel i,
    Forall (fun c => i < startLine c
                     /\ id c = chunkId filePath (startLine c) (chunkEndLine c) "block")
           (genericLoop fuel filePath lines i).
Proof.
  induction fuel as [|fuel IH]; intros i; simpl; [constructor|].
  destruct (i <? List.length lines); [|constructor].
  constructor; [simpl; split; [lia | reflexivity]|].
  eapply Forall_impl; [|apply (IH (i + chunkSize))].
  intros c [Hlt Hid]. split; [lia | exact Hid].
Qed.

(** X2.  The chunks of the line-window fallback have pairwise different
    identifiers, whatever the text: the identifier holds the start line,
    and no two windows start on the same line. *)
Theorem parseGenericChunks_ids_differ (content filePath : string) (lines : list string) :
  NoDup (map id (parseGenericChunks content filePath lines)).
Proof.
  unfold parseGenericChunks.
  generalize 0 as i. generalize (List.length lines) at 1 as fuel.
  induction fuel as [|fuel IH]; intros i; simpl; [constructor|].
  destruct (i <? List.length lines); [|constructor].
  simpl. constructor; [|apply IH].
  intros Hin. apply in_map_iff in Hin as (c & Hid & Hc).
  pose proof (genericLoop_ids filePath lines fuel (i + chunkSize)) as Hall.
  rewrite Forall_forall in Hall. destruct (Hall c Hc) as [Hlt Hidc].
  rewrite Hidc in Hid. apply chunkId_startLine in Hid. unfold chunkSize in Hlt. lia.
Qed.

(** ** Where a match stands in the text *)








End ChunkerInvariants.

(* ================================================================== *)
(** * Where a match lies *)
(* ================================================================== *)

Module RegexFacts.
Import Regex RegexMeasure.





End RegexFacts.

(* ================================================================== *)
(** * The sections of a Markdown text *)
(* ================================================================== *)

Module MarkdownFacts.
Import JsString Chunker Regex RegexMeasure RegexFacts.

Lemma substring_append (s : string) :
  forall a n m,
    (String.substring a n s ++ String.substring (a + n) m s)%string
    = String.substring a (n + m) s.
Proof.
  induction s as [|c s IH]; intros a n m.
  - destruct a, n, m; reflexivity.
  - destruct a as [|a].
    + destruct n as [|n]; simpl; [reflexivity|].
      f_equal. apply (IH 0 n m).
    + simpl. apply IH.
Qed.






End MarkdownFacts.

(* ================================================================== *)
(** * The elements of an HTML text *)
(* ================================================================== *)

Module HtmlFacts.
Import JsString Chunker Regex RegexMeasure RegexFacts ChunkerFacts ChunkerInvariants
  MarkdownFacts.






End HtmlFacts.

(* ================================================================== *)
(** * Tables that only grow *)
(* ================================================================== *)

Module GrowthFacts.
Import Effects EffectsFacts Growth.

Section Rules.
Context {DB X : Type}.
Variable obs : DB -> list X.
Local Open Scope effect_scope.

Lemma grows_keeps {A} (m : M DB A) : Keeps obs m -> Grows obs m.
Proof.
  intros Hm w r w' Hrun. exists []. rewrite app_nil_r. eapply Hm; eauto.
Qed.

Lemma grows_bind {A B} (m : M DB A) (k : A -> M DB B) :
  Grows obs m -> (forall a, Grows obs (k a)) -> Grows obs (bind m k).
Proof.
  intros Hm Hk w r w'. unfold bind.
  destruct (m w) as [[e|a] w1] eqn:Em; intros Hrun.
  - inversion Hrun; subst. eapply Hm; eauto.
  - destruct (Hm _ _ _ Em) as [added1 H1].
    destruct (Hk a _ _ _ Hrun) as [added2 H2].
    exists (added1 ++ added2). now rewrite H2, H1, app_assoc.
Qed.

Lemma grows_tryCatch {A} (m : M DB A) (h : Error -> M DB A) :
  Grows obs m -> (forall e, Grows obs (h e)) -> Grows obs (tryCatch m h).
Proof.
  intros Hm Hh w r w'. unfold tryCatch.
  destruct (m w) as [[e|a] w1] eqn:Em; intros Hrun.
  - destruct (Hm _ _ _ Em) as [added1 H1].
    destruct (Hh e _ _ _ Hrun) as [added2 H2].
    exists (added1 ++ added2). now rewrite H2, H1, app_assoc.
  - inversion Hrun; subst. eapply Hm; eauto.
Qed.

Lemma grows_update (f : DB -> DB) :
  (forall d, exists added, obs (f d) = obs d ++ added) -> Grows obs (update f).
Proof.
  intros Hf w [e|a] w' Hrun.
  - apply stmt_inl in Hrun as [_ ->]. exists []. now rewrite app_nil_r.
  - apply stmt_inr in Hrun as [Hrun _]. inversion Hrun as [[Hu Hdb]]. apply Hf.
Qed.

Lemma grows_forEach {A} (l : list A) (body : A -> M DB unit) :
  (forall x, Grows obs (body x)) -> Grows obs (forEach l body).
Proof.
  intros Hb. induction l as [|x l IH]; simpl.
  - apply grows_keeps, keeps_ret.
  - apply grows_bind; auto.
Qed.

(** Two writes in a row, the second of which is harmless only after the
    first. *)
Lemma grows_after {A} (f g : DB -> DB) (rest : M DB A) :
  (forall d, obs (f d) = obs d) ->
  (forall d, obs (g (f d)) = obs (f d)) ->
  Grows obs rest ->
  Grows obs (update f ;; update g ;; rest).
Proof.
  intros Hf Hg Hrest w r w' Hrun. unfold bind in Hrun.
  destruct (update f w) as [[e|u] w1] eqn:E1.
  - inversion Hrun; subst. apply stmt_inl in E1 as [_ ->].
    exists []. now rewrite app_nil_r.
  - apply stmt_inr in E1 as [E1 _]. inversion E1 as [[Hu1 Hdb1]].
    destruct (update g w1) as [[e|u2] w2] eqn:E2.
    + inversion Hrun; subst. apply stmt_inl in E2 as [_ ->].
      exists []. now rewrite <- Hdb1, Hf, app_nil_r.
    + apply stmt_inr in E2 as [E2 _]. inversion E2 as [[Hu2 Hdb2]].
      destruct (Hrest _ _ _ Hrun) as [added Hadd].
      exists added. now rewrite Hadd, <- Hdb2, <- Hdb1, Hg, Hf.
Qed.

End Rules.
End GrowthFacts.

(* ================================================================== *)
(** * What an indexing pass of [AdvancedCodebaseIndex] stores *)
(* ================================================================== *)

Module AdvancedIndexing.
Import JsString Common Effects EffectsFacts Growth GrowthFacts Advanced AdvancedFacts
  AdvancedSnapshot.

Section Service.
Context {num : Type} `{JsNum num} `{JsMath num}.
Variable env : Env num.
Local Open Scope effect_scope.

(** ** The symbols table *)

Lemma storeChunk_grows_symbols (repoId : nat) (relativePath language : string)
  (chunk : Chunker.Chunk) :
  Grows (@symbols num) (storeChunk env repoId relativePath language chunk).
Proof.
  unfold storeChunk. apply grows_bind.
  - apply grows_keeps, keeps_stmt. intros d a d'. unfold insertChunk.
    destruct (memString _ _); intros Heq; inversion Heq; reflexivity.
  - intros _. apply grows_bind.
    + apply grows_forEach. intros symbol. apply grows_update.
      intros d. eexists. reflexivity.
    + intros _. apply grows_keeps. keeps_step. reflexivity.
Qed.

Lemma indexFiles_grows_symbols (repoId : nat) (files : list (string * option string)) :
  forall total, Grows (@symbols num) (indexFiles env repoId files total).
Proof.
  induction files as [|file files IH]; intros total; simpl.
  - apply grows_keeps, keeps_ret.
  - apply grows_bind; [|intros n; apply IH].
    unfold indexFile. apply grows_bind; [apply grows_keeps, keeps_attempt|].
    intros content. apply grows_bind; [|intros _; apply grows_keeps, keeps_ret].
    apply grows_forEach. intros chunk. apply storeChunk_grows_symbols.
Qed.

Lemma indexRepository_grows_symbols (repoName branch : string) :
  Grows (@symbols num) (indexRepository env repoName branch).
Proof.
  unfold indexRepository.
  apply grows_bind; [apply grows_keeps; unfold initialize; keeps_step|]. intros _.
  apply grows_tryCatch;
    [|intros e; apply grows_keeps; keeps_step; keeps_step].
  unfold indexPass.
  apply grows_bind; [apply grows_keeps; keeps_step|]. intros _.
  apply grows_bind; [apply grows_keeps; keeps_step|]. intros checkout.
  apply grows_bind; [apply grows_keeps; keeps_step|]. intros _.
  apply grows_bind; [apply grows_keeps; keeps_step|]. intros currentHash.
  apply grows_bind.
  { apply grows_keeps. unfold getOrCreateRepository. keeps_step; [keeps_step|].
    destruct a; [keeps_step|].
    apply keeps_stmt. intros d newId d'. unfold insertRepository.
    destruct (selectRepository repoName d); intros Heq; inversion Heq; reflexivity. }
  intros repoId.
  apply grows_after;
    [reflexivity | intros d; now rewrite deleteSymbols_after_deleteChunks |].
  apply grows_bind; [apply grows_keeps; keeps_step; reflexivity|]. intros _.
  apply grows_bind; [apply indexFiles_grows_symbols|]. intros totalChunks.
  apply grows_bind; [apply grows_keeps; keeps_step; reflexivity|]. intros _.
  apply grows_keeps. keeps_step.
Qed.

(** X6.  An indexing pass never removes a row of the symbols table,
    however it ends: the rows from before the call are all there after it,
    in place, and the symbols of the new snapshot stand behind them.  (The
    [DELETE FROM symbols] of the pass selects by the chunks of the
    repository, which the statement before it has just deleted.) *)
Theorem indexRepository_never_deletes_a_symbol (repoName branch : string)
  (w : World (Store num)) :
  exists added,
    symbols (db (snd (indexRepository env repoName branch w)))
    = symbols (db w) ++ added.
Proof.
  destruct (indexRepository env repoName branch w) as [r w'] eqn:Erun.
  exact (indexRepository_grows_symbols _ _ _ Erun).
Qed.

(** ** The full-text table *)

Lemma filter_idem {A} (p : A -> bool) (l : list A) : filter p (filter p l) = filter p l.
Proof.
  induction l as [|x l IH]; simpl; [reflexivity|].
  destruct (p x) eqn:Ex; simpl; [rewrite Ex; f_equal|]; exact IH.
Qed.

Lemma indexFiles_grows_fts (keep : FtsRow -> bool) (repoId : nat)
  (files : list (string * option string)) :
  forall total,
    Grows (fun d : Store num => filter keep (chunks_fts d))
          (indexFiles env repoId files total).
Proof.
  induction files as [|file files IH]; intros total; simpl.
  - apply grows_keeps, keeps_ret.
  - apply grows_bind; [|intros n; apply IH].
    unfold indexFile. apply grows_bind; [apply grows_keeps, keeps_attempt|].
    intros content. apply grows_bind; [|intros _; apply grows_keeps, keeps_ret].
    apply grows_forEach. intros chunk. unfold storeChunk. apply grows_bind.
    + apply grows_keeps, keeps_stmt. intros d a d'. unfold insertChunk.
      destruct (memString _ _); intros Heq; inversion Heq; reflexivity.
    + intros _. apply grows_bind.
      * apply grows_keeps. keeps_step. keeps_step. reflexivity.
      * intros _. apply grows_update. intros d. unfold insertFts. cbn [chunks_fts setFts].
        rewrite filter_app. eexists. reflexivity.
Qed.

(** X7.  An indexing pass removes from the full-text table only rows
    whose id is [LIKE] the pattern made of the repository name, a colon
    and [%]; every other row from before the call is still there after it,
    however the pass ends.  (The ids of the rows start with the path of
    their file, not with the name of the repository.) *)
Theorem indexRepository_keeps_the_full_text_rows_of_other_ids
  (repoName branch : string) (w : World (Store num)) :
  let stays := fun f : FtsRow => negb (like (f_id f) (repoName ++ ":%")) in
  exists added,
    filter stays (chunks_fts (db (snd (indexRepository env repoName branch w))))
    = filter stays (chunks_fts (db w)) ++ added.
Proof.
  intros stays.
  assert (Hgrows : Grows (fun d : Store num => filter stays (chunks_fts d))
                         (indexRepository env repoName branch)).
  { unfold indexRepository.
    apply grows_bind; [apply grows_keeps; unfold initialize; keeps_step|]. intros _.
    apply grows_tryCatch;
      [|intros e; apply grows_keeps; keeps_step; keeps_step].
    unfold indexPass.
    apply grows_bind; [apply grows_keeps; keeps_step|]. intros _.
    apply grows_bind; [apply grows_keeps; keeps_step|]. intros checkout.
    apply grows_bind; [apply grows_keeps; keeps_step|]. intros _.
    apply grows_bind; [apply grows_keeps; keeps_step|]. intros currentHash.
    apply grows_bind.
    { apply grows_keeps. unfold getOrCreateRepository. keeps_step; [keeps_step|].
      destruct a; [keeps_step|].
      apply keeps_stmt. intros d newId d'. unfold insertRepository.
      destruct (selectRepository repoName d); intros Heq; inversion Heq; reflexivity. }
    intros repoId.
    apply grows_bind; [apply grows_keeps; keeps_step; reflexivity|]. intros _.
    apply grows_bind; [apply grows_keeps; keeps_step; reflexivity|]. intros _.
    apply grows_bind.
    { apply grows_keeps. keeps_step. unfold deleteFts. cbn [chunks_fts setFts].
      apply filter_idem. }
    intros _.
    apply grows_bind; [apply indexFiles_grows_fts|]. intros totalChunks.
    apply grows_bind; [apply grows_keeps; keeps_step; reflexivity|]. intros _.
    apply grows_keeps. keeps_step. }
  destruct (indexRepository env repoName branch w) as [r w'] eqn:Erun.
  exact (Hgrows _ _ _ Erun).
Qed.

(** ** The chunks table *)

Lemma storeChunk_inr (repoId : nat) (relativePath language : string)
  (chunk : Chunker.Chunk) w w' :
  storeChunk env repoId relativePath language chunk w = (inr tt, w') ->
  ~ In (Chunker.id chunk) (map (@c_id num) (chunks (db w)))
  /\ exists row, c_id row = Chunker.id chunk
                 /\ c_repositoryId row = repoId
                 /\ chunks (db w') = chunks (db w) ++ [row].
Proof.
  unfold storeChunk. intros Hrun.
  apply bind_inr in Hrun as (u1 & w1 & Hins & Hrun).
  apply stmt_inr in Hins as [Hins _]. unfold insertChunk in Hins.
  destruct (memString _ _) eqn:Emem; [discriminate|].
  inversion Hins as [[Hu Hdb]]; clear Hins.
  assert (Hkeep : Keeps (@chunks num)
            (forEach (Chunker.symbols chunk)
               (fun symbol => update (insertSymbol (Chunker.id chunk) symbol)) ;;
             update (insertFts
               {| f_id := Chunker.id chunk; f_content := Chunker.content chunk;
                  f_filePath := relativePath;
                  f_symbolNames := join " " (map Chunker.symName (Chunker.symbols chunk)) |}))).
  { keeps_step; [keeps_step; keeps_step; reflexivity|]. keeps_step. reflexivity. }
  apply Hkeep in Hrun. split.
  - intros Hin. apply RankingFacts.memString_In in Hin. simpl in Emem. congruence.
  - eexists. repeat split; [| |rewrite Hrun, <- Hdb; reflexivity]; reflexivity.
Qed.

Lemma storeChunks_inr (repoId : nat) (relativePath language : string) :
  forall (cs : list Chunker.Chunk) w w',
    forEach cs (storeChunk env repoId relativePath language) w = (inr tt, w') ->
    NoDup (map Chunker.id cs)
    /\ Forall (fun c => ~ In (Chunker.id c) (map (@c_id num) (chunks (db w)))) cs
    /\ exists rows, map (@c_id num) rows = map Chunker.id cs
                    /\ Forall (fun r => c_repositoryId r = repoId) rows
                    /\ chunks (db w') = chunks (db w) ++ rows.
Proof.
  induction cs as [|c cs IH]; intros w w' Hrun; simpl in Hrun.
  - inversion Hrun; subst. repeat split; [constructor | constructor |].
    exists []. rewrite app_nil_r. repeat split; constructor.
  - apply bind_inr in Hrun as ([] & w1 & Hc & Hrun).
    apply storeChunk_inr in Hc as (Hnew & row & Hid & Hrepo & Hdb).
    apply IH in Hrun as (Hnodup & Hfresh & rows & Hids & Hrepos & Hdb').
    rewrite Hdb, map_app in Hfresh. simpl in Hfresh.
    repeat split.
    + simpl. constructor; [|exact Hnodup].
      intros Hin. apply in_map_iff in Hin as (c' & Heq & Hc').
      rewrite Forall_forall in Hfresh. apply (Hfresh c' Hc').
      apply in_or_app; right. left. congruence.
    + constructor; [exact Hnew|].
      eapply Forall_impl; [|exact Hfresh].
      intros c' Hc' Hin. apply Hc'. apply in_or_app; now left.
    + exists (row :: rows). simpl. repeat split.
      * now rewrite Hid, Hids.
      * now constructor.
      * now rewrite Hdb', Hdb, <- app_assoc.
Qed.


(** ** A pass that returns *)

Lemma indexFiles_inr (repoId : nat) :
  forall (files : list (string * option string)) total w n w',
    indexFiles env repoId files total w = (inr n, w') ->
    Forall (fun f => snd f <> None) files
    /\ exists rows, Forall (fun r : ChunkRow num => c_repositoryId r = repoId) rows
                    /\ map (@c_id num) rows = chunkIdsOfFiles files
                    /\ chunks (db w') = chunks (db w) ++ rows
                    /\ n = total + List.length rows.
Proof.
  induction files as [|file files IH]; intros total w n w' Hrun; simpl in Hrun.
  - inversion Hrun; subst. split; [constructor|].
    exists []. rewrite app_nil_r. simpl. repeat split; [constructor | lia].
  - apply bind_inr in Hrun as (k & w1 & Hfile & Hrun).
    unfold indexFile in Hfile.
    apply bind_inr in Hfile as (content & w2 & Hread & Hfile).
    destruct (snd file) as [text|] eqn:Etext; [|discriminate].
    inversion Hread; subst content w2; clear Hread.
    apply bind_inr in Hfile as ([] & w3 & Hstore & Hfile).
    inversion Hfile; subst k w3; clear Hfile.
    apply storeChunks_inr in Hstore as (_ & _ & rows & Hids & Hrepos & Hdb).
    apply IH in Hrun as (Hread & rows' & Hrepos' & Hids' & Hdb' & Hn).
    split; [constructor; [rewrite Etext; discriminate | exact Hread]|].
    exists (rows ++ rows'). repeat split.
    + apply Forall_app; now split.
    + unfold chunkIdsOfFiles in *. cbn [flat_map]. rewrite Etext, map_app.
      now rewrite Hids, Hids'.
    + now rewrite Hdb', Hdb, <- app_assoc.
    + rewrite length_app, Hn.
      rewrite <- (length_map (@c_id num) rows), Hids, length_map. lia.
Qed.

Lemma getOrCreateRepository_found (name : string) w repoId w' :
  getOrCreateRepository (num := num) name w = (inr repoId, w') ->
  exists r, selectRepository name (db w') = Some r /\ r_id r = repoId.
Proof.
  unfold getOrCreateRepository. intros Hrun.
  apply bind_inr in Hrun as (existing & w1 & Hsel & Hrun).
  apply stmt_inr in Hsel as [Hsel _]. inversion Hsel as [[Hex Hdb]]; clear Hsel.
  destruct existing as [r|].
  - inversion Hrun; subst. exists r. rewrite <- Hdb. auto.
  - apply stmt_inr in Hrun as [Hins _]. unfold insertRepository in Hins.
    rewrite <- Hdb, Hex in Hins.
    inversion Hins as [[Hid Hdb']]; clear Hins.
    unfold selectRepository in *; simpl.
    rewrite find_app_none by exact Hex. simpl.
    rewrite String.eqb_refl. eexists. split; reflexivity.
Qed.


(** What a pass that returns went through. *)
Lemma indexRepository_inr (repoName branch : string) w w' :
  indexRepository env repoName branch w = (inr tt, w') ->
  exists checkout commit repoId r wa wb wc n,
    clone env repoName branch = Some checkout
    /\ head checkout = Some commit
    /\ selectRepository repoName (db wa) = Some r /\ r_id r = repoId
    /\ db wb = deleteFts (repoName ++ ":%")
                 (deleteSymbols repoId (deleteChunks repoId (db wa)))
    /\ indexFiles env repoId (findRelevantFiles env (tree checkout)) 0 wb = (inr n, wc)
    /\ db w' = updateRepository repoId (trim commit) (now env) n (db wc)
    /\ tempDir w' = false.
Proof.
  unfold indexRepository. intros Hrun.
  apply bind_inr in Hrun as (u0 & w0 & _ & Hrun).
  apply rethrow_inr in Hrun. unfold indexPass in Hrun.
  apply bind_inr in Hrun as (u1 & w1 & _ & Hrun).
  apply bind_inr in Hrun as (checkout & w2 & Hclone & Hrun).
  destruct (clone env repoName branch) as [checkout'|]; [|discriminate].
  inversion Hclone; subst checkout' w2; clear Hclone.
  apply bind_inr in Hrun as (u3 & w3 & _ & Hrun).
  apply bind_inr in Hrun as (commit & w4 & Hhead & Hrun).
  destruct (head checkout) as [commit'|] eqn:Ehead; [|discriminate].
  inversion Hhead; subst commit w4; clear Hhead.
  apply bind_inr in Hrun as (repoId & wa & Hget & Hrun).
  apply getOrCreateRepository_found in Hget as (r & Hsel & Hid).
  apply bind_inr in Hrun as (u5 & w5 & H5 & Hrun).
  apply bind_inr in Hrun as (u6 & w6 & H6 & Hrun).
  apply bind_inr in Hrun as (u7 & wb & H7 & Hrun).
  apply bind_inr in Hrun as (n & wc & Hfiles & Hrun).
  apply bind_inr in Hrun as (u9 & w9 & H9 & Hrun).
  apply stmt_inr in H5 as [H5 _]. inversion H5 as [[Hu5 Hdb5]].
  apply stmt_inr in H6 as [H6 _]. inversion H6 as [[Hu6 Hdb6]].
  apply stmt_inr in H7 as [H7 _]. inversion H7 as [[Hu7 Hdb7]].
  apply stmt_inr in H9 as [H9 _]. inversion H9 as [[Hu9 Hdb9]].
  exists checkout, commit', repoId, r, wa, wb, wc, n.
  repeat split; try assumption; try reflexivity.
  - now rewrite <- Hdb7, <- Hdb6, <- Hdb5.
  - destruct (rmFails env); simpl in Hrun; inversion Hrun; subst. now rewrite Hdb9.
  - destruct (rmFails env); simpl in Hrun; inversion Hrun; subst. reflexivity.
Qed.

(** X9.  One relevant file that cannot be read makes the whole pass
    throw: [indexRepository] has no [try] around a file, so it returns
    only if every file that [findRelevantFiles] lists could be read. *)
Theorem indexRepository_stops_at_an_unreadable_file
  (repoName branch : string) (checkout : Checkout) (path : string)
  (w : World (Store num)) :
  clone env repoName branch = Some checkout ->
  In (path, None) (findRelevantFiles env (tree checkout)) ->
  exists e, fst (indexRepository env repoName branch w) = inl e.
Proof.
  intros Hclone Hin.
  destruct (indexRepository env repoName branch w) as [[e|[]] w'] eqn:Erun;
    [now exists e|].
  exfalso.
  apply indexRepository_inr in Erun
    as (checkout' & commit & repoId & r & wa & wb & wc & n
        & Hclone' & _ & _ & _ & _ & Hfiles & _).
  rewrite Hclone in Hclone'. inversion Hclone'; subst checkout'.
  apply indexFiles_inr in Hfiles as [Hread _].
  rewrite Forall_forall in Hread. now apply (Hread _ Hin).
Qed.


(** ** A pass that stops at a file *)





End Service.
End AdvancedIndexing.

Module AdvancedIndexingRuns.
Import JsString Common Effects Advanced Scenario MoreScenarios.
Import Float64.


Lemma indexRepository_stops_at_an_unreadable_file_witness :
  exists e,
    fst (indexRepository (envAt (Some site4)) "octo/site" "main" freshWorld) = inl e.
Proof.
  apply (@AdvancedIndexing.indexRepository_stops_at_an_unreadable_file float
           (envAt (Some site4)) "octo/site" "main" site4 "locked.md" freshWorld).
  - reflexivity.
  - vm_compute. right; left; reflexivity.
Defined.



End AdvancedIndexingRuns.

(* ================================================================== *)
(** * What the chunk search returns *)
(* ================================================================== *)

Module AdvancedSearch.
Import JsString Common Effects EffectsFacts Advanced AdvancedFacts.

Section Service.
Context {num : Type} `{JsNum num} `{JsMath num}.
Variable env : Env num.
Local Open Scope effect_scope.
Local Open Scope js_scope.

(** What a search that returns went through. *)
Lemma searchRelevantChunks_inr (repoName query : string) (limit : nat) w results w' :
  searchRelevantChunks env repoName query limit w = (inr results, w') ->
  exists lexical vector structural,
    results = slice (fuseAndRerank lexical vector structural query) 0 limit.
Proof.
  unfold searchRelevantChunks. intros Hrun.
  apply bind_inr in Hrun as (u0 & w1 & _ & Hrun).
  apply bind_inr in Hrun as (repoId & w2 & _ & Hrun).
  apply bind_inr in Hrun as (lexicalResults & w3 & _ & Hrun).
  apply bind_inr in Hrun as (vectorResults & w4 & _ & Hrun).
  apply bind_inr in Hrun as (structuralResults & w5 & _ & Hrun).
  inversion Hrun; subst. eauto.
Qed.

(** X12.  [searchRelevantChunks] returns at most [limit] results, and
    every one of them has a fused score above the threshold 0.1. *)
Theorem searchRelevantChunks_at_most_limit_above_threshold
  (repoName query : string) (limit : nat) (w w' : World (Store num))
  (results : list SearchResult) :
  searchRelevantChunks env repoName query limit w = (inr results, w') ->
  List.length results <= limit
  /\ Forall (fun r => fusedScore r .> nlit 1 10 = true) results.
Proof.
  intros Hrun.
  apply searchRelevantChunks_inr in Hrun as (lexical & vector & structural & ->).
  split.
  - unfold slice. rewrite length_firstn. lia.
  - apply Forall_slice. unfold fuseAndRerank. apply SortFacts.sort_Forall.
    apply Forall_forall. intros r Hr. now apply filter_In in Hr as [_ Hr].
Qed.

(** ** Whose chunks a search finds *)

Lemma In_firstn {A} (x : A) (n : nat) (l : list A) : In x (firstn n l) -> In x l.
Proof.
  revert l. induction n as [|n IH]; intros [|y l]; simpl; try tauto.
  intros [Hx|Hx]; [now left | right; now apply IH].
Qed.

Lemma mapSet_keys {V} (m : JsMap V) (k : string) (v : V) :
  incl (mapKeys (mapSet m k v)) (k :: mapKeys m).
Proof.
  unfold mapKeys. induction m as [|[k' v'] m IH]; simpl.
  - intros x Hx. exact Hx.
  - destruct (String.eqb k' k); simpl.
    + intros x Hx. now right.
    + intros x [Hx|Hx]; [right; now left|].
      destruct (IH x Hx) as [Hk|Hm]; [now left | right; now right].
Qed.

Lemma fold_keys {R V} (key : R -> string) (step : JsMap V -> R -> JsMap V) :
  (forall acc r, incl (mapKeys (step acc r)) (key r :: mapKeys acc)) ->
  forall rows acc,
    incl (mapKeys (fold_left step rows acc)) (mapKeys acc ++ map key rows).
Proof.
  intros Hstep. induction rows as [|r rows IH]; intros acc; simpl.
  - rewrite app_nil_r. apply incl_refl.
  - intros x Hx. apply IH in Hx. apply in_app_or in Hx as [Hx|Hx].
    + apply Hstep in Hx as [Hx|Hx].
      * apply in_or_app; right. now left.
      * apply in_or_app; now left.
    + apply in_or_app; right. now right.
Qed.

(** X13.  The three searches find chunks of the repository they were
    asked about and of no other: every chunk id among the candidates that
    [fuseAndRerank] goes through is the id of a row of the chunks table
    with that repository's id. *)
Theorem searches_stay_within_the_repository
  (repoId : nat) (query : string) (w w1 w2 w3 : World (Store num))
  (lexical : JsMap BM25Score) (vector structural : JsMap num) :
  lexicalSearch env repoId query w = (inr lexical, w1) ->
  vectorSearch env repoId query w = (inr vector, w2) ->
  structuralSearch repoId query w = (inr structural, w3) ->
  incl (allChunkIds lexical vector structural) (chunkIdsOf repoId (db w)).
Proof.
  intros Hlex Hvec Hstr.
  assert (Hl : incl (mapKeys lexical) (chunkIdsOf repoId (db w))).
  { unfold lexicalSearch in Hlex.
    apply bind_inr in Hlex as (rows & wa & Hstmt & Hret).
    apply stmt_inr in Hstmt as [Hstmt _]. inversion Hret; subst lexical wa; clear Hret.
    unfold selectLexical in Hstmt.
    destruct (fts5 env (chunks_fts (db w)) query) as [hits|]; [|discriminate].
    cbn [option_map] in Hstmt.
    assert (Hrows : rows = firstn 50
              (flat_map (fun hit : FtsRow * num =>
                           map (fun c => (c, snd hit))
                               (filter (fun c => String.eqb (c_id c) (f_id (fst hit))
                                                 && (c_repositoryId c =? repoId))
                                       (chunks (db w))))
                        hits)) by congruence.
    clear Hstmt. subst rows.
    intros x Hx.
    apply (@fold_keys _ _ (fun row : ChunkRow num * num => c_id (fst row))) in Hx;
      [|intros acc r; apply mapSet_keys].
    apply in_app_or in Hx as [[]|Hx].
    apply in_map_iff in Hx as ([c rank] & <- & Hc).
    apply In_firstn in Hc.
    apply in_flat_map in Hc as (hit & _ & Hc).
    apply in_map_iff in Hc as (c' & Heq & Hc'). inversion Heq; subst c' rank.
    apply filter_In in Hc' as [Hin Hcond].
    apply andb_true_iff in Hcond as [_ Hrepo].
    unfold chunkIdsOf. apply in_map. apply filter_In. now split. }
  assert (Hv : incl (mapKeys vector) (chunkIdsOf repoId (db w))).
  { unfold vectorSearch in Hvec.
    destruct (embeddingModel env) as [model|].
    - apply bind_inr in Hvec as (rows & wa & Hstmt & Hret).
      apply stmt_inr in Hstmt as [Hstmt _]. inversion Hret; subst vector wa; clear Hret.
      inversion Hstmt as [[Hrows Hdb]]; clear Hstmt.
      intros x Hx.
      apply (@fold_keys _ _ (@c_id num)) in Hx.
      + apply in_app_or in Hx as [[]|Hx]. exact Hx.
      + intros acc r. destruct (ngtb _ _); [apply mapSet_keys|].
        intros y Hy. now right.
    - inversion Hvec. intros x []. }
  assert (Hs : incl (mapKeys structural) (chunkIdsOf repoId (db w))).
  { unfold structuralSearch in Hstr.
    apply bind_inr in Hstr as (rows & wa & Hstmt & Hret).
    apply stmt_inr in Hstmt as [Hstmt _]. inversion Hret; subst structural wa; clear Hret.
    inversion Hstmt as [[Hrows Hdb]]; clear Hstmt.
    intros x Hx.
    apply (@fold_keys _ _ (@fst string string)) in Hx;
      [|intros acc r; apply mapSet_keys].
    apply in_app_or in Hx as [[]|Hx].
    apply in_map_iff in Hx as ([cid kind] & <- & Hc).
    unfold selectSymbols in Hc.
    apply in_flat_map in Hc as (sym & _ & Hc).
    destruct (_ || _) in Hc; [|destruct Hc].
    apply in_map_iff in Hc as (c' & Heq & Hc'). inversion Heq; subst cid kind.
    apply filter_In in Hc' as [Hin Hcond].
    apply andb_true_iff in Hcond as [_ Hrepo].
    cbn [fst]. unfold chunkIdsOf. apply in_map. apply filter_In. now split. }
  unfold allChunkIds. intros x Hx. apply (proj1 (RankingFacts.setOf_In _ _)) in Hx.
  apply in_app_or in Hx as [Hx|Hx]; [now apply Hl|].
  apply in_app_or in Hx as [Hx|Hx]; [now apply Hv | now apply Hs].
Qed.

(** X14.  A query text the full-text engine rejects makes the whole
    search throw: [lexicalSearch] runs first and nothing catches its error,
    so the vector and the structural search are not tried. *)
Theorem searchRelevantChunks_throws_on_a_rejected_query
  (repoName query : string) (limit : nat) (w : World (Store num)) :
  (forall rows, fts5 env rows query = None) ->
  fst (searchRelevantChunks env repoName query limit w) = inl StorageFailure.
Proof.
  intros Hrejected.
  destruct (searchRelevantChunks env repoName query limit w) as [[e|results] w'] eqn:Erun;
    simpl.
  - f_equal. unfold searchRelevantChunks in Erun.
    apply bind_inl in Erun as [Erun | (u0 & w1 & _ & Erun)];
      [now apply stmt_inl in Erun|].
    apply bind_inl in Erun as [Erun | (repoId & w2 & _ & Erun)].
    { unfold getOrCreateRepository in Erun.
      apply bind_inl in Erun as [Erun | (existing & w2 & _ & Erun)];
        [now apply stmt_inl in Erun|].
      destruct existing; [discriminate | now apply stmt_inl in Erun]. }
    apply bind_inl in Erun as [Erun | (lexicalResults & w3 & Hlex & _)].
    + unfold lexicalSearch in Erun.
      apply bind_inl in Erun as [Erun | (rows & w3 & _ & Erun)];
        [now apply stmt_inl in Erun | discriminate].
    + exfalso. unfold lexicalSearch in Hlex.
      apply bind_inr in Hlex as (rows & w4 & Hstmt & _).
      apply stmt_inr in Hstmt as [Hstmt _].
      unfold selectLexical in Hstmt. now rewrite Hrejected in Hstmt.
  - exfalso. unfold searchRelevantChunks in Erun.
    apply bind_inr in Erun as (u0 & w1 & _ & Erun).
    apply bind_inr in Erun as (repoId & w2 & _ & Erun).
    apply bind_inr in Erun as (lexicalResults & w3 & Hlex & _).
    unfold lexicalSearch in Hlex.
    apply bind_inr in Hlex as (rows & w4 & Hstmt & _).
    apply stmt_inr in Hstmt as [Hstmt _].
    unfold selectLexical in Hstmt. now rewrite Hrejected in Hstmt.
Qed.

End Service.

Import Float64.
Local Open Scope effect_scope.

(** X15.  On IEEE doubles: when the embedding of the query comes out
    empty (the model threw), [vectorSearch] finds nothing, whatever the
    chunks hold.  Against a chunk that has an embedding the similarity is
    the 0 of a length mismatch; against a chunk without one it is the NaN
    of 0/0; neither is above 0.1. *)
Theorem vectorSearch_finds_nothing_without_a_query_embedding
  (env : Env float) (repoId : nat) (query : string) (w : World (Store float)) :
  generateEmbedding env query = [] ->
  fst (vectorSearch env repoId query w) = inr []
  \/ fst (vectorSearch env repoId query w) = inl StorageFailure.
Proof.
  intros Hempty. unfold vectorSearch.
  destruct (embeddingModel env) as [model|] eqn:Emodel; [|now left].
  unfold bind.
  destruct (Effects.query _ w) as [[e|rows] w1] eqn:Erows.
  - right. apply stmt_inl in Erows as [-> _]. reflexivity.
  - left. simpl. f_equal. rewrite Hempty.
    clear Erows. induction rows as [|row rows IH]; simpl; [reflexivity|].
    destruct (c_embedding row) as [|x l]; exact IH.
Qed.

End AdvancedSearch.

Module AdvancedSearchRuns.
Import JsString Common Effects Advanced Scenario MoreScenarios.
Import Float64.

Lemma searchRelevantChunks_at_most_limit_above_threshold_witness :
  exists results w',
    searchRelevantChunks (envAt None) "octo/site" "tossell" 10 indexedOnce
    = (inr results, w')
    /\ List.length results = 1
    /\ List.length results <= 10
    /\ Forall (fun r => ngtb (fusedScore r) (nlit 1 10) = true) results.
Proof.
  eexists; eexists.
  split; [vm_compute; reflexivity|].
  split; [reflexivity|].
  eapply (@AdvancedSearch.searchRelevantChunks_at_most_limit_above_threshold float _ _
            (envAt None) "octo/site" "tossell" 10 indexedOnce).
  vm_compute; reflexivity.
Defined.

Lemma searches_stay_within_the_repository_witness :
  exists lexical vector structural w1 w2 w3,
    lexicalSearch (envAt None) 1 "tossell" indexedOnce = (inr lexical, w1)
    /\ vectorSearch (envAt None) 1 "tossell" indexedOnce = (inr vector, w2)
    /\ structuralSearch 1 "tossell" indexedOnce = (inr structural, w3)
    /\ allChunkIds lexical vector structural = ["index.html:1-1:element"]
    /\ incl (allChunkIds lexical vector structural) (chunkIdsOf 1 (db indexedOnce)).
Proof.
  do 6 eexists.
  split; [vm_compute; reflexivity|].
  split; [vm_compute; reflexivity|].
  split; [vm_compute; reflexivity|].
  split; [vm_compute; reflexivity|].
  eapply (@AdvancedSearch.searches_stay_within_the_repository float _ _
            (envAt None) 1 "tossell" indexedOnce);
    vm_compute; reflexivity.
Defined.

Lemma searchRelevantChunks_throws_on_a_rejected_query_witness :
  fst (searchRelevantChunks brokenEnv "octo/site" "ben's page" 10 indexedOnce)
  = inl StorageFailure.
Proof.
  apply (@AdvancedSearch.searchRelevantChunks_throws_on_a_rejected_query float _ _
           brokenEnv "octo/site" "ben's page" 10 indexedOnce).
  reflexivity.
Defined.

Lemma vectorSearch_finds_nothing_without_a_query_embedding_witness :
  fst (vectorSearch brokenEnv 1 "header" indexedOnce) = inr []
  \/ fst (vectorSearch brokenEnv 1 "header" indexedOnce) = inl StorageFailure.
Proof.
  apply (AdvancedSearch.vectorSearch_finds_nothing_without_a_query_embedding
           brokenEnv 1 "header" indexedOnce).
  reflexivity.
Defined.

End AdvancedSearchRuns.

(* ================================================================== *)
(** * IEEE doubles: comparison and NaN *)
(* ================================================================== *)

Module FloatFacts.
Import Float64.
Local Open Scope float_scope.

Lemma SFcompare_antisym (x y : spec_float) :
  SFcompare y x = option_map CompOpp (SFcompare x y).
Proof.
  destruct x as [sx|sx| |sx mx ex], y as [sy|sy| |sy my ey]; simpl;
    try reflexivity;
    try (destruct sx; reflexivity);
    try (destruct sy; reflexivity);
    try (destruct sx, sy; reflexivity).
  destruct sx, sy; simpl; try reflexivity;
    rewrite (Z.compare_antisym ex ey); destruct (ex ?= ey)%Z; simpl;
    try reflexivity; rewrite (ZC4 my mx); try reflexivity;
    now rewrite CompOpp_involutive.
Qed.

Lemma SFcompare_refl (x : spec_float) : x <> S754_nan -> SFcompare x x = Some Eq.
Proof.
  destruct x as [s|s| |s m e]; simpl; intros Hx;
    try reflexivity; try (destruct s; reflexivity); try congruence.
  destruct s; rewrite Z.compare_refl, Pos.compare_cont_refl; reflexivity.
Qed.

Lemma SFcompare_nan_r (x : spec_float) : SFcompare x S754_nan = None.
Proof. destruct x; reflexivity. Qed.

(** [is_nan] tells the NaN of the specification. *)
Lemma is_nan_Prim2SF (x : float) : PrimFloat.is_nan x = true <-> Prim2SF x = S754_nan.
Proof.
  unfold PrimFloat.is_nan. rewrite FloatAxioms.eqb_spec. unfold SFeqb. split.
  - intros Hnan. destruct (Prim2SF x) as [s|s| |s m e] eqn:Ex; try reflexivity;
      rewrite SFcompare_refl in Hnan by discriminate; discriminate.
  - intros ->. reflexivity.
Qed.

Lemma is_nan_false_Prim2SF (x : float) :
  PrimFloat.is_nan x = false <-> Prim2SF x <> S754_nan.
Proof.
  rewrite <- is_nan_Prim2SF. destruct (PrimFloat.is_nan x); split; congruence.
Qed.

Lemma SFcompare_defined (x y : spec_float) :
  x <> S754_nan -> y <> S754_nan -> exists c, SFcompare x y = Some c.
Proof.
  destruct x, y; simpl; intros Hx Hy; try congruence; eexists; reflexivity.
Qed.

Lemma ltb_leb (x y : float) : (x <? y) = true -> (x <=? y) = true.
Proof.
  rewrite ltb_spec, leb_spec. unfold SFltb, SFleb.
  destruct (SFcompare (Prim2SF x) (Prim2SF y)) as [[| |]|]; congruence.
Qed.

(** Two numbers that are not NaN compare one way or the other. *)
Lemma not_ltb_leb (x y : float) :
  PrimFloat.is_nan x = false -> PrimFloat.is_nan y = false ->
  (x <? y) = false -> (y <=? x) = true.
Proof.
  rewrite !is_nan_false_Prim2SF, ltb_spec, leb_spec. unfold SFltb, SFleb.
  intros Hx Hy. rewrite (SFcompare_antisym (Prim2SF x) (Prim2SF y)).
  destruct (SFcompare_defined Hx Hy) as [c ->]. destruct c; simpl; congruence.
Qed.

(** NaN is above nothing, and a sum with NaN is NaN. *)
Lemma ltb_nan_r (x y : float) : PrimFloat.is_nan y = true -> (x <? y) = false.
Proof.
  rewrite is_nan_Prim2SF, ltb_spec. intros ->. unfold SFltb.
  now rewrite SFcompare_nan_r.
Qed.

Lemma add_nan_l (x y : float) :
  PrimFloat.is_nan x = true -> PrimFloat.is_nan (x + y) = true.
Proof.
  rewrite !is_nan_Prim2SF, add_spec. intros ->. reflexivity.
Qed.

(** [Math.max(0, Math.min(1, q))] *)
Lemma clamp_to_unit_interval (q : float) :
  if PrimFloat.is_nan q
  then PrimFloat.is_nan (mathMax 0 (mathMin 1 q)) = true
  else (0 <=? mathMax 0 (mathMin 1 q)) = true /\ (mathMax 0 (mathMin 1 q) <=? 1) = true.
Proof.
  destruct (PrimFloat.is_nan q) eqn:Enan.
  - unfold mathMin. rewrite Enan, orb_true_r. reflexivity.
  - unfold mathMin. rewrite Enan.
    change (PrimFloat.is_nan 1) with false. cbn [orb].
    assert (Hmin : (if 1 <? q then 1 else if q <? 1 then q else
                      if isNegZero 1 then 1 else q)
                   = if 1 <? q then 1 else q).
    { destruct (1 <? q); [reflexivity|]. destruct (q <? 1); reflexivity. }
    rewrite Hmin. clear Hmin.
    destruct (1 <? q) eqn:Eabove; [split; reflexivity|].
    unfold mathMax. rewrite Enan.
    change (PrimFloat.is_nan 0) with false. cbn [orb].
    destruct (0 <? q) eqn:Epos.
    + split; [now apply ltb_leb | now apply not_ltb_leb].
    + destruct (q <? 0); split; reflexivity.
Qed.

(** X16.  [normalizeScore] on IEEE doubles.  When the quotient
    [(score - min) / (max - min)] is a number the result lies between 0
    and 1, both included; when it is NaN (a NaN argument, or [max = min]
    with [score = min]) the result is NaN. *)
Theorem normalizeScore_in_unit_interval_or_NaN (score min max : float) :
  if PrimFloat.is_nan ((score - min) / (max - min))
  then PrimFloat.is_nan (Advanced.normalizeScore score min max) = true
  else (0 <=? Advanced.normalizeScore score min max) = true
       /\ (Advanced.normalizeScore score min max <=? 1) = true.
Proof.
  pose proof (clamp_to_unit_interval ((score - min) / (max - min))) as Hclamp.
  unfold Advanced.normalizeScore.
  change (nmax (nlit 0 1) (nmin (nlit 1 1) (score .- min ./ (max .- min))%js))
    with (mathMax 0 (mathMin 1 ((score - min) / (max - min)))).
  exact Hclamp.
Qed.

End FloatFacts.

(* ================================================================== *)
(** * Runs without a database failure *)
(* ================================================================== *)

Module EffectsRuns.
Import Effects EffectsFacts.

Section Rules.
Context {DB : Type}.

Lemma query_no_fault {A} (f : DB -> A) (w : World DB) :
  faultIn w = None ->
  query f w = (inr (f (db w)), {| db := db w; faultIn := None; tempDir := tempDir w |}).
Proof. intros Hw. unfold query. now rewrite stmt_no_fault. Qed.

Lemma update_no_fault (f : DB -> DB) (w : World DB) :
  faultIn w = None ->
  update f w = (inr tt, {| db := f (db w); faultIn := None; tempDir := tempDir w |}).
Proof. intros Hw. unfold update. now rewrite stmt_no_fault. Qed.

End Rules.
End EffectsRuns.

(* ================================================================== *)
(** * What an indexing pass of [CodebaseIndexService] stores *)
(* ================================================================== *)

Module BasicIndexing.
Import JsString Common Effects EffectsFacts EffectsRuns Basic BasicFacts BasicSnapshot.

Section Service.
Context {num : Type} `{JsNum num} `{JsMath num}.
Variable env : Env num.
Local Open Scope effect_scope.

Local Notation "'summary'" :=
  (fun f : FileRow num => (f_path f, f_content f, f_fileType f)).

(** ** The rows of one repository *)

Lemma selectFiles_insertOrReplaceFile (repoId : nat) (row : nat -> FileRow num)
  (d : Store num) :
  (forall rowid, f_repositoryId (row rowid) = repoId) ->
  (forall rowid, f_path (row rowid) = f_path (row 0)) ->
  ~ In (f_path (row 0)) (map (@f_path num) (selectFiles repoId d)) ->
  exists rowid,
    selectFiles repoId (insertOrReplaceFile row d) = selectFiles repoId d ++ [row rowid].
Proof.
  intros Hrepo Hpath Hfresh. unfold insertOrReplaceFile, selectFiles in *. simpl.
  eexists. rewrite filter_app. simpl. rewrite !Hrepo, Nat.eqb_refl. f_equal.
  induction (files d) as [|x l IH]; simpl in *; [reflexivity|].
  destruct (f_repositoryId x =? repoId) eqn:Ex; simpl in *.
  - destruct (String.eqb_spec (f_path x) (f_path (row 0))) as [Heq|Hne]; simpl.
    + exfalso. apply Hfresh. now left.
    + rewrite Ex. f_equal. apply IH. intros Hin. apply Hfresh. now right.
  - rewrite Ex. apply IH. exact Hfresh.
Qed.

(** ** The loop over the files *)

Lemma indexFiles_no_fault (repoId : nat) :
  forall (files : list (string * option string)) (indexed : nat) (w : World (Store num)),
    faultIn w = None ->
    exists w',
      indexFiles env repoId files indexed w
      = (inr (indexed + List.length (filter readable files)), w')
      /\ faultIn w' = None
      /\ tempDir w' = tempDir w
      /\ repositories (db w') = repositories (db w)
      /\ (NoDup (map fst files) ->
          (forall file, In file files ->
             ~ In (fst file) (map (@f_path num) (selectFiles repoId (db w)))) ->
          map summary (selectFiles repoId (db w'))
          = map summary (selectFiles repoId (db w)) ++ storedFiles files).
Proof.
  intros files.
  induction files as [|[path [content|]] files IH]; intros indexed w Hw.
  - exists w. simpl. rewrite Nat.add_0_r. repeat split; auto.
    intros _ _. now rewrite app_nil_r.
  - (* a file that can be read *)
    cbn [indexFiles]. unfold bind at 1, tryCatch, indexFile, bind, attempt, ret.
    cbn [fst snd].
    destruct (50000 <? jsLength content) eqn:Ebig.
    + destruct (IH (indexed + 1) w Hw) as (w' & Hrun & Hf & Ht & Hr & Hrows).
      exists w'. cbn [filter readable snd List.length].
      rewrite Hrun. repeat split; try assumption; [f_equal; f_equal; lia|].
      intros Hnodup Hfresh. unfold storedFiles. cbn [flat_map snd].
      rewrite Ebig. cbn [app]. apply Hrows.
      * now inversion Hnodup.
      * intros file Hin. apply Hfresh. now right.
    + rewrite update_no_fault by exact Hw.
      match goal with
      | |- context [indexFiles env repoId files (indexed + 1) ?w1] =>
          destruct (IH (indexed + 1) w1 eq_refl) as (w' & Hrun & Hf & Ht & Hr & Hrows)
      end.
      exists w'. cbn [filter readable snd List.length].
      rewrite Hrun. repeat split; try assumption; [f_equal; f_equal; lia|].
      intros Hnodup Hfresh. unfold storedFiles. cbn [flat_map snd fst].
      rewrite Ebig. cbn [app]. cbn [db] in Hrows.
      destruct (@selectFiles_insertOrReplaceFile repoId
                  (fun rowid =>
                     {| f_id := rowid; f_repositoryId := repoId; f_path := path;
                        f_content := content; f_contentHash := md5 env content;
                        f_size := jsLength content; f_lastModified := now env;
                        f_fileType := getFileType path;
                        f_embedding := generateEmbedding env path content;
                        f_imports := fst (extractImportsExports content (getFileType path));
                        f_exports := snd (extractImportsExports content (getFileType path)) |})
                  (db w))
        as [rowid Hsel]; [reflexivity | reflexivity | |].
      { apply (Hfresh (path, Some content)). now left. }
      rewrite Hrows.
      * rewrite Hsel, map_app, <- app_assoc. reflexivity.
      * now inversion Hnodup.
      * intros file Hin. rewrite Hsel, map_app. cbn [map f_path].
        intros Hin'. apply in_app_or in Hin' as [Hin'|[Heq|[]]].
        -- apply (Hfresh file); [now right | exact Hin'].
        -- cbn [map fst] in Hnodup. apply NoDup_cons_iff in Hnodup as [Hnotin _].
           apply Hnotin. rewrite Heq. apply in_map. exact Hin.
  - (* a file that cannot be read *)
    cbn [indexFiles]. unfold bind at 1, tryCatch, indexFile, bind, attempt, throw, ret.
    cbn [fst snd].
    destruct (IH indexed w Hw) as (w' & Hrun & Hf & Ht & Hr & Hrows).
    exists w'. cbn [filter readable snd]. rewrite Hrun.
    repeat split; try assumption.
    intros Hnodup Hfresh. unfold storedFiles. cbn [flat_map snd app]. apply Hrows.
    + now inversion Hnodup.
    + intros file Hin. apply Hfresh. now right.
Qed.

(** ** The pass *)

Lemma getOrCreateRepository_no_fault (name : string) (w : World (Store num)) :
  faultIn w = None ->
  exists repoId w' r,
    getOrCreateRepository env name w = (inr repoId, w')
    /\ faultIn w' = None
    /\ tempDir w' = tempDir w
    /\ files (db w') = files (db w)
    /\ selectRepository name (db w') = Some r
    /\ r_id r = repoId
    /\ (selectRepository name (db w) <> None -> db w' = db w).
Proof.
  intros Hw. unfold getOrCreateRepository, bind.
  rewrite query_no_fault by exact Hw.
  destruct (selectRepository name (db w)) as [r|] eqn:Esel.
  - exists (r_id r). eexists. exists r. unfold ret. cbn [db faultIn tempDir]. auto 10.
  - rewrite stmt_no_fault by reflexivity. cbn [db tempDir].
    unfold insertRepository. rewrite Esel.
    eexists. eexists. eexists. cbn [db faultIn tempDir files].
    repeat split.
    + unfold selectRepository in *. simpl.
      rewrite find_app_none by exact Esel. simpl.
      rewrite String.eqb_refl. reflexivity.
    + reflexivity.
    + congruence.
Qed.

Lemma basic_updateRepository_found (name : string) (repoId : nat)
  (hash : option string) (stamp : string) (total : nat) (d : Store num) r :
  selectRepository name d = Some r -> r_id r = repoId ->
  selectRepository name (updateRepository repoId hash stamp total d)
  = Some {| r_id := repoId; r_name := r_name r; r_lastCommitHash := hash;
            r_lastIndexed := Some stamp; r_totalFiles := total |}.
Proof.
  unfold selectRepository, updateRepository; simpl.
  induction (repositories d) as [|x l IH]; simpl; [discriminate|].
  intros Hfind Hid.
  destruct (String.eqb (r_name x) name) eqn:En.
  - inversion Hfind; subst x. rewrite Hid, Nat.eqb_refl. simpl. now rewrite En.
  - destruct (r_id x =? repoId); simpl; rewrite En; auto.
Qed.

(** Rows with pairwise different keys keep them through a selection. *)
Lemma selection_keeps_keys_distinct {Row Key} (key : Row -> Key) (keep : Row -> bool) :
  forall rows : list Row,
    NoDup (map key rows) -> NoDup (map key (filter keep rows)).
Proof.
  intros rows Hdistinct.
  induction rows as [|row rows IH]; simpl in *; [constructor|].
  apply NoDup_cons_iff in Hdistinct as [Hnew Hdistinct].
  destruct (keep row); simpl; [|auto].
  constructor; [|auto].
  intros Hin. apply Hnew. apply in_map_iff in Hin as (other & Heq & Hother).
  apply filter_In in Hother as [Hother _]. rewrite <- Heq. now apply in_map.
Qed.

Lemma selectFiles_deleteFiles (repoId : nat) (d : Store num) :
  selectFiles repoId (deleteFiles repoId d) = [].
Proof.
  unfold selectFiles, deleteFiles; simpl.
  apply filter_none. apply Forall_forall. intros f Hf.
  apply filter_In in Hf as [_ Hf]. now apply negb_true_iff in Hf.
Qed.

(** A pass on a database that answers, with a clone that succeeds and a
    cleanup that works, returns; and this is what it leaves. *)
Lemma indexRepository_no_fault (repoName branch : string) (checkout : Checkout)
  (w : World (Store num)) :
  faultIn w = None ->
  clone env repoName branch = Some checkout ->
  rmFails env = false ->
  exists w' r,
    indexRepository env repoName branch w = (inr tt, w')
    /\ faultIn w' = None
    /\ tempDir w' = false
    /\ selectRepository repoName (db w') = Some r
    /\ r_lastCommitHash r = head checkout
    /\ r_totalFiles r = List.length (filter readable (findRelevantFiles env (tree checkout)))
    /\ (NoDup (map fst (tree checkout)) ->
        map summary (selectFiles (r_id r) (db w'))
        = storedFiles (findRelevantFiles env (tree checkout))).
Proof.
  intros Hw Hclone Hrm. unfold indexRepository, bind at 1, initialize.
  rewrite query_no_fault by exact Hw. unfold bind at 1.
  match goal with
  | |- context [getOrCreateRepository env repoName ?w0] =>
      destruct (@getOrCreateRepository_no_fault repoName w0 eq_refl)
        as (repoId & w1 & r & Hget & Hf1 & Ht1 & _ & Hsel & Hid & _)
  end.
  rewrite Hget. clear Hget.
  unfold tryCatch, indexPass, bind, removeTempDirIfThere, bind, existsTempDir,
    removeTempDir, setTempDir, attempt, ret.
  rewrite Hrm, Hclone.
  assert (Hpass : forall w2 : World (Store num),
            db w2 = db w1 -> faultIn w2 = None ->
            exists w' r',
              (let (r0, w3) := update (deleteFiles repoId) w2 in
               match r0 with
               | inl e => (inl e, w3)
               | inr _ =>
                   let (r1, w4) :=
                     indexFiles env repoId (findRelevantFiles env (tree checkout)) 0 w3 in
                   match r1 with
                   | inl e => (inl e, w4)
                   | inr a =>
                       let (r2, w5) :=
                         update (updateRepository repoId (head checkout) (now env) a) w4 in
                       match r2 with
                       | inl e => (@inl Error unit e, w5)
                       | inr _ =>
                           (inr tt, {| db := db w5; faultIn := faultIn w5; tempDir := false |})
                       end
                   end
               end) = (inr tt, w')
              /\ faultIn w' = None
              /\ tempDir w' = false
              /\ selectRepository repoName (db w') = Some r'
              /\ r_id r' = repoId
              /\ r_lastCommitHash r' = head checkout
              /\ r_totalFiles r'
                 = List.length (filter readable (findRelevantFiles env (tree checkout)))
              /\ (NoDup (map fst (tree checkout)) ->
                  map summary (selectFiles repoId (db w'))
                  = storedFiles (findRelevantFiles env (tree checkout)))).
  { intros w2 Hdb2 Hf2.
    rewrite update_no_fault by exact Hf2.
    match goal with
    | |- context [indexFiles env repoId ?fs 0 ?w3] =>
        destruct (@indexFiles_no_fault repoId fs 0 w3 eq_refl)
          as (w4 & Hfiles & Hf4 & Ht4 & Hr4 & Hrows)
    end.
    rewrite Hfiles. rewrite update_no_fault by exact Hf4.
    eexists. eexists. split; [reflexivity|]. cbn [db faultIn tempDir].
    assert (Hsel4 : selectRepository repoName (db w4) = Some r).
    { unfold selectRepository in *. rewrite Hr4. cbn [db deleteFiles repositories].
      rewrite Hdb2. exact Hsel. }
    repeat split.
    - apply basic_updateRepository_found; [exact Hsel4 | exact Hid].
    - reflexivity.
    - reflexivity.
    - reflexivity.
    - intros Hnodup.
      change (selectFiles repoId (updateRepository repoId (head checkout) (now env)
                (0 + List.length (filter readable (findRelevantFiles env (tree checkout))))
                (db w4)))
        with (selectFiles repoId (db w4)).
      rewrite Hrows.
      + cbn [db]. now rewrite selectFiles_deleteFiles.
      + unfold findRelevantFiles, findFiles.
        destruct (findFails env); [constructor | now apply selection_keeps_keys_distinct].
      + intros file _. cbn [db]. rewrite selectFiles_deleteFiles. intros []. }
  destruct (tempDir w1).
  - destruct (Hpass {| db := db {| db := db w1; faultIn := faultIn w1; tempDir := false |};
                       faultIn := faultIn {| db := db w1; faultIn := faultIn w1;
                                             tempDir := false |};
                       tempDir := true |} eq_refl Hf1)
      as (w' & r' & Hrun & Hf & Ht & Hs & Hi & Hc & Hn & Hrows).
    exists w', r'. rewrite Hrun, Hi. repeat split; assumption.
  - destruct (Hpass {| db := db w1; faultIn := faultIn w1; tempDir := true |} eq_refl Hf1)
      as (w' & r' & Hrun & Hf & Ht & Hs & Hi & Hc & Hn & Hrows).
    exists w', r'. rewrite Hrun, Hi. repeat split; assumption.
Qed.

(** X17.  On a database that answers, with a clone that succeeds and a
    cleanup that works, [indexRepository] of [CodebaseIndexService] always
    returns, whatever the files: a file that cannot be read is skipped.
    The record then holds the commit the clone reports and, as
    [totalFiles], the number of files [findRelevantFiles] listed that could
    be read (none, when [find] throws); the files longer than 50000 UTF-16
    code units are counted too, though no row is written for them. *)
Theorem basic_indexRepository_skips_unreadable_files
  (repoName branch : string) (checkout : Checkout) (w : World (Store num)) :
  faultIn w = None ->
  clone env repoName branch = Some checkout ->
  rmFails env = false ->
  exists w' r,
    indexRepository env repoName branch w = (inr tt, w')
    /\ selectRepository repoName (db w') = Some r
    /\ r_lastCommitHash r = head checkout
    /\ r_totalFiles r = List.length (filter readable (findRelevantFiles env (tree checkout)))
    /\ tempDir w' = false.
Proof.
  intros Hw Hclone Hrm.
  destruct (indexRepository_no_fault repoName branch w Hw Hclone Hrm)
    as (w' & r & Hrun & _ & Htemp & Hsel & Hcommit & Htotal & _).
  exists w', r. auto.
Qed.

(** X18.  Index, then list.  After such a pass over a clone whose paths
    are pairwise different, [getAllFiles] returns exactly the files
    [findRelevantFiles] listed (none, when [find] throws) that could be
    read and whose [length] is at most 50000 UTF-16 code units, each once,
    with its content and the type [getFileType] gives its path (the
    statement has no [ORDER BY]: in whichever order); and it changes
    nothing. *)
Theorem getAllFiles_after_indexRepository
  (repoName branch : string) (checkout : Checkout) (w : World (Store num)) :
  faultIn w = None ->
  clone env repoName branch = Some checkout ->
  rmFails env = false ->
  NoDup (map fst (tree checkout)) ->
  exists w1 listed w2,
    indexRepository env repoName branch w = (inr tt, w1)
    /\ getAllFiles env repoName w1 = (inr listed, w2)
    /\ Permutation listed (storedFiles (findRelevantFiles env (tree checkout)))
    /\ db w2 = db w1.
Proof.
  intros Hw Hclone Hrm Hnodup.
  destruct (indexRepository_no_fault repoName branch w Hw Hclone Hrm)
    as (w1 & r & Hrun & Hf1 & _ & Hsel & _ & _ & Hrows).
  exists w1. unfold getAllFiles, bind at 1, initialize.
  rewrite query_no_fault by exact Hf1. unfold bind.
  match goal with
  | |- context [getOrCreateRepository env repoName ?w0] =>
      destruct (@getOrCreateRepository_no_fault repoName w0 eq_refl)
        as (repoId & w2 & r' & Hget & Hf2 & _ & _ & Hsel' & Hid & Hsame)
  end.
  rewrite Hget. rewrite query_no_fault by exact Hf2.
  cbn [db] in Hsame.
  assert (Hdb : db w2 = db w1) by (apply Hsame; rewrite Hsel; discriminate).
  assert (Hr : r' = r).
  { rewrite Hdb, Hsel in Hsel'. now inversion Hsel'. }
  subst r'.
  eexists. eexists. split; [exact Hrun|]. split; [reflexivity|]. split.
  - cbn [db]. rewrite Hdb, <- Hid, Hrows by exact Hnodup. apply Permutation_refl.
  - exact Hdb.
Qed.

End Service.
End BasicIndexing.

(* ================================================================== *)
(** * The read paths of [CodebaseIndexService] *)
(* ================================================================== *)

Module BasicReads.
Import JsString Common Effects EffectsFacts Basic BasicFacts.

Section Service.
Context {num : Type} `{JsNum num} `{JsMath num}.
Variable env : Env num.
Local Open Scope effect_scope.

(** X19.  [needsUpdate] changes nothing: whatever it returns and
    however it ends, the database and the temporary directory are as they
    were; and the only error it can throw is a failed database statement
    (an unreachable or failing GitHub API makes it return [true]). *)
Theorem needsUpdate_changes_nothing (repoName branch : string) (w : World (Store num)) :
  db (snd (needsUpdate env repoName branch w)) = db w
  /\ tempDir (snd (needsUpdate env repoName branch w)) = tempDir w
  /\ (fst (needsUpdate env repoName branch w) = inl StorageFailure
      \/ exists answer, fst (needsUpdate env repoName branch w) = inr answer).
Proof.
  unfold needsUpdate, initialize, bind, query, stmt.
  destruct (faultIn w) as [[|[|n]]|]; cbn [db faultIn tempDir fst snd];
    try (repeat split; left; reflexivity);
    destruct (selectRepository repoName (db w)) as [r|];
    try (repeat split; right; eexists; reflexivity);
    destruct (r_lastCommitHash r) as [stored|];
    try (repeat split; right; eexists; reflexivity);
    destruct (Chunker.isEmpty stored);
    try (repeat split; right; eexists; reflexivity);
    destruct (commits env repoName branch) as [| |[currentHash|]];
    repeat split; right; eexists; reflexivity.
Qed.

(** ** [getRepositoryStats] *)

Lemma tally_total (k : string) (groups : list (string * nat)) :
  fold_right (fun g total => snd g + total) 0 (tally k groups)
  = S (fold_right (fun g total => snd g + total) 0 groups).
Proof.
  induction groups as [|[k' n] groups IH]; simpl; [reflexivity|].
  destruct (String.eqb k' k); simpl; [lia|].
  destruct (String.ltb k k'); simpl; [reflexivity|]. rewrite IH. lia.
Qed.

Lemma countByFileType_total (repoId : nat) (d : Store num) :
  fold_right (fun g total => snd g + total) 0 (countByFileType repoId d)
  = List.length (selectFiles repoId d).
Proof.
  unfold countByFileType.
  assert (Hfold : forall rows groups,
            fold_right (fun g total => snd g + total) 0
              (fold_left (fun groups (f : FileRow num) => tally (f_fileType f) groups)
                         rows groups)
            = List.length rows + fold_right (fun g total => snd g + total) 0 groups).
  { induction rows as [|f rows IH]; intros groups; simpl; [reflexivity|].
    rewrite IH, tally_total. lia. }
  rewrite Hfold. simpl. lia.
Qed.

(** X20.  [getRepositoryStats] returns [null] exactly for a name without
    a record, and creates none; for a name with a record it returns that
    record, and the counts of its [fileBreakdown] add up to the number of
    rows the files table holds for the repository.  It changes nothing,
    and only a failed database statement makes it throw. *)
Theorem getRepositoryStats_counts_every_row (repoName : string) (w : World (Store num)) :
  db (snd (getRepositoryStats repoName w)) = db w
  /\ match fst (getRepositoryStats repoName w) with
     | inr (Some stats) =>
         selectRepository repoName (db w) = Some (repository stats)
         /\ fold_right (fun g total => snd g + total) 0 (fileBreakdown stats)
            = List.length (selectFiles (r_id (repository stats)) (db w))
     | inr None => selectRepository repoName (db w) = None
     | inl e => e = StorageFailure
     end.
Proof.
  unfold getRepositoryStats, initialize, bind, query, stmt.
  destruct (faultIn w) as [[|[|[|n]]]|]; cbn [db faultIn tempDir fst snd];
    try (split; reflexivity);
    destruct (selectRepository repoName (db w)) as [r|] eqn:Esel;
    cbn [db faultIn tempDir fst snd ret];
    try (split; reflexivity);
    (split; [reflexivity|]); cbn [repository fileBreakdown];
    (split; [reflexivity | apply countByFileType_total]).
Qed.

(** ** The reads that go through [getOrCreateRepository] *)

Lemma bind_readonly_snd {A B} (m : M (Store num) A) (k : A -> M (Store num) B) w :
  (forall a, Keeps (fun d => d) (k a)) -> db (snd (bind m k w)) = db (snd (m w)).
Proof.
  intros Hk. unfold bind. destruct (m w) as [[e|a] w1]; [reflexivity|].
  destruct (k a w1) as [r w2] eqn:Ek. exact (Hk a _ _ _ Ek).
Qed.

Lemma getOrCreateRepository_leaves (repoName : string) (w : World (Store num)) :
  db (snd (getOrCreateRepository env repoName w))
  = match selectRepository repoName (db w), faultIn w with
    | Some _, _ => db w
    | None, Some 0 => db w
    | None, Some 1 => db w
    | None, _ =>
        {| repositories :=
             repositories (db w) ++
               [ {| r_id := nextRowid (map r_id (repositories (db w)));
                    r_name := repoName; r_lastCommitHash := None;
                    r_lastIndexed := Some (now env); r_totalFiles := 0 |} ];
           files := files (db w) |}
    end.
Proof.
  unfold getOrCreateRepository, bind, query, stmt, insertRepository.
  destruct (faultIn w) as [[|[|n]]|];
    destruct (selectRepository repoName (db w)) eqn:Esel; simpl;
    rewrite ?Esel; reflexivity.
Qed.

(** X21.  [searchRelevantFiles] and [getAllFiles] never change the files
    table, and leave the repositories table alone when the repository has
    a record.  For a name without a record each of them appends one (no
    commit, the time of the call, zero files), unless one of the first
    three database statements of the call fails. *)
Theorem reads_write_only_a_new_repository
  (repoName taskDescription : string) (limit : nat) (w : World (Store num)) :
  let expected :=
    match selectRepository repoName (db w), faultIn w with
    | Some _, _ => db w
    | None, Some 0 => db w
    | None, Some 1 => db w
    | None, Some 2 => db w
    | None, _ =>
        {| repositories :=
             repositories (db w) ++
               [ {| r_id := nextRowid (map r_id (repositories (db w)));
                    r_name := repoName; r_lastCommitHash := None;
                    r_lastIndexed := Some (now env); r_totalFiles := 0 |} ];
           files := files (db w) |}
    end in
  db (snd (searchRelevantFiles env repoName taskDescription limit w)) = expected
  /\ db (snd (getAllFiles env repoName w)) = expected.
Proof.
  intros expected. subst expected. split.
  - unfold searchRelevantFiles.
    assert (Hrest : forall repoId,
              Keeps (fun d : Store num => d)
                (rows <- query (selectFiles repoId) ;;
                 ret (slice
                        (sort (fun a b => nsub (score b) (score a))
                           (flat_map
                              (fun f =>
                                 let t := scoreFile taskDescription
                                            (generateEmbedding env "task" taskDescription)
                                            f in
                                 if ngtb (fst t) (nlit 1 10) then [toResult f t] else [])
                              rows))
                        0 limit))).
    { intros repoId. apply keeps_bind; [apply keeps_query|]. intros rows. apply keeps_ret. }
    unfold bind at 1, initialize, query at 1, stmt at 1.
    destruct (faultIn w) as [[|[|[|n]]]|] eqn:Ef; simpl;
      try (destruct (selectRepository repoName (db w)); reflexivity);
      rewrite (bind_readonly_snd _ _ _ Hrest), getOrCreateRepository_leaves; reflexivity.
  - unfold getAllFiles.
    assert (Hrest : forall repoId,
              Keeps (fun d : Store num => d)
                (query (fun d => map (fun f => (f_path f, f_content f, f_fileType f))
                                     (selectFiles repoId d)))).
    { intros repoId. apply keeps_query. }
    unfold bind at 1, initialize, query at 1, stmt at 1.
    destruct (faultIn w) as [[|[|[|n]]]|] eqn:Ef; simpl;
      try (destruct (selectRepository repoName (db w)); reflexivity);
      rewrite (bind_readonly_snd _ _ _ Hrest), getOrCreateRepository_leaves; reflexivity.
Qed.

End Service.
End BasicReads.

(* ================================================================== *)
(** * The file search without embeddings *)
(* ================================================================== *)

Module BasicSearch.
Import JsString Common Effects EffectsFacts Basic BasicFacts FloatFacts.
Import Float64.
Local Open Scope effect_scope.

(** The zero vector [new Array(384).fill(0)]. *)
Local Notation "'zeros'" := (repeat (nlit 0 1) 384).

Lemma boost_nan (amount : float) (why : string) (t : Tally) :
  PrimFloat.is_nan (fst t) = true -> PrimFloat.is_nan (fst (boost amount why t)) = true.
Proof. intros Ht. unfold boost. cbn [fst]. now apply add_nan_l. Qed.

Lemma boostIf_nan (b : bool) (amount : float) (why : string) (t : Tally) :
  PrimFloat.is_nan (fst t) = true ->
  PrimFloat.is_nan (fst (boostIf b amount why t)) = true.
Proof. intros Ht. unfold boostIf. destruct b; [now apply boost_nan | exact Ht]. Qed.

(** A score that starts as NaN stays NaN through every bonus. *)
Lemma scoreFile_nan (taskDescription : string) (taskEmbedding : list float)
  (f : FileRow float) :
  PrimFloat.is_nan (fst (semanticScore taskEmbedding (f_embedding f))) = true ->
  PrimFloat.is_nan (fst (scoreFile taskDescription taskEmbedding f)) = true.
Proof.
  intros Hbase. unfold scoreFile.
  apply boostIf_nan.
  unfold kindBoost. do 3 apply boostIf_nan.
  assert (Hword : forall t, PrimFloat.is_nan (fst t) = true ->
            PrimFloat.is_nan (fst (wordBoost taskDescription f t)) = true).
  { intros t Ht. unfold wordBoost.
    destruct (isChangeTask (toLowerCase taskDescription)); [|exact Ht].
    revert t Ht. induction (words (toLowerCase taskDescription)) as [|word ws IH];
      intros t Ht; simpl; [exact Ht|].
    apply IH. now apply boostIf_nan. }
  apply Hword.
  assert (Hquoted : forall t, PrimFloat.is_nan (fst t) = true ->
            PrimFloat.is_nan (fst (quotedTextBoost taskDescription f t)) = true).
  { intros t Ht. unfold quotedTextBoost.
    revert t Ht. induction (quotesToCheck taskDescription) as [|q qs IH];
      intros t Ht; simpl; [exact Ht|].
    apply IH. unfold quotedStep. now apply boostIf_nan. }
  apply Hquoted.
  apply boostIf_nan. apply boostIf_nan.
  unfold uiBoost.
  repeat match goal with
         | |- context [if ?b then _ else _] => destruct b
         end; try apply boost_nan; exact Hbase.
Qed.

(** X22.  On IEEE doubles.  When the embedding of the task is the zero
    vector (no model is loaded, or the model threw) and the rows of the
    files table hold zero vectors too (they were indexed that way),
    [searchRelevantFiles] returns the empty list, whatever the task says
    and whatever the files contain: every similarity is the NaN of 0/0, the
    bonuses are added to NaN, and NaN fails the test [score > 0.1]. *)
Theorem searchRelevantFiles_finds_nothing_on_zero_embeddings
  (env : Env float) (repoName taskDescription : string) (limit : nat)
  (w : World (Store float)) :
  generateEmbedding env "task" taskDescription = zeros ->
  Forall (fun f => f_embedding f = zeros) (files (db w)) ->
  fst (searchRelevantFiles env repoName taskDescription limit w) = inr []
  \/ fst (searchRelevantFiles env repoName taskDescription limit w) = inl StorageFailure.
Proof.
  intros Htask Hrows.
  destruct (searchRelevantFiles env repoName taskDescription limit w)
    as [[e|results] w'] eqn:Erun; cbn [fst].
  - right. f_equal. unfold searchRelevantFiles in Erun.
    apply bind_inl in Erun as [Erun | (u0 & w1 & _ & Erun)];
      [now apply stmt_inl in Erun|].
    apply bind_inl in Erun as [Erun | (repoId & w2 & _ & Erun)].
    { unfold getOrCreateRepository in Erun.
      apply bind_inl in Erun as [Erun | (existing & w2 & _ & Erun)];
        [now apply stmt_inl in Erun|].
      destruct existing; [discriminate | now apply stmt_inl in Erun]. }
    apply bind_inl in Erun as [Erun | (rows & w3 & _ & Erun)];
      [now apply stmt_inl in Erun | discriminate].
  - left. f_equal. unfold searchRelevantFiles in Erun.
    apply bind_inr in Erun as (u0 & w1 & Hinit & Erun).
    apply bind_inr in Erun as (repoId & w2 & Hget & Erun).
    apply bind_inr in Erun as (rows & w3 & Hsel & Erun).
    inversion Erun; subst results w3; clear Erun.
    assert (Hfiles : files (db w2) = files (db w)).
    { assert (Hk : Keeps (@files float) (getOrCreateRepository env repoName)).
      { unfold getOrCreateRepository. keeps_step; [keeps_step|].
        destruct a; [keeps_step|].
        apply keeps_stmt. intros d newId d'. unfold insertRepository.
        destruct (selectRepository repoName d); intros Heq; inversion Heq; reflexivity. }
      rewrite (Hk _ _ _ Hget).
      apply stmt_inr in Hinit as [Hinit _]. now inversion Hinit. }
    apply stmt_inr in Hsel as [Hsel _]. inversion Hsel as [[Hrowsel Hdb]]; clear Hsel.
    rewrite flat_map_none; [unfold slice; simpl; apply firstn_nil|].
    apply Forall_forall. intros f Hf.
    unfold selectFiles in Hf. apply filter_In in Hf as [Hf _].
    rewrite Hfiles in Hf. rewrite Forall_forall in Hrows. specialize (Hrows f Hf).
    rewrite Htask.
    assert (Hnan : PrimFloat.is_nan
                     (fst (scoreFile taskDescription zeros f)) = true).
    { apply scoreFile_nan. rewrite Hrows. vm_compute. reflexivity. }
    change (ngtb (fst (scoreFile taskDescription zeros f)) (nlit 1 10))
      with (PrimFloat.ltb (nlit 1 10) (fst (scoreFile taskDescription zeros f))).
    now rewrite (ltb_nan_r _ _ Hnan).
Qed.

End BasicSearch.

Module BasicRuns.
Import JsString Common Effects Basic BasicSnapshot Scenario BasicScenario MoreScenarios.
Import Float64.

Lemma basic_indexRepository_skips_unreadable_files_witness :
  List.length (findRelevantFiles (envWith (Some site5) "5555555") (tree site5)) = 4
  /\ List.length (filter readable
                    (findRelevantFiles (envWith (Some site5) "5555555") (tree site5))) = 3
  /\ List.length (storedFiles
                    (findRelevantFiles (envWith (Some site5) "5555555") (tree site5))) = 2
  /\ (exists w' r,
        indexRepository (basicFindlessEnv site5) "octo/site" "main" freshWorld
        = (inr tt, w')
        /\ selectRepository "octo/site" (db w') = Some r
        /\ r_lastCommitHash r = head site5
        /\ r_totalFiles r
           = List.length (filter readable
                            (findRelevantFiles (basicFindlessEnv site5) (tree site5)))
        /\ tempDir w' = false)
  /\ List.length (filter readable
                    (findRelevantFiles (basicFindlessEnv site5) (tree site5))) = 0
  /\ exists w' r,
       indexRepository (envWith (Some site5) "5555555") "octo/site" "main" freshWorld
       = (inr tt, w')
       /\ selectRepository "octo/site" (db w') = Some r
       /\ r_lastCommitHash r = head site5
       /\ r_totalFiles r = List.length (filter readable (findRelevantFiles (envWith (Some site5) "5555555") (tree site5)))
       /\ tempDir w' = false.
Proof.
  split; [vm_compute; reflexivity|]. split; [vm_compute; reflexivity|].
  split; [vm_compute; reflexivity|].
  split.
  { apply (@BasicIndexing.basic_indexRepository_skips_unreadable_files float _
             (basicFindlessEnv site5) "octo/site" "main" site5 freshWorld);
      reflexivity. }
  split; [vm_compute; reflexivity|].
  apply (@BasicIndexing.basic_indexRepository_skips_unreadable_files float _
           (envWith (Some site5) "5555555") "octo/site" "main" site5 freshWorld);
    reflexivity.
Defined.

Lemma getAllFiles_after_indexRepository_witness :
  (String.length accents =? 60000) = true
  /\ (jsLength accents =? 30000) = true
  /\ (jsLength bigText =? 50010) = true
  /\ map (fun stored => (fst (fst stored), snd stored))
         (storedFiles (findRelevantFiles (envWith (Some site5) "5555555") (tree site5)))
     = [ ("index.html", "page"); ("accents.md", "documentation") ]
  /\ exists w1 listed w2,
       indexRepository (envWith (Some site5) "5555555") "octo/site" "main" freshWorld
       = (inr tt, w1)
       /\ getAllFiles (envWith (Some site5) "5555555") "octo/site" w1 = (inr listed, w2)
       /\ Permutation listed (storedFiles (findRelevantFiles (envWith (Some site5) "5555555") (tree site5)))
       /\ db w2 = db w1.
Proof.
  split; [vm_compute; reflexivity|]. split; [vm_compute; reflexivity|].
  split; [vm_compute; reflexivity|]. split; [vm_compute; reflexivity|].
  apply (@BasicIndexing.getAllFiles_after_indexRepository float _
           (envWith (Some site5) "5555555") "octo/site" "main" site5 freshWorld);
    try reflexivity.
  repeat (constructor; [simpl; intuition discriminate|]). constructor.
Defined.

Lemma searchRelevantFiles_finds_nothing_on_zero_embeddings_witness :
  let task := "change the title to 'Ben Tossell'" in
  map (@f_path float) (files (db indexed)) = ["index.html"; "old.md"]
  /\ (fst (searchRelevantFiles (envWith None "1111111") "octo/site" task 10 indexed)
      = inr []
      \/ fst (searchRelevantFiles (envWith None "1111111") "octo/site" task 10 indexed)
         = inl StorageFailure).
Proof.
  intros task. split; [vm_compute; reflexivity|].
  apply (BasicSearch.searchRelevantFiles_finds_nothing_on_zero_embeddings
           (envWith None "1111111") "octo/site" task 10 indexed).
  - reflexivity.
  - vm_compute. repeat constructor.
Defined.

End BasicRuns.

(* ================================================================== *)
(** * The conversion of chunk results in [git-service.ts] *)
(* ================================================================== *)

Module GitServiceFacts.
Import JsString Common Effects Advanced AdvancedFacts GitService.

Section Convert.
Context {num : Type} `{JsNum num} `{JsMath num}.

(** The path and the content a result brings, when it has a file. *)
Local Notation "'brought'" :=
  (fun r : Advanced.SearchResult (num := num) =>
     match o_file (Advanced.chunk r), o_content (Advanced.chunk r) with
     | Some filePath, Some text =>
         if Chunker.isEmpty filePath then [] else [(filePath, text)]
     | _, _ => []
     end).

(** X23.  [convertAdvancedResults] never merges two results: its map of
    files is created anew in every round of the loop, so the branch that
    appends a chunk to a file seen before is never taken.  When it
    returns, it has pushed one entry for each result that names a file, in
    order, holding that one chunk's content, also when several results
    name the same file. *)
Theorem convertAdvancedResults_never_merges
  (clock : nat -> string) (results : list (Advanced.SearchResult (num := num)))
  (repository : string) (converted : list Converted) :
  convertAdvancedResults clock results repository = Some converted ->
  map (fun c => (path (file c), content (file c))) converted
  = flat_map brought results.
Proof.
  unfold convertAdvancedResults. generalize 0 as round. revert converted.
  induction results as [|r results IH]; intros converted round Hrun; simpl in Hrun.
  - inversion Hrun. reflexivity.
  - destruct (convertResult (clock round) r) as [pushed|] eqn:Epushed; [|discriminate].
    destruct (convertLoop clock (S round) results) as [others|] eqn:Eothers;
      [|discriminate].
    inversion Hrun; subst converted; clear Hrun.
    rewrite map_app, (IH _ _ Eothers). cbn [flat_map]. f_equal.
    unfold convertResult in Epushed.
    destruct (o_file (Advanced.chunk r)) as [filePath|];
      [|inversion Epushed; reflexivity].
    destruct (Chunker.isEmpty filePath);
      [destruct (o_content (Advanced.chunk r)); inversion Epushed; reflexivity|].
    cbn [mapGet] in Epushed.
    destruct (o_content (Advanced.chunk r)) as [text|]; [|discriminate].
    inversion Epushed. reflexivity.
Qed.

Lemma convertLoop_empty_chunks (clock : nat -> string) :
  forall (results : list (Advanced.SearchResult (num := num))) (round : nat),
    Forall (fun r => Advanced.chunk r = emptyObject) results ->
    convertLoop clock round results = Some [].
Proof.
  induction results as [|r results IH]; intros round Hall; simpl; [reflexivity|].
  inversion Hall as [|r' results' Hr Hrest]; subst.
  unfold convertResult. rewrite Hr. cbn [o_file emptyObject map].
  now rewrite (IH (S round) Hrest).
Qed.

(** X24.  Search, then convert.  Whatever [searchRelevantChunks] returns,
    [convertAdvancedResults] turns it into the empty list: every result
    carries the empty object as its chunk, which names no file. *)
Theorem convertAdvancedResults_of_a_search_is_empty
  (env : Env num) (repoName query : string) (limit : nat)
  (w w' : World (Store num)) (results : list SearchResult)
  (clock : nat -> string) (repository : string) :
  searchRelevantChunks env repoName query limit w = (inr results, w') ->
  convertAdvancedResults clock results repository = Some [].
Proof.
  intros Hrun. unfold convertAdvancedResults. apply convertLoop_empty_chunks.
  apply AdvancedSearch.searchRelevantChunks_inr in Hrun
    as (lexical & vector & structural & ->).
  apply Forall_slice, fuseAndRerank_empty_chunks.
Qed.

End Convert.
End GitServiceFacts.

Module GitServiceRuns.
Import JsString Common Effects Advanced GitService Scenario MoreScenarios.
Import Float64.

Lemma convertAdvancedResults_never_merges_witness :
  exists converted,
    convertAdvancedResults (fun _ => "2025-01-01T00:00:00.000Z") twoChunksOfOneFile
                           "octo/site"
    = Some converted
    /\ map (fun c => (path (file c), content (file c))) converted
       = [ ("app.js", "function a() {}"); ("app.js", "function b() {}") ].
Proof.
  eexists. split; [vm_compute; reflexivity|].
  etransitivity.
  - apply (@GitServiceFacts.convertAdvancedResults_never_merges float _
             (fun _ => "2025-01-01T00:00:00.000Z") twoChunksOfOneFile "octo/site").
    vm_compute; reflexivity.
  - vm_compute; reflexivity.
Defined.

Lemma convertAdvancedResults_of_a_search_is_empty_witness :
  exists results w',
    searchRelevantChunks (envAt None) "octo/site" "tossell" 10 indexedOnce
    = (inr results, w')
    /\ List.length results = 1
    /\ convertAdvancedResults (fun _ => "2025-01-01T00:00:00.000Z") results "octo/site"
       = Some [].
Proof.
  eexists; eexists.
  split; [vm_compute; reflexivity|].
  split; [reflexivity|].
  eapply (@GitServiceFacts.convertAdvancedResults_of_a_search_is_empty float _ _
            (envAt None) "octo/site" "tossell" 10 indexedOnce).
  vm_compute; reflexivity.
Defined.

End GitServiceRuns.

(* ================================================================== *)
(** * The files an index picks up, and what it takes them for *)
(* ================================================================== *)

Module FileKinds.
Import JsString Common Chunker.

Lemma substring_all (s : string) : String.substring 0 (String.length s) s = s.
Proof. induction s as [|c s IH]; simpl; [reflexivity | now rewrite IH]. Qed.

Lemma endsWith_split (s p : string) :
  endsWith s p = true -> exists x, s = (x ++ p)%string.
Proof.
  unfold endsWith. intros Hends. apply andb_true_iff in Hends as [Hle Heq].
  apply Nat.leb_le in Hle. apply String.eqb_eq in Heq.
  exists (String.substring 0 (String.length s - String.length p) s).
  pose proof (MarkdownFacts.substring_append s 0 (String.length s - String.length p)
                (String.length p)) as Happ.
  rewrite Nat.add_0_l in Happ.
  replace (String.length s - String.length p + String.length p) with (String.length s)
    in Happ by lia.
  rewrite substring_all, Heq in Happ. now symmetry.
Qed.

Lemma fromLastDot_app (x e : string) :
  fromLastDot e = None ->
  fromLastDot (x ++ String "." e) = Some (String "." e).
Proof.
  intros He. induction x as [|c x IH]; simpl; [now rewrite He | now rewrite IH].
Qed.

(** A name that ends in a dot and a dot-free tail, and has something before
    that dot, has the dot and the tail as its extension. *)
Lemma extname_suffix (path : string) (c : ascii) (x e : string) :
  afterLastSlash path = String c (x ++ String "." e) ->
  fromLastDot e = None -> e <> EmptyString ->
  extname path = String "." e.
Proof.
  intros Hbase He Hne. unfold extname. rewrite Hbase. cbv beta iota zeta.
  destruct (String.eqb (String c (x ++ String "." e)) "..") eqn:E.
  - apply String.eqb_eq in E. injection E as _ E. destruct x as [|c' x]; simpl in E.
    + injection E as E. contradiction.
    + injection E as _ E. destruct x; discriminate.
  - now rewrite fromLastDot_app.
Qed.

Ltac each_extension He :=
  simpl in He; repeat (destruct He as [He | He]; [subst|]); try contradiction.

Ltac pick_member := repeat first [left; reflexivity | right].

Ltac split_conditions :=
  repeat match goal with
         | |- context [if ?b then _ else _] => destruct b
         end.

(** X25.  The advanced index knows the language of every file it picks
    up, with one exception.  For a file [findRelevantFiles] lists, either
    its name has something before the extension, and then the pair of
    [path.extname] and [detectLanguage] is an entry of the language
    table; or its name is nothing but one of the extensions (a file
    called [.html], say), and then Node sees no extension and the
    language is [text]. *)
Theorem findRelevantFiles_languages {num : Type} (env : Advanced.Env num)
  (files : list (string * option string)) (f : string * option string) :
  In f (Advanced.findRelevantFiles env files) ->
  (~ In (afterLastSlash (fst f)) (map fst langMap)
   /\ In (extname (fst f), detectLanguage (fst f)) langMap)
  \/ (In (afterLastSlash (fst f)) (map fst langMap)
      /\ extname (fst f) = EmptyString
      /\ detectLanguage (fst f) = "text").
Proof.
  intros Hin. unfold Advanced.findRelevantFiles, findFiles in Hin.
  destruct (Advanced.findFails env); [contradiction|].
  apply filter_In in Hin as [_ Hin]. apply andb_true_iff in Hin as [Hext _].
  apply existsb_exists in Hext as (e & He & Hends).
  apply endsWith_split in Hends as ([|c x] & Hname).
  - right. simpl in Hname. unfold detectLanguage, extname. rewrite Hname.
    each_extension He; (split; [simpl; pick_member | split; reflexivity]).
  - left.
    each_extension He;
      (eapply extname_suffix in Hname; [|reflexivity|discriminate]);
      (split;
       [ intros Hn; each_extension Hn; unfold extname in Hname;
         match goal with
         | Heq : _ = afterLastSlash _ |- _ => rewrite <- Heq in Hname
         end; discriminate
       | unfold detectLanguage; rewrite Hname; simpl; pick_member ]).
Qed.

(** X26.  The basic index has a type for every file it picks up, with the
    same exception.  For a file [findRelevantFiles] lists, [getFileType]
    is [other] exactly when Node sees no extension in the path, which
    happens only when the name of the file begins with the dot of the
    extension that made [find] list it. *)
Theorem basic_findRelevantFiles_types {num : Type} (env : Basic.Env num)
  (files : list (string * option string)) (f : string * option string) :
  In f (Basic.findRelevantFiles env files) ->
  (extname (fst f) <> EmptyString /\ Basic.getFileType (fst f) <> "other")
  \/ (String.get 0 (afterLastSlash (fst f)) = Some "."%char
      /\ extname (fst f) = EmptyString
      /\ Basic.getFileType (fst f) = "other").
Proof.
  intros Hin. unfold Basic.findRelevantFiles, findFiles in Hin.
  destruct (Basic.findFails env); [contradiction|].
  apply filter_In in Hin as [_ Hin]. apply andb_true_iff in Hin as [Hext _].
  apply existsb_exists in Hext as (e & He & Hends).
  apply endsWith_split in Hends as ([|c x] & Hname).
  - right. simpl in Hname. unfold Basic.getFileType, extname. rewrite Hname.
    each_extension He; (split; [reflexivity | split; reflexivity]).
  - left.
    each_extension He;
      (eapply extname_suffix in Hname; [|reflexivity|discriminate]);
      (split;
       [ rewrite Hname; discriminate
       | unfold Basic.getFileType; rewrite Hname; simpl; split_conditions; discriminate ]).
Qed.

End FileKinds.

Module FileKindsRuns.
Import JsString Common Chunker.
Import Float64.

Lemma findRelevantFiles_languages_witness :
  let files := [("src/app/page.tsx", Some "export default function Page() {}");
                ("docs/.md", Some "# notes"); ("dist/app.js", Some "")] in
  Advanced.findRelevantFiles (Scenario.envAt None) files
  = [("src/app/page.tsx", Some "export default function Page() {}");
     ("docs/.md", Some "# notes")]
  /\ detectLanguage "src/app/page.tsx" = "typescript"
  /\ detectLanguage "docs/.md" = "text"
  /\ ((~ In (afterLastSlash "docs/.md") (map fst langMap)
       /\ In (extname "docs/.md", detectLanguage "docs/.md") langMap)
      \/ (In (afterLastSlash "docs/.md") (map fst langMap)
          /\ extname "docs/.md" = EmptyString
          /\ detectLanguage "docs/.md" = "text")).
Proof.
  intros files.
  split; [reflexivity|]. split; [reflexivity|]. split; [reflexivity|].
  apply (FileKinds.findRelevantFiles_languages (Scenario.envAt None) files
           ("docs/.md", Some "# notes")).
  simpl. right. left. reflexivity.
Defined.

Lemma basic_findRelevantFiles_types_witness :
  let files := [("vendor/lib.php", Some "<?php"); ("tools/build.py", Some "print(1)");
                ("tools/.py", None)] in
  Basic.findRelevantFiles (BasicScenario.envWith None "5555555") files
  = [("tools/build.py", Some "print(1)"); ("tools/.py", None)]
  /\ Basic.getFileType "tools/build.py" = "script"
  /\ Basic.getFileType "tools/.py" = "other"
  /\ ((extname "tools/build.py" <> EmptyString
       /\ Basic.getFileType "tools/build.py" <> "other")
      \/ (String.get 0 (afterLastSlash "tools/build.py") = Some "."%char
          /\ extname "tools/build.py" = EmptyString
          /\ Basic.getFileType "tools/build.py" = "other")).
Proof.
  intros files.
  split; [reflexivity|]. split; [reflexivity|]. split; [reflexivity|].
  apply (FileKinds.basic_findRelevantFiles_types (BasicScenario.envWith None "5555555")
           files ("tools/build.py", Some "print(1)")).
  simpl. left. reflexivity.
Defined.

End FileKindsRuns.
